(** * Session management of the remote plugin: servers, users, tokens

    A shallow embedding of [RemotePluginAuth] (connectServer, loginUser,
    logoutCurrentUser, logoutUser, deleteServer), of the response
    interceptors [logoutInterceptor] and [serverUnreachableInterceptor] that
    call into it, and of the older pinia store [authStore] that carries the
    same operations.

    Conventions of the embedding:
    - a JavaScript value that may be [undefined] or [null] is a [jsopt];
    - the server registry is an array of object references: the records live
      in a heap, since [merge] updates a record in place while the array and a
      suspended [deleteServer] still point at it;
    - user records are never mutated and every one in the registry is an
      object of its own, so they are kept by value;
    - an [async] function is a state transformer up to its first [await] on a
      promise that settles later; what is left of an un-awaited call is a
      [frame];
    - collaborator calls (snackbar, router, one-off network clients) are
      recorded, in order, in a log of [event]s; their replies are arguments. *)

From Stdlib Require Import ZArith String Ascii.
From stdpp Require Import base decidable option list strings gmap fin_maps.

Local Open Scope string_scope.
Local Open Scope list_scope.
Local Open Scope Z_scope.

(** ** JavaScript values and built-ins used by the code *)

Module JS.

(** A value of type [A | null | undefined]. Strict equality [===] on such
    values of primitive type is equality of the constructors. *)
Inductive jsopt (A : Type) : Type :=
| JsUndefined
| JsNull
| JsVal (a : A).
Arguments JsUndefined {A}.
Arguments JsNull {A}.
Arguments JsVal {A} a.

#[global] Instance jsopt_eq_dec {A} `{EqDecision A} : EqDecision (jsopt A).
Proof. solve_decision. Defined.

(** [isNil] of lodash. *)
Definition isNil {A} (v : jsopt A) : bool :=
  match v with JsVal _ => false | _ => true end.

(** Truthiness of a string-or-nullish value: only a non-empty string. *)
Definition truthy (v : jsopt string) : bool :=
  match v with JsVal s => negb (String.eqb s "") | _ => false end.

(** Truthiness of a boolean-or-nullish value. *)
Definition truthy_bool (v : jsopt bool) : bool :=
  match v with JsVal b => b | _ => false end.

(** [ToString] applied to a property key or to the argument of [parseInt]. *)
Definition ToString (v : jsopt string) : string :=
  match v with
  | JsUndefined => "undefined"
  | JsNull => "null"
  | JsVal s => s
  end.

(** [arr[i]] for a number [i] that is an integer. *)
Definition at_index {A} (l : list A) (i : Z) : option A :=
  if i <? 0 then None else l !! Z.to_nat i.

(** [arr.find(p)]. *)
Definition find {A} (p : A -> bool) (l : list A) : option A :=
  snd <$> list_find (fun x => p x = true) l.

(** [arr.indexOf(x)]: position of the first element identical to [x], or -1. *)
Definition indexOf {A} `{EqDecision A} (x : A) (l : list A) : Z :=
  match list_find (fun y => y = x) l with
  | Some (i, _) => Z.of_nat i
  | None => -1
  end.

(** [arr.indexOf(arr.find(p))]: [find] answers [undefined] when nothing
    matches, and [undefined] is no element of these arrays. *)
Definition indexOf_found {A} `{EqDecision A} (x : option A) (l : list A) : Z :=
  match x with Some a => indexOf a l | None => -1 end.

(** [arr.splice(start, 1)], the array after the call: a negative [start]
    counts from the end, and a [start] past the end removes nothing. *)
Definition splice1 {A} (start : Z) (l : list A) : list A :=
  let len := Z.of_nat (length l) in
  let k := if start <? 0 then Z.max (len + start) 0 else Z.min start len in
  delete (Z.to_nat k) l.

(** What [arr.splice(start, 1)] returns: the elements it removed. *)
Definition splice1_removed {A} (start : Z) (l : list A) : list A :=
  let len := Z.of_nat (length l) in
  let k := if start <? 0 then Z.max (len + start) 0 else Z.min start len in
  match l !! Z.to_nat k with Some x => [x] | None => [] end.

(** [hay.includes(needle)]. *)
Fixpoint includes (needle hay : string) : bool :=
  String.prefix needle hay ||
  match hay with
  | EmptyString => false
  | String _ rest => includes needle rest
  end.

(** White space of [trim] and [parseInt], among the characters below 128. *)
Definition is_whitespace (c : ascii) : bool :=
  let n := nat_of_ascii c in
  Nat.eqb n 32 || (Nat.leb 9 n && Nat.leb n 13).

Fixpoint trimStart (s : string) : string :=
  match s with
  | String c rest => if is_whitespace c then trimStart rest else s
  | EmptyString => EmptyString
  end.

Fixpoint trimEnd (s : string) : string :=
  match s with
  | EmptyString => EmptyString
  | String c rest =>
      let r := trimEnd rest in
      if is_whitespace c && String.eqb r "" then EmptyString else String c r
  end.

Definition trim (s : string) : string := trimEnd (trimStart s).

(** [s.replace(/\/$/, '')]: one slash, and only at the very end. *)
Fixpoint replace_trailing_slash (s : string) : string :=
  match s with
  | EmptyString => EmptyString
  | String c rest =>
      if Ascii.eqb c "/" && String.eqb rest "" then EmptyString
      else String c (replace_trailing_slash rest)
  end.

(** [s.split('.')]. *)
Fixpoint split_dot (s : string) : list string :=
  match s with
  | EmptyString => [EmptyString]
  | String c rest =>
      if Ascii.eqb c "."
      then EmptyString :: split_dot rest
      else match split_dot rest with
           | piece :: pieces => String c piece :: pieces
           | [] => [String c EmptyString]
           end
  end.

(** [v?.split('.')[k]]: the optional chain answers [undefined] for a
    nullish [v], and so does an index past the pieces. *)
Definition split_dot_at (v : jsopt string) (k : nat) : jsopt string :=
  match v with
  | JsVal s => match split_dot s !! k with Some p => JsVal p | None => JsUndefined end
  | _ => JsUndefined
  end.

Definition digit_value (c : ascii) : option Z :=
  let n := Z.of_nat (nat_of_ascii c) in
  if (48 <=? n) && (n <=? 57) then Some (n - 48)
  else if (97 <=? n) && (n <=? 122) then Some (n - 87)
  else if (65 <=? n) && (n <=? 90) then Some (n - 55)
  else None.

(** The longest prefix of digits of the radix; [None] when there is none. *)
Fixpoint parse_digits (radix : Z) (acc : option Z) (s : string) : option Z :=
  match s with
  | EmptyString => acc
  | String c rest =>
      match digit_value c with
      | Some d =>
          if d <? radix
          then parse_digits radix (Some (radix * default 0 acc + d)) rest
          else acc
      | None => acc
      end
  end.

(** [Number.parseInt(v)] with no radix; [None] is NaN. The integer is the
    mathematical value of the digits: the code only compares it with 10 and
    7, and rounding to a double changes none of these comparisons. *)
Definition parseInt (v : jsopt string) : option Z :=
  let s := trimStart (ToString v) in
  let '(sign, s) :=
    match s with
    | String "-" rest => (-1, rest)
    | String "+" rest => (1, rest)
    | _ => (1, s)
    end in
  let '(radix, s) :=
    match s with
    | String "0" (String "x" rest) => (16, rest)
    | String "0" (String "X" rest) => (16, rest)
    | _ => (10, s)
    end in
  Z.mul sign <$> parse_digits radix None s.

(** [a > b], [a >= b] and [a === b] on numbers, false on NaN. *)
Definition num_gt (a : option Z) (b : Z) : bool :=
  match a with Some x => b <? x | None => false end.
Definition num_ge (a : option Z) (b : Z) : bool :=
  match a with Some x => b <=? x | None => false end.
Definition num_eq (a : option Z) (b : Z) : bool :=
  match a with Some x => x =? b | None => false end.

End JS.
Export JS.

(** ** Data model *)

(** Reply of [getPublicSystemInfo]. *)
Record PublicSystemInfo := {
  info_LocalAddress : jsopt string;
  info_ServerName : jsopt string;
  info_Version : jsopt string;
  info_ProductName : jsopt string;
  info_OperatingSystem : jsopt string;
  info_Id : jsopt string;
  info_StartupWizardCompleted : jsopt bool
}.

(** [ServerInfo]: the reply without its [LocalAddress], with the address it
    was reached at and the default flag. *)
Record ServerInfo := {
  ServerName : jsopt string;
  Version : jsopt string;
  ProductName : jsopt string;
  OperatingSystem : jsopt string;
  Id : jsopt string;
  StartupWizardCompleted : jsopt bool;
  PublicAddress : string;
  isDefault : bool
}.

(** [UserDto], with the fields the code reads and one profile field. *)
Record UserDto := {
  user_Id : jsopt string;
  user_ServerId : jsopt string;
  user_Name : jsopt string
}.

(** Reply of [authenticateUserByName]. *)
Record AuthenticationResult := {
  User : jsopt UserDto;
  AccessToken : jsopt string
}.

#[global] Instance PublicSystemInfo_eq_dec : EqDecision PublicSystemInfo.
Proof. solve_decision. Defined.
#[global] Instance ServerInfo_eq_dec : EqDecision ServerInfo.
Proof. solve_decision. Defined.
#[global] Instance UserDto_eq_dec : EqDecision UserDto.
Proof. solve_decision. Defined.

(** A server record of the registry, by reference. *)
Definition loc := nat.

(** [AuthState]. [servers] holds references into the heap of the [World]. *)
Record AuthState := {
  servers : list loc;
  currentServerIndex : Z;
  currentUserIndex : Z;
  users : list UserDto;
  rememberMe : bool;
  accessTokens : gmap string string
}.

(** The value [useStorage] starts from when nothing is stored. *)
Definition defaults : AuthState := {|
  servers := [];
  currentServerIndex := -1;
  currentUserIndex := -1;
  users := [];
  rememberMe := true;
  accessTokens := ∅
|}.

(** ** Collaborators and failures *)

(** What the snackbar is given: a translated key or a text taken as it is. *)
Inductive message :=
| Translated (key : string)
| Literal (text : string).

Inductive event :=
| Snackbar (msg : message) (severity : string)
| RouterPush (path : string)
| GetPublicSystemInfo (address : string)
| AuthenticateUserByName (address username password : string)
| SessionLogout (address : string) (token : option string).

(** The fields of an error that the code looks at. *)
Record AxiosError := {
  response_status : option Z;
  config_url : option string;
  code : option string;
  error_message : string
}.

(** What a [catch (error: unknown)] can receive. *)
Inductive thrown :=
| FromAxios (e : AxiosError)
| NotAxios (description : string).

Definition isAxiosError (object : thrown) : bool :=
  match object with FromAxios _ => true | NotAxios _ => false end.

(** How an awaited request ends. *)
Inductive reply (A : Type) :=
| Resolved (data : A)
| Failed (error : thrown).
Arguments Resolved {A} data.
Arguments Failed {A} error.

(** What the operations throw. *)
Inductive exn :=
| Error (text : string)
| ErrorOf (cause : thrown)
| Rethrown (error : thrown).

Definition ServerUnreachable (cause : thrown) : exn := ErrorOf cause.
Definition VersionUnsupported : exn := Error "Server version is too low".
Definition NoCurrentServer : exn := Error "There is no server in use".
Definition ServerUnknown : exn := Error "This server doesn't exist in the store".

(** ** The store, the heap of server records, and the log *)

Record World := {
  state : AuthState;
  heap : gmap loc ServerInfo;
  log : list event
}.

Definition empty_world : World :=
  {| state := defaults; heap := ∅; log := [] |}.

Inductive completion (A : Type) :=
| Normal (a : A)
| Throw (e : exn).
Arguments Normal {A} a.
Arguments Throw {A} e.

(** A synchronous stretch of code over a world [W]: it ends normally or
    throws, and leaves a world either way. *)
Definition ST (W A : Type) : Type := W -> completion A * W.

#[global] Instance ST_ret {W} : MRet (ST W) := fun A a w => (Normal a, w).
#[global] Instance ST_bind {W} : MBind (ST W) := fun A B k m w =>
  match m w with
  | (Normal a, w1) => k a w1
  | (Throw e, w1) => (Throw e, w1)
  end.

Definition throw {W A} (e : exn) : ST W A := fun w => (Throw e, w).

(** [try { body } finally { final }]: [final] runs in both cases, and what
    [body] threw is thrown again unless [final] throws itself. *)
Definition try_finally {W A} (body : ST W A) (final : ST W unit) : ST W A := fun w =>
  let '(r, w1) := body w in
  match final w1 with
  | (Normal _, w2) => (r, w2)
  | (Throw e, w2) => (Throw e, w2)
  end.

Abbreviation M := (ST World).

Definition gets {A} (f : AuthState -> A) : M A := fun w => (Normal (f (state w)), w).
Definition read_heap : M (gmap loc ServerInfo) := fun w => (Normal (heap w), w).
Definition modify (f : AuthState -> AuthState) : M unit := fun w =>
  (Normal tt, {| state := f (state w); heap := heap w; log := log w |}).
Definition modify_heap (f : gmap loc ServerInfo -> gmap loc ServerInfo) : M unit := fun w =>
  (Normal tt, {| state := state w; heap := f (heap w); log := log w |}).
Definition emit (e : event) : M unit := fun w =>
  (Normal tt, {| state := state w; heap := heap w; log := log w ++ [e] |}).

Definition set_servers (l : list loc) (s : AuthState) : AuthState :=
  {| servers := l; currentServerIndex := currentServerIndex s;
     currentUserIndex := currentUserIndex s; users := users s;
     rememberMe := rememberMe s; accessTokens := accessTokens s |}.
Definition set_currentServerIndex (i : Z) (s : AuthState) : AuthState :=
  {| servers := servers s; currentServerIndex := i;
     currentUserIndex := currentUserIndex s; users := users s;
     rememberMe := rememberMe s; accessTokens := accessTokens s |}.
Definition set_currentUserIndex (i : Z) (s : AuthState) : AuthState :=
  {| servers := servers s; currentServerIndex := currentServerIndex s;
     currentUserIndex := i; users := users s;
     rememberMe := rememberMe s; accessTokens := accessTokens s |}.
Definition set_users (l : list UserDto) (s : AuthState) : AuthState :=
  {| servers := servers s; currentServerIndex := currentServerIndex s;
     currentUserIndex := currentUserIndex s; users := l;
     rememberMe := rememberMe s; accessTokens := accessTokens s |}.
Definition set_rememberMe (b : bool) (s : AuthState) : AuthState :=
  {| servers := servers s; currentServerIndex := currentServerIndex s;
     currentUserIndex := currentUserIndex s; users := users s;
     rememberMe := b; accessTokens := accessTokens s |}.
Definition set_accessTokens (m : gmap string string) (s : AuthState) : AuthState :=
  {| servers := servers s; currentServerIndex := currentServerIndex s;
     currentUserIndex := currentUserIndex s; users := users s;
     rememberMe := rememberMe s; accessTokens := m |}.

(** ** RemotePluginAuth *)

(** Only there to make reading a reference total: a reference held by the
    registry or by a frame was read from the heap, and records are never
    freed. *)
Definition blank : ServerInfo := {|
  ServerName := JsUndefined; Version := JsUndefined; ProductName := JsUndefined;
  OperatingSystem := JsUndefined; Id := JsUndefined;
  StartupWizardCompleted := JsUndefined; PublicAddress := ""; isDefault := false
|}.

Definition deref (h : gmap loc ServerInfo) (l : loc) : ServerInfo :=
  default blank (h !! l).

(** *** Getters *)

Definition currentServer (w : World) : option loc :=
  at_index (servers (state w)) (currentServerIndex (state w)).

Definition currentUser (s : AuthState) : option UserDto :=
  at_index (users s) (currentUserIndex s).

Definition getUserAccessToken (s : AuthState) (user : option UserDto) : option string :=
  match user with
  | Some u => if truthy (user_Id u) then accessTokens s !! ToString (user_Id u) else None
  | None => None
  end.

Definition currentUserToken (s : AuthState) : option string :=
  getUserAccessToken s (currentUser s).

Definition getServerById (w : World) (serverId : jsopt string) : option loc :=
  find (fun l => bool_decide (Id (deref (heap w) l) = serverId)) (servers (state w)).

(** [server?.Id]. *)
Definition Id_of (server : option ServerInfo) : jsopt string :=
  match server with Some srv => Id srv | None => JsUndefined end.

Definition getUsersFromServer (s : AuthState) (server : option ServerInfo) : list UserDto :=
  filter (fun user => user_ServerId user = Id_of server) (users s).

(** [state.value.servers.find((s) => s.PublicAddress === serverUrl)]. *)
Definition find_by_address (w : World) (serverUrl : string) : option loc :=
  find (fun l => String.eqb (PublicAddress (deref (heap w) l)) serverUrl) (servers (state w)).

(** *** logoutUser

    The promise of [logout()] is neither awaited nor given a handler: how the
    request ends reaches nothing here, so it is no argument. Creating the
    one-off client and starting the request is taken not to throw. *)
Definition logoutUser (user : UserDto) (server : ServerInfo) (skipRequest : bool) : M unit :=
  try_finally
    (if negb skipRequest
     then token ← gets (fun s => getUserAccessToken s (Some user));
          emit (SessionLogout (PublicAddress server) token)
     else mret tt)
    (storeUser ← gets (fun s => find (fun u => bool_decide (user_Id u = user_Id user)) (users s));
     match storeUser with
     | Some su => modify (fun s => set_users (splice1 (indexOf su (users s)) (users s)) s)
     | None => mret tt
     end;;
     modify (fun s => set_accessTokens (delete (ToString (user_Id user)) (accessTokens s)) s)).

(** *** logoutCurrentUser *)
Definition logoutCurrentUser (skipRequest : bool) : M unit :=
  user ← gets currentUser;
  server ← (fun w => (Normal (currentServer w), w));
  h ← read_heap;
  match user, server with
  | Some u, Some l =>
      logoutUser u (deref h l) skipRequest;;
      modify (set_currentUserIndex (-1))
  | _, _ => mret tt
  end.

(** *** deleteServer

    An [async] function runs up to its first [await] when it is called.
    [logoutUser] has no [await] inside: each [await this.logoutUser(...)]
    runs the whole of it and then gives up control once. What [deleteServer]
    has left to do at that point is a [frame]: the server it holds and the
    users it has not yet reached. *)
Inductive frame :=
| DeleteServerLoop (server : loc) (rest : list UserDto).

Inductive promise :=
| Fulfilled
| Rejected (e : exn)
| Pending (k : frame).

(** One stretch of the loop: up to the next [await], or to the end. *)
Definition resume (k : frame) : M promise :=
  match k with
  | DeleteServerLoop server (user :: rest) =>
      h ← read_heap;
      logoutUser user (deref h server) false;;
      mret (Pending (DeleteServerLoop server rest))
  | DeleteServerLoop server [] =>
      modify (fun s => set_servers (splice1 (indexOf server (servers s)) (servers s)) s);;
      mret Fulfilled
  end.

Definition deleteServer (serverUrl : string) : M promise :=
  server ← (fun w => (Normal (find_by_address w serverUrl), w));
  match server with
  | None => mret (Rejected ServerUnknown)
  | Some l =>
      h ← read_heap;
      users ← gets (fun s => getUsersFromServer s (Some (deref h l)));
      resume (DeleteServerLoop l users)
  end.

(** The rest of a suspended [deleteServer], run to its end with nothing else
    in between. *)
Fixpoint finish (server : loc) (rest : list UserDto) : M unit :=
  match rest with
  | user :: rest' =>
      h ← read_heap;
      logoutUser user (deref h server) false;;
      finish server rest'
  | [] =>
      modify (fun s => set_servers (splice1 (indexOf server (servers s)) (servers s)) s)
  end.

(** [await p]. *)
Definition await (p : promise) : M unit :=
  match p with
  | Fulfilled => mret tt
  | Rejected e => throw e
  | Pending (DeleteServerLoop server rest) => finish server rest
  end.

(** What a call that is not awaited leaves behind; a rejection is lost. *)
Definition floating (p : promise) : option frame :=
  match p with Pending k => Some k | _ => None end.

(** *** connectServer *)

Definition as_ServerInfo (data : PublicSystemInfo) (serverUrl : string) (isDefault : bool)
  : ServerInfo := {|
  ServerName := info_ServerName data;
  Version := info_Version data;
  ProductName := info_ProductName data;
  OperatingSystem := info_OperatingSystem data;
  Id := info_Id data;
  StartupWizardCompleted := info_StartupWizardCompleted data;
  PublicAddress := serverUrl;
  isDefault := isDefault
|}.

(** A field of lodash's [merge(object, source)]: the source's value unless
    it is [undefined]. *)
Definition merge_field {A} (object source : jsopt A) : jsopt A :=
  match source with JsUndefined => object | _ => source end.

(** [merge(object, source)], the new content of [object]. *)
Definition merge (object source : ServerInfo) : ServerInfo := {|
  ServerName := merge_field (ServerName object) (ServerName source);
  Version := merge_field (Version object) (Version source);
  ProductName := merge_field (ProductName object) (ProductName source);
  OperatingSystem := merge_field (OperatingSystem object) (OperatingSystem source);
  Id := merge_field (Id object) (Id source);
  StartupWizardCompleted :=
    merge_field (StartupWizardCompleted object) (StartupWizardCompleted source);
  PublicAddress := PublicAddress source;
  isDefault := isDefault source
|}.

Definition semverMajor (version : jsopt string) : option Z :=
  parseInt (split_dot_at version 0).
Definition semverMinor (version : jsopt string) : option Z :=
  parseInt (split_dot_at version 1).

Definition isServerVersionSupported (version : jsopt string) : bool :=
  num_gt (semverMajor version) 10 ||
  (num_eq (semverMajor version) 10 && num_ge (semverMinor version) 7).

(** The call from the reply of [getPublicSystemInfo] on. The result is what
    the un-awaited [deleteServer] has left to do when [connectServer]
    returns. *)
Definition connectServer (serverUrl : string) (isDefault : bool)
    (response : reply PublicSystemInfo) : M (option frame) :=
  let serverUrl := trim (replace_trailing_slash serverUrl) in
  emit (GetPublicSystemInfo serverUrl);;
  serv ← match response with
         | Resolved data => mret (as_ServerInfo data serverUrl isDefault)
         | Failed error =>
             emit (Snackbar (Translated "login.serverNotFound") "error");;
             throw (ServerUnreachable error)
         end;
  if isServerVersionSupported (Version serv) then
    if negb (truthy_bool (StartupWizardCompleted serv)) then
      emit (RouterPush "/wizard");;
      mret None
    else
      oldServer ← (fun w => (Normal (getServerById w (Id serv)), w));
      left ← match oldServer with
             | Some old =>
                 h ← read_heap;
                 p ← deleteServer (PublicAddress (deref h old));
                 modify_heap (fun h => <[old := merge (deref h old) serv]> h);;
                 modify (fun s => set_servers (servers s ++ [old]) s);;
                 mret (floating p)
             | None =>
                 h ← read_heap;
                 let l := fresh (dom h) in
                 modify_heap (fun h => <[l := serv]> h);;
                 modify (fun s => set_servers (servers s ++ [l]) s);;
                 mret None
             end;
      found ← (fun w => (Normal (find_by_address w serverUrl), w));
      modify (fun s => set_currentServerIndex (indexOf_found found (servers s)) s);;
      mret left
  else
    emit (Snackbar (Translated "login.serverVersionTooLow") "error");;
    throw VersionUnsupported.

(** *** loginUser *)

(** [data.User?.Id]. *)
Definition User_Id (data : AuthenticationResult) : jsopt string :=
  match User data with JsVal u => user_Id u | _ => JsUndefined end.

(** The message of the [catch] branch. *)
Definition errorMessage (error : AxiosError) : message :=
  match response_status error with
  | None =>
      if negb (String.eqb (error_message error) "")
      then Literal (error_message error)
      else Translated "login.serverNotFound"
  | Some status =>
      if (status =? 500) || (status =? 401) then Translated "incorrectUsernameOrPassword"
      else if status =? 400 then Translated "badRequest"
      else Literal "unexpectedError"
  end.

(** The call with the reply of [authenticateUserByName]. The user pushed is
    the object of the reply, which is nowhere else in the array: [indexOf]
    finds it in the slot it was pushed to. *)
Definition loginUser (username password : string) (rememberMe : bool)
    (response : reply AuthenticationResult) : M unit :=
  server ← (fun w => (Normal (currentServer w), w));
  match server with
  | None => throw NoCurrentServer
  | Some l =>
      h ← read_heap;
      emit (AuthenticateUserByName (PublicAddress (deref h l)) username password);;
      match response with
      | Resolved data =>
          modify (set_rememberMe rememberMe);;
          match User data, AccessToken data with
          | JsVal user, JsVal token =>
              if truthy (user_Id user) && truthy (AccessToken data) then
                modify (fun s => set_accessTokens (<[ToString (user_Id user) := token]> (accessTokens s)) s);;
                modify (fun s => set_users (users s ++ [user]) s);;
                modify (fun s => set_currentUserIndex (Z.of_nat (length (users s)) - 1) s)
              else mret tt
          | _, _ => mret tt
          end
      | Failed error =>
          if isAxiosError error then
            match error with
            | FromAxios e => emit (Snackbar (errorMessage e) "error")
            | NotAxios _ => mret tt
            end
          else mret tt
      end
  end.

(** ** JellyfinInterceptors *)

(** The interceptors test [auth.currentUser] on the exported instance, where
    the field is the computed reference that the class itself reads through
    [.value]. Read as written the test sees an object, which is truthy;
    read through the reference it sees the current user. Both readings are
    kept. *)
Inductive ref_reading :=
| AsReference
| AsValue.

Definition truthy_currentUser (r : ref_reading) (s : AuthState) : bool :=
  match r with
  | AsReference => true
  | AsValue => bool_decide (is_Some (currentUser s))
  end.

(** [error.config?.url?.includes('/Sessions/Logout')], [undefined] being falsy. *)
Definition targets_logout (error : AxiosError) : bool :=
  match config_url error with
  | Some url => includes "/Sessions/Logout" url
  | None => false
  end.

Definition logoutInterceptor (r : ref_reading) (error : AxiosError) : M unit :=
  guard ← gets (truthy_currentUser r);
  (if bool_decide (response_status error = Some 401) && guard && negb (targets_logout error)
   then logoutCurrentUser true;;
        emit (Snackbar (Translated "kickedOut") "error")
   else mret tt);;
  throw (Rethrown (FromAxios error)).

Definition serverUnreachableInterceptor (error : AxiosError) : M unit :=
  (if bool_decide (code error = Some "ERR_NETWORK")
   then logoutCurrentUser true;;
        emit (Snackbar (Translated "serverNotFound") "error")
   else mret tt);;
  throw (Rethrown (FromAxios error)).

(** ** Operations of the session manager, one at a time

    A caller that does not race: each operation is run to the end, the
    un-awaited [deleteServer] of [connectServer] included, before the next
    one starts. *)
Inductive operation :=
| ConnectServer (serverUrl : string) (isDefault : bool) (response : reply PublicSystemInfo)
| LoginUser (username password : string) (rememberMe : bool)
    (response : reply AuthenticationResult)
| LogoutUser (user : UserDto) (server : ServerInfo) (skipRequest : bool)
| LogoutCurrentUser (skipRequest : bool)
| DeleteServer (serverUrl : string).

Definition finish_frame (left : option frame) : M unit :=
  match left with
  | Some (DeleteServerLoop server rest) => finish server rest
  | None => mret tt
  end.

Definition perform (op : operation) : M unit :=
  match op with
  | ConnectServer serverUrl isDefault response =>
      left ← connectServer serverUrl isDefault response;
      finish_frame left
  | LoginUser username password rememberMe response =>
      loginUser username password rememberMe response
  | LogoutUser user server skipRequest => logoutUser user server skipRequest
  | LogoutCurrentUser skipRequest => logoutCurrentUser skipRequest
  | DeleteServer serverUrl => p ← deleteServer serverUrl; await p
  end.

Definition after (op : operation) (w : World) : World := snd (perform op w).

Definition after_all (ops : list operation) (w : World) : World :=
  foldl (fun w op => after op w) w ops.

Inductive reachable : World -> Prop :=
| reachable_start : reachable empty_world
| reachable_step w op : reachable w -> reachable (after op w).

(** ** authStore, the older store

    The same operations as actions of a pinia store. It talks to the servers
    through one shared client, whose base address and authorization token it
    sets before a request. Server records are never updated in place here, so
    the registry keeps them by value. Every user in the registry is an object
    of its own, pushed from a reply. *)
Module Legacy.

(** [ServerInfo extends PublicSystemInfo]. *)
Record ServerInfo := {
  info : PublicSystemInfo;
  PublicAddress : string;
  isDefault : bool
}.

Record AuthState := {
  servers : list ServerInfo;
  currentServerIndex : Z;
  currentUserIndex : Z;
  users : list UserDto;
  rememberMe : bool;
  accessTokens : gmap string string
}.

Definition initial : AuthState := {|
  servers := [];
  currentServerIndex := -1;
  currentUserIndex := -1;
  users := [];
  rememberMe := true;
  accessTokens := ∅
|}.

Inductive event :=
| SnackbarPush (msg : message) (severity : string)
| Redirect (path : string)
| GetPublicSystemInfo (baseURL : jsopt string)
| AuthenticateUserByName (baseURL : jsopt string) (username password : string)
| ReportSessionEnded (baseURL : jsopt string) (token : string).

(** The store, the defaults of the shared client ([baseURL] and the token
    of its authorization header), and the log. *)
Record World := {
  state : AuthState;
  baseURL : jsopt string;
  headerToken : string;
  log : list event
}.

Definition start : World :=
  {| state := initial; baseURL := JsUndefined; headerToken := ""; log := [] |}.

Abbreviation M := (ST World).

Definition gets {A} (f : AuthState -> A) : M A := fun w => (Normal (f (state w)), w).
Definition modify (f : AuthState -> AuthState) : M unit := fun w =>
  (Normal tt, {| state := f (state w); baseURL := baseURL w;
                 headerToken := headerToken w; log := log w |}).
Definition set_baseURL (url : jsopt string) : M unit := fun w =>
  (Normal tt, {| state := state w; baseURL := url;
                 headerToken := headerToken w; log := log w |}).
Definition set_headerToken (token : string) : M unit := fun w =>
  (Normal tt, {| state := state w; baseURL := baseURL w;
                 headerToken := token; log := log w |}).
Definition emit (e : event) : M unit := fun w =>
  (Normal tt, {| state := state w; baseURL := baseURL w;
                 headerToken := headerToken w; log := log w ++ [e] |}).

(** An awaited request of the shared client, given how it ends. *)
Definition request {A} (e : World -> event) (response : reply A) : M A := fun w =>
  let w1 := {| state := state w; baseURL := baseURL w;
               headerToken := headerToken w; log := log w ++ [e w] |} in
  match response with
  | Resolved data => (Normal data, w1)
  | Failed error => (Throw (Rethrown error), w1)
  end.

(** [try { body } catch (err) { handler(err) }] for what a request throws. *)
Definition try_catch {A} (body : M A) (handler : thrown -> M A) : M A := fun w =>
  match body w with
  | (Throw (Rethrown error), w1) => handler error w1
  | other => other
  end.

Definition with_servers (l : list ServerInfo) (s : AuthState) : AuthState :=
  {| servers := l; currentServerIndex := currentServerIndex s;
     currentUserIndex := currentUserIndex s; users := users s;
     rememberMe := rememberMe s; accessTokens := accessTokens s |}.
Definition with_currentServerIndex (i : Z) (s : AuthState) : AuthState :=
  {| servers := servers s; currentServerIndex := i;
     currentUserIndex := currentUserIndex s; users := users s;
     rememberMe := rememberMe s; accessTokens := accessTokens s |}.
Definition with_currentUserIndex (i : Z) (s : AuthState) : AuthState :=
  {| servers := servers s; currentServerIndex := currentServerIndex s;
     currentUserIndex := i; users := users s;
     rememberMe := rememberMe s; accessTokens := accessTokens s |}.
Definition with_users (l : list UserDto) (s : AuthState) : AuthState :=
  {| servers := servers s; currentServerIndex := currentServerIndex s;
     currentUserIndex := currentUserIndex s; users := l;
     rememberMe := rememberMe s; accessTokens := accessTokens s |}.
Definition with_rememberMe (b : bool) (s : AuthState) : AuthState :=
  {| servers := servers s; currentServerIndex := currentServerIndex s;
     currentUserIndex := currentUserIndex s; users := users s;
     rememberMe := b; accessTokens := accessTokens s |}.
Definition with_accessTokens (m : gmap string string) (s : AuthState) : AuthState :=
  {| servers := servers s; currentServerIndex := currentServerIndex s;
     currentUserIndex := currentUserIndex s; users := users s;
     rememberMe := rememberMe s; accessTokens := m |}.

#[global] Instance ServerInfo_eq_dec : EqDecision ServerInfo.
Proof. solve_decision. Defined.

(** *** Getters *)

Definition currentServer (s : AuthState) : option ServerInfo :=
  at_index (servers s) (currentServerIndex s).

Definition currentUser (s : AuthState) : option UserDto :=
  at_index (users s) (currentUserIndex s).

Definition getUserAccessToken (s : AuthState) (user : option UserDto) : option string :=
  match user with
  | Some u => if truthy (user_Id u) then accessTokens s !! ToString (user_Id u) else None
  | None => None
  end.

(** [this.getUserAccessToken(this.currentUser) || '']. *)
Definition currentUserToken (s : AuthState) : string :=
  default "" (getUserAccessToken s (currentUser s)).

Definition getServerById (s : AuthState) (serverId : jsopt string) : option ServerInfo :=
  find (fun server => bool_decide (info_Id (info server) = serverId)) (servers s).

Definition getUsersFromServer (s : AuthState) (server : ServerInfo) : list UserDto :=
  filter (fun user => user_ServerId user = info_Id (info server)) (users s).

(** *** setAxiosBaseUrl, setAxiosHeader

    The device profile that the header also carries is left out. *)
Definition setAxiosBaseUrl (serverUrl : option string) : M unit :=
  server ← gets currentServer;
  match serverUrl, server with
  | None, Some srv =>
      if negb (String.eqb (PublicAddress srv) "")
      then set_baseURL (JsVal (PublicAddress srv))
      else set_baseURL JsUndefined
  | None, None => set_baseURL JsUndefined
  | Some url, _ => set_baseURL (JsVal url)
  end.

Definition setAxiosHeader (accessToken : option string) : M unit :=
  current ← gets currentUserToken;
  match accessToken with
  | Some token => if negb (String.eqb token "") then set_headerToken token
                  else set_headerToken current
  | None => set_headerToken current
  end.

(** *** connectServer *)
Definition connectServer (serverUrl : string) (isDefault : bool)
    (response : reply PublicSystemInfo) : M unit :=
  let serverUrl := replace_trailing_slash serverUrl in
  set_baseURL (JsVal serverUrl);;
  setAxiosHeader None;;
  data ← try_catch
            (d ← request (fun w => GetPublicSystemInfo (baseURL w)) response;
             mret {| info := d; PublicAddress := serverUrl; isDefault := isDefault |})
            (fun err =>
               emit (SnackbarPush (Translated "login.serverNotFound") "error");;
               throw (ErrorOf err));
  if isServerVersionSupported (info_Version (info data)) then
    if negb (truthy_bool (info_StartupWizardCompleted (info data))) then
      emit (Redirect "/wizard")
    else
      known ← gets (fun s => getServerById s (info_Id (info data)));
      match known with
      | None => modify (fun s => with_servers (servers s ++ [data]) s)
      | Some _ => mret tt
      end;;
      modify (fun s =>
        with_currentServerIndex
          (indexOf_found
             (find (fun serv => String.eqb (PublicAddress serv) serverUrl) (servers s))
             (servers s)) s)
  else
    emit (SnackbarPush (Translated "login.serverVersionTooLow") "error");;
    throw VersionUnsupported.

(** *** loginUser *)

(** [err as AxiosError]: the fields are read off whatever was thrown. *)
Definition errorMessage_of (err : thrown) : message :=
  match err with
  | FromAxios e => errorMessage e
  | NotAxios description =>
      if negb (String.eqb description "") then Literal description
      else Translated "login.serverNotFound"
  end.

Definition loginUser (username password : string) (rememberMe : bool)
    (response : reply AuthenticationResult) : M unit :=
  server ← gets currentServer;
  match server with
  | None => throw NoCurrentServer
  | Some _ =>
      try_catch
        (authenticateResponse ←
           request (fun w => AuthenticateUserByName (baseURL w) username password) response;
         modify (with_rememberMe rememberMe);;
         match User authenticateResponse, AccessToken authenticateResponse with
         | JsVal user, JsVal token =>
             if truthy (user_Id user) && truthy (AccessToken authenticateResponse) then
               modify (fun s =>
                 with_accessTokens (<[ToString (user_Id user) := token]> (accessTokens s)) s);;
               modify (fun s => with_users (users s ++ [user]) s);;
               modify (fun s => with_currentUserIndex (Z.of_nat (length (users s)) - 1) s);;
               setAxiosHeader None
             else mret tt
         | _, _ => mret tt
         end)
        (fun err =>
           emit (SnackbarPush (errorMessage_of err) "error");;
           throw (Rethrown err))
  end.

(** *** logoutUser

    [users.filter((user) => user === this.currentUser)] keeps the objects
    identical to the current user: the one at the current index. *)
Definition logoutUser (clearUser skipRequest : bool) (response : reply unit) : M unit :=
  try_finally
    (if negb skipRequest
     then request (fun w => ReportSessionEnded (baseURL w) (headerToken w)) response
     else mret tt)
    (if clearUser then
       current ← gets currentUser;
       match current with
       | Some u =>
           modify (fun s =>
             with_accessTokens (delete (ToString (user_Id u)) (accessTokens s)) s);;
           modify (with_users [u]);;
           modify (with_currentUserIndex (-1))
       | None => mret tt
       end
     else mret tt).

(** *** deleteServer

    [sessionEnded] tells how the end-of-session request made for a user
    ends. *)
Fixpoint logout_each (users : list UserDto) (sessionEnded : UserDto -> reply unit)
  : M unit :=
  match users with
  | user :: rest =>
      token ← gets (fun s => getUserAccessToken s (Some user));
      setAxiosHeader token;;
      logoutUser false false (sessionEnded user);;
      modify (fun s =>
        with_accessTokens (delete (ToString (user_Id user)) (accessTokens s)) s);;
      logout_each rest sessionEnded
  | [] => mret tt
  end.

Definition deleteServer (serverUrl : string) (sessionEnded : UserDto -> reply unit)
  : M unit :=
  server ← gets (fun s => find (fun server => String.eqb (PublicAddress server) serverUrl)
                            (servers s));
  match server with
  | None => throw ServerUnknown
  | Some server =>
      users ← gets (fun s => getUsersFromServer s server);
      set_baseURL (JsVal (PublicAddress server));;
      logout_each users sessionEnded;;
      setAxiosBaseUrl None;;
      setAxiosHeader None;;
      modify (fun s =>
        with_users (filter (fun user => user ∈ users) (Legacy.users s)) s);;
      modify (fun s =>
        with_servers (splice1_removed (indexOf server (servers s)) (servers s)) s)
  end.

End Legacy.

(** ** Vocabulary of the statements *)

(** The [finally] block of [logoutUser], as a function of the store. *)
Definition forget (user : UserDto) (s : AuthState) : AuthState :=
  set_accessTokens (delete (ToString (user_Id user)) (accessTokens s))
    (set_users
       (match find (fun u => bool_decide (user_Id u = user_Id user)) (users s) with
        | Some su => splice1 (indexOf su (users s)) (users s)
        | None => users s
        end) s).

(** Every key of the token map is the identifier of a user of the registry. *)
Definition tokens_have_users (s : AuthState) : Prop :=
  forall k, is_Some (accessTokens s !! k) ->
    exists u, u ∈ users s /\ user_Id u = JsVal k.

(** A selector is the sentinel or indexes an element. *)
Definition selector_valid {A} (l : list A) (i : Z) : Prop :=
  i = -1 \/ is_Some (at_index l i).

(** A computation keeps a property of the store, however it ends. *)
Definition preserves (I : AuthState -> Prop) {A} (m : M A) : Prop :=
  forall w r w', m w = (r, w') -> I (state w) -> I (state w').

(** ** Sample replies and worlds *)

Module Sample.

Definition system_info (id version : string) : PublicSystemInfo := {|
  info_LocalAddress := JsVal "http://192.168.1.10:8096";
  info_ServerName := JsVal "media";
  info_Version := JsVal version;
  info_ProductName := JsVal "Jellyfin Server";
  info_OperatingSystem := JsUndefined;
  info_Id := JsVal id;
  info_StartupWizardCompleted := JsVal true
|}.

Definition user (id serverId name : string) : UserDto :=
  {| user_Id := JsVal id; user_ServerId := JsVal serverId; user_Name := JsVal name |}.

Definition authenticated (u : UserDto) (token : string) : reply AuthenticationResult :=
  Resolved {| User := JsVal u; AccessToken := JsVal token |}.

Definition unauthorized : AxiosError := {|
  response_status := Some 401;
  config_url := Some "/Users/u1/Items";
  code := Some "ERR_BAD_REQUEST";
  error_message := "Request failed with status code 401"
|}.

Definition alice : UserDto := user "u1" "S1" "alice".
Definition alice_renamed : UserDto := user "u1" "S1" "alice b.".
Definition bob : UserDto := user "u2" "S1" "bob".
Definition carol_on_S2 : UserDto := user "u1" "S2" "carol".

(** One server, nobody signed in. *)
Definition connected : World :=
  after (ConnectServer "http://one.example/" false (Resolved (system_info "S1" "10.8.0")))
    empty_world.

(** One server, alice and bob signed in. *)
Definition two_users : World :=
  after_all [LoginUser "alice" "pw" true (authenticated alice "t1");
             LoginUser "bob" "pw" true (authenticated bob "t2")] connected.

(** One server, alice signed in twice, renamed in between. *)
Definition alice_twice : World :=
  after_all [LoginUser "alice" "pw" true (authenticated alice "t1");
             LoginUser "alice" "pw" true (authenticated alice_renamed "t3")] connected.

(** Two servers with a user of the same identifier on each. *)
Definition same_id_on_two_servers : World :=
  after_all [LoginUser "alice" "pw" true (authenticated alice "t1");
             ConnectServer "http://two.example" false (Resolved (system_info "S2" "10.8.0"));
             LoginUser "carol" "pw" true (authenticated carol_on_S2 "t4")] connected.

(** Two servers, the second one current with a user signed in, then the
    first one deleted: a current user and no current server. *)
Definition current_user_without_server : World :=
  after_all [ConnectServer "http://two.example" false (Resolved (system_info "S2" "10.8.0"));
             LoginUser "carol" "pw" true (authenticated carol_on_S2 "t4");
             DeleteServer "http://one.example"] connected.

(** Two servers, the second one current, alice signed in on the first. *)
Definition alice_on_first_of_two : World :=
  after_all [LoginUser "alice" "pw" true (authenticated alice "t1");
             ConnectServer "http://two.example" false (Resolved (system_info "S2" "10.8.0"))]
    connected.

(** The older store: one server, alice and bob signed in. *)
Definition legacy_two_users : Legacy.World :=
  let w1 := snd (Legacy.connectServer "http://one.example/" false
                   (Resolved (system_info "S1" "10.8.0")) Legacy.start) in
  let w2 := snd (Legacy.loginUser "alice" "pw" true (authenticated alice "t1") w1) in
  snd (Legacy.loginUser "bob" "pw" true (authenticated bob "t2") w2).

End Sample.

(** [logoutUser] called for each user in turn, on one server. *)
Definition logout_each (server : ServerInfo) (users : list UserDto) (w : World) : World :=
  foldl (fun w user => snd (logoutUser user server false w)) w users.

(** The store after the three updates of a successful [loginUser]: the
    token, the user, the selector. *)
Definition signed_in (user : UserDto) (token : string) (s : AuthState) : AuthState :=
  set_currentUserIndex (Z.of_nat (length (users s ++ [user])) - 1)
    (set_users (users s ++ [user])
       (set_accessTokens (<[ToString (user_Id user) := token]> (accessTokens s)) s)).

(** A property of the store that every update made by the operations keeps. *)
Class StoreInvariant (I : AuthState -> Prop) : Prop := {
  inv_forget u s : I s -> I (forget u s);
  inv_servers l s : I s -> I (set_servers l s);
  inv_rememberMe b s : I s -> I (set_rememberMe b s);
  inv_currentServerIndex i s : -1 <= i -> I s -> I (set_currentServerIndex i s);
  inv_currentUserIndex s : I s -> I (set_currentUserIndex (-1) s);
  inv_signed_in user token s : truthy (user_Id user) = true -> I s -> I (signed_in user token s)
}.

(** Neither selector is below the sentinel. *)
Definition selectors_bounded (s : AuthState) : Prop :=
  -1 <= currentServerIndex s /\ -1 <= currentUserIndex s.

(** Every user of the registry has an entry of the token map under its
    identifier. *)
Definition users_have_tokens (s : AuthState) : Prop :=
  forall u, u ∈ users s -> is_Some (accessTokens s !! ToString (user_Id u)).

(** Entries and records in lockstep: every key has its record and every
    record its entry. *)
Definition in_lockstep (s : AuthState) : Prop :=
  tokens_have_users s /\ users_have_tokens s.

(** From [s] to [s'] user records and entries were only taken away. *)
Definition only_removes (s s' : AuthState) : Prop :=
  users s' `sublist_of` users s /\ accessTokens s' ⊆ accessTokens s.

(** From [s] to [s'] one user record came, at the end, and its token was
    stored under its identifier. *)
Definition adds_user_with_token (s s' : AuthState) : Prop :=
  exists user token,
    truthy (user_Id user) = true /\
    users s' = users s ++ [user] /\
    accessTokens s' = <[ToString (user_Id user) := token]> (accessTokens s).

(** ** More vocabulary *)

(** Every reference of the registry points at a record of the heap. *)
Definition registry_allocated (w : World) : Prop :=
  forall l, l ∈ servers (state w) -> l ∈ dom (heap w).

(** A computation keeps a property of the world, however it ends. *)
Definition keeps_world (I : World -> Prop) {A} (m : M A) : Prop :=
  forall w r w', m w = (r, w') -> I w -> I w'.

(** ** RemotePluginAxios: the interceptors on the shared client *)

(** The calls [loading.start()] and [loading.finish()], in order. *)
Inductive loading_signal :=
| LoadingStart
| LoadingFinish.

(** The test both loading interceptors make on a URL: it is there, and
    none of [excludedProgressEndpoints] occurs in it. The list is a
    constant of the loading composable, taken as an argument. *)
Definition counts_for_loading (excluded : list string) (url : option string) : bool :=
  match url with
  | Some u => negb (String.eqb u "") && negb (existsb (fun i => includes i u) excluded)
  | None => false
  end.

(** [startLoadInterceptor(config)], on [config.url]; the config goes on
    as it is. *)
Definition startLoadInterceptor (excluded : list string) (url : option string)
    (signals : list loading_signal) : list loading_signal :=
  if counts_for_loading excluded url then signals ++ [LoadingStart] else signals.

(** [stopLoadInterceptor(response)], on [response.config.url]. *)
Definition stopLoadInterceptor (excluded : list string) (url : option string)
    (signals : list loading_signal) : list loading_signal :=
  if counts_for_loading excluded url then signals ++ [LoadingFinish] else signals.

(** What [interceptors.request.use] and [interceptors.response.use] are
    given by the class. [StopLoad] is given as the handler of responses, the
    other two as handlers of failures. *)
Inductive request_handler :=
| StartLoad.

Inductive response_handler :=
| StopLoad
| LogoutOn401
| LogoutOnUnreachable.

#[global] Instance response_handler_eq_dec : EqDecision response_handler.
Proof. solve_decision. Defined.

(** An interceptor manager of axios: the handlers in the order they were
    added, an ejected one leaving an empty slot. *)
Definition use {H} (h : H) (manager : list (option H)) : Z * list (option H) :=
  (Z.of_nat (length manager), manager ++ [Some h]).

Definition eject {H} (id : Z) (manager : list (option H)) : list (option H) :=
  if id <? 0 then manager else <[Z.to_nat id := None]> manager.

(** The handlers that are still installed. *)
Definition installed {H} (manager : list (option H)) : list H := omap id manager.

Record RemotePluginAxios := {
  request : list (option request_handler);
  response : list (option response_handler);
  _reactiveInterceptor : Z;
  _logoutInterceptor : Z;
  _serverUnreachableInterceptor : Z;
  _startLoadInterceptor : Z;
  _stopLoadInterceptor : Z
}.

Definition setLoadInterceptor (c : RemotePluginAxios) : RemotePluginAxios :=
  let '(start, requests) := use StartLoad (request c) in
  let '(stop, responses) := use StopLoad (response c) in
  {| request := requests; response := responses;
     _reactiveInterceptor := _reactiveInterceptor c;
     _logoutInterceptor := _logoutInterceptor c;
     _serverUnreachableInterceptor := _serverUnreachableInterceptor c;
     _startLoadInterceptor := start; _stopLoadInterceptor := stop |}.

Definition removeLoadInterceptor (c : RemotePluginAxios) : RemotePluginAxios :=
  {| request := eject (_startLoadInterceptor c) (request c);
     response := eject (_stopLoadInterceptor c) (response c);
     _reactiveInterceptor := _reactiveInterceptor c;
     _logoutInterceptor := _logoutInterceptor c;
     _serverUnreachableInterceptor := _serverUnreachableInterceptor c;
     _startLoadInterceptor := -1; _stopLoadInterceptor := -1 |}.

Definition removeReactiveItemsInterceptor (c : RemotePluginAxios) : RemotePluginAxios :=
  {| request := request c;
     response := eject (_reactiveInterceptor c) (response c);
     _reactiveInterceptor := -1;
     _logoutInterceptor := _logoutInterceptor c;
     _serverUnreachableInterceptor := _serverUnreachableInterceptor c;
     _startLoadInterceptor := _startLoadInterceptor c;
     _stopLoadInterceptor := _stopLoadInterceptor c |}.

Definition setLogoutInterceptor (c : RemotePluginAxios) : RemotePluginAxios :=
  let '(handle, responses) := use LogoutOn401 (response c) in
  {| request := request c; response := responses;
     _reactiveInterceptor := _reactiveInterceptor c;
     _logoutInterceptor := handle;
     _serverUnreachableInterceptor := _serverUnreachableInterceptor c;
     _startLoadInterceptor := _startLoadInterceptor c;
     _stopLoadInterceptor := _stopLoadInterceptor c |}.

Definition removeLogoutInterceptor (c : RemotePluginAxios) : RemotePluginAxios :=
  {| request := request c;
     response := eject (_logoutInterceptor c) (response c);
     _reactiveInterceptor := _reactiveInterceptor c;
     _logoutInterceptor := _logoutInterceptor c;
     _serverUnreachableInterceptor := _serverUnreachableInterceptor c;
     _startLoadInterceptor := _startLoadInterceptor c;
     _stopLoadInterceptor := _stopLoadInterceptor c |}.

Definition setServerUnreachableInterceptor (c : RemotePluginAxios) : RemotePluginAxios :=
  let '(handle, responses) := use LogoutOnUnreachable (response c) in
  {| request := request c; response := responses;
     _reactiveInterceptor := _reactiveInterceptor c;
     _logoutInterceptor := _logoutInterceptor c;
     _serverUnreachableInterceptor := handle;
     _startLoadInterceptor := _startLoadInterceptor c;
     _stopLoadInterceptor := _stopLoadInterceptor c |}.

Definition removeServerUnreachableInterceptor (c : RemotePluginAxios) : RemotePluginAxios :=
  {| request := request c;
     response := eject (_serverUnreachableInterceptor c) (response c);
     _reactiveInterceptor := _reactiveInterceptor c;
     _logoutInterceptor := _logoutInterceptor c;
     _serverUnreachableInterceptor := _serverUnreachableInterceptor c;
     _startLoadInterceptor := _startLoadInterceptor c;
     _stopLoadInterceptor := _stopLoadInterceptor c |}.

(** [axios.create()] with the five fields at -1, then the constructor of
    [new RemotePluginAxios()]. *)
Definition created : RemotePluginAxios :=
  {| request := []; response := [];
     _reactiveInterceptor := -1; _logoutInterceptor := -1;
     _serverUnreachableInterceptor := -1;
     _startLoadInterceptor := -1; _stopLoadInterceptor := -1 |}.

Definition RemotePluginAxiosInstance : RemotePluginAxios :=
  setServerUnreachableInterceptor (setLogoutInterceptor (setLoadInterceptor created)).

(** What the interceptors act on: the session store with its records and
    log, and the loading indicator. *)
Record Shared := {
  session : World;
  loading : list loading_signal
}.

(** How a request on the shared client stands: answered (what matters of
    the response is [response.config.url]), failed with an error, or ended
    by a handler in another way than throwing the error on. *)
Inductive outcome :=
| Answered (url : option string)
| Faulted (error : AxiosError)
| Otherwise (c : completion unit).

(** What a failure handler leaves of the failure. *)
Definition after_handler (c : completion unit) : outcome :=
  match c with
  | Throw (Rethrown (FromAxios error)) => Faulted error
  | other => Otherwise other
  end.

(** One [promise.then(fulfilled, rejected)] of the response chain. *)
Definition run_response_handler (excluded : list string) (r : ref_reading)
    (h : option response_handler) (now : outcome * Shared) : outcome * Shared :=
  let '(o, sh) := now in
  match h, o with
  | Some StopLoad, Answered url =>
      (o, {| session := session sh; loading := stopLoadInterceptor excluded url (loading sh) |})
  | Some LogoutOn401, Faulted error =>
      let '(c, w) := logoutInterceptor r error (session sh) in
      (after_handler c, {| session := w; loading := loading sh |})
  | Some LogoutOnUnreachable, Faulted error =>
      let '(c, w) := serverUnreachableInterceptor error (session sh) in
      (after_handler c, {| session := w; loading := loading sh |})
  | _, _ => now
  end.

Definition run_request_handler (excluded : list string) (url : option string)
    (h : option request_handler) (sh : Shared) : Shared :=
  match h with
  | Some StartLoad =>
      {| session := session sh; loading := startLoadInterceptor excluded url (loading sh) |}
  | None => sh
  end.

(** A request with [config.url] on the shared client, and how the server
    answers it ([None]: with a response). Request handlers run last added
    first, then the response handlers in the order they were added. *)
Definition send (excluded : list string) (r : ref_reading) (c : RemotePluginAxios)
    (url : option string) (failure : option AxiosError) (sh : Shared) : outcome * Shared :=
  let sh1 := foldr (run_request_handler excluded url) sh (request c) in
  let settled := match failure with None => Answered url | Some error => Faulted error end in
  foldl (fun now h => run_response_handler excluded r h now) (settled, sh1) (response c).

(** The public methods of the client that touch its interceptors
    ([resetDefaults] only assigns [instance.defaults]). *)
Inductive client_call :=
| SetLoad
| RemoveLoad
| RemoveReactiveItems
| SetLogout
| RemoveLogout
| SetServerUnreachable
| RemoveServerUnreachable.

Definition call (m : client_call) (c : RemotePluginAxios) : RemotePluginAxios :=
  match m with
  | SetLoad => setLoadInterceptor c
  | RemoveLoad => removeLoadInterceptor c
  | RemoveReactiveItems => removeReactiveItemsInterceptor c
  | SetLogout => setLogoutInterceptor c
  | RemoveLogout => removeLogoutInterceptor c
  | SetServerUnreachable => setServerUnreachableInterceptor c
  | RemoveServerUnreachable => removeServerUnreachableInterceptor c
  end.

(** The exported client after a sequence of calls of its methods. *)
Definition calls (ms : list client_call) : RemotePluginAxios :=
  foldl (fun c m => call m c) RemotePluginAxiosInstance ms.

(** A handle is -1, or the id of a slot that holds the handler it was given
    for, or nothing any more. *)
Definition handle_of {H} (manager : list (option H)) (id : Z) (h : H) : Prop :=
  id = -1 \/
  (0 <= id /\ (manager !! Z.to_nat id = Some (Some h) \/ manager !! Z.to_nat id = Some None)).

Definition handles_own (c : RemotePluginAxios) : Prop :=
  handle_of (request c) (_startLoadInterceptor c) StartLoad /\
  handle_of (response c) (_stopLoadInterceptor c) StopLoad /\
  handle_of (response c) (_logoutInterceptor c) LogoutOn401 /\
  handle_of (response c) (_serverUnreachableInterceptor c) LogoutOnUnreachable /\
  _reactiveInterceptor c = -1.

(** [l'] is [l], or [l] without one occurrence of [h]. *)
Definition without_one {H} (h : H) (l l' : list H) : Prop :=
  l' = l \/ exists before behind, l = before ++ h :: behind /\ l' = before ++ behind.

(** * Facts *)

(** ** Built-ins *)

Example parseInt_10 : parseInt (JsVal "10") = Some 10.
Proof. reflexivity. Qed.

Example parseInt_prefix : parseInt (JsVal " 7-rc1") = Some 7.
Proof. reflexivity. Qed.

Example parseInt_nan : parseInt JsUndefined = None.
Proof. reflexivity. Qed.

Example split_dot_version : split_dot "10.6.9" = ["10"; "6"; "9"].
Proof. reflexivity. Qed.

Example normalise_address : trim (replace_trailing_slash " http://media.local:8096/") = "http://media.local:8096".
Proof. reflexivity. Qed.

Example includes_logout : includes "/Sessions/Logout" "http://one.example/Sessions/Logout" = true.
Proof. reflexivity. Qed.

Example splice1_negative : splice1 (-1) [1; 2; 3] = [1; 2].
Proof. reflexivity. Qed.

Section array_facts.
Context {A : Type} `{EqDecision A}.
Implicit Types (l : list A) (p : A -> bool).

Lemma find_None p l : find p l = None <-> Forall (fun y => p y = false) l.
Proof.
  unfold find. rewrite fmap_None, list_find_None.
  apply Forall_iff. intros y. destruct (p y); split; congruence.
Qed.

Lemma find_Some_split p l x :
  find p l = Some x ->
  exists before after,
    l = before ++ x :: after /\ Forall (fun y => p y = false) before /\ p x = true /\
    list_find (fun y => p y = true) l = Some (length before, x).
Proof.
  unfold find. intros Hf. apply fmap_Some in Hf as [[i y] [Hf ->]]. simpl.
  pose proof Hf as Hf'.
  apply list_find_Some in Hf as (Hi & Hp & Hmin).
  apply list_elem_of_split_length in Hi as (before & after & -> & ->).
  exists before, after. repeat split; try done.
  apply Forall_lookup_2. intros j z Hj.
  assert (j < length before)%nat as Hlt by (apply lookup_lt_Some in Hj; done).
  specialize (Hmin j z). rewrite lookup_app_l in Hmin by done.
  specialize (Hmin Hj Hlt). destruct (p z); congruence.
Qed.

Lemma indexOf_first l before x after :
  l = before ++ x :: after -> x ∉ before -> indexOf x l = Z.of_nat (length before).
Proof.
  intros -> Hnot. unfold indexOf.
  assert (list_find (fun y => y = x) (before ++ x :: after) = Some (length before, x)) as ->.
  { apply list_find_Some. split; [|split; [done|]].
    - rewrite lookup_app_r by lia. by rewrite Nat.sub_diag.
    - intros j z Hj Hlt ->. rewrite lookup_app_l in Hj by done.
      apply Hnot. eapply list_elem_of_lookup_2. done. }
  done.
Qed.

Lemma indexOf_lower_bound x l : -1 <= indexOf x l.
Proof. unfold indexOf. destruct (list_find _ _) as [[i y]|]; lia. Qed.

Lemma indexOf_None x l : x ∉ l -> indexOf x l = -1.
Proof.
  intros Hn. unfold indexOf.
  destruct (list_find _ _) as [[i y]|] eqn:E; [|done].
  apply list_find_Some in E as (Hi & -> & _).
  exfalso. apply Hn. eapply list_elem_of_lookup_2. done.
Qed.

Lemma splice1_at l before x after :
  l = before ++ x :: after -> splice1 (Z.of_nat (length before)) l = before ++ after.
Proof.
  intros ->. unfold splice1.
  assert ((Z.of_nat (length before) <? 0) = false) as -> by (apply Z.ltb_ge; lia).
  assert (length before <= length (before ++ x :: after))%nat as Hle
    by (rewrite length_app; lia).
  rewrite Z.min_l by lia.
  rewrite Nat2Z.id. clear Hle.
  induction before as [|b before IH]; simpl; [done|]. by rewrite IH.
Qed.

Lemma splice1_found p l x :
  find p l = Some x ->
  exists before after,
    l = before ++ x :: after /\ Forall (fun y => p y = false) before /\ p x = true /\
    splice1 (indexOf x l) l = before ++ after.
Proof.
  intros Hf. destruct (find_Some_split p l x Hf) as (before & after & Hl & Hb & Hx & _).
  exists before, after. repeat split; try done.
  rewrite (indexOf_first l before x after Hl).
  - by apply (splice1_at l before x after).
  - intros Hin. rewrite Forall_forall in Hb. specialize (Hb x Hin). congruence.
Qed.
End array_facts.

(** ** The monad *)

Ltac run :=
  unfold mbind, ST_bind, mret, ST_ret, gets, read_heap, modify, modify_heap, emit, throw;
  simpl.

Lemma world_eta (w : World) : {| state := state w; heap := heap w; log := log w |} = w.
Proof. by destruct w. Qed.

Lemma state_eta (s : AuthState) :
  {| servers := servers s; currentServerIndex := currentServerIndex s;
     currentUserIndex := currentUserIndex s; users := users s;
     rememberMe := rememberMe s; accessTokens := accessTokens s |} = s.
Proof. by destruct s. Qed.

Lemma reachable_after_all ops w : reachable w -> reachable (after_all ops w).
Proof.
  revert w. induction ops as [|op ops IH]; intros w Hr; [done|].
  simpl. apply IH. by constructor.
Qed.

Lemma reachable_connected : reachable Sample.connected.
Proof. apply reachable_step, reachable_start. Qed.

(** ** logoutUser as a function of the world *)

Lemma logoutUser_eq user server skipRequest w :
  logoutUser user server skipRequest w =
  (Normal tt,
   {| state := forget user (state w);
      heap := heap w;
      log := if skipRequest then log w
             else log w ++ [SessionLogout (PublicAddress server)
                              (getUserAccessToken (state w) (Some user))] |}).
Proof.
  unfold logoutUser, try_finally, forget. destruct skipRequest; run.
  - destruct (find _ _); simpl; reflexivity.
  - destruct (find _ _); simpl; reflexivity.
Qed.

(** ** deleteServer on an address that is not registered *)

Lemma find_by_address_None w serverUrl :
  Forall (fun l => PublicAddress (deref (heap w) l) <> serverUrl) (servers (state w)) ->
  find_by_address w serverUrl = None.
Proof.
  intros H. unfold find_by_address. apply find_None.
  eapply Forall_impl; [exact H|]. intros l Hl. simpl in Hl.
  by apply String.eqb_neq.
Qed.

(** C7. When no record of the server registry has the given address,
    [deleteServer] rejects with [ServerUnknown] (so awaiting it throws), and
    the world it leaves is the one it found: server registry, user registry,
    token map, both selectors, [rememberMe], the records and the log. *)
Theorem deleteServer_unknown_address w serverUrl :
  Forall (fun l => PublicAddress (deref (heap w) l) <> serverUrl) (servers (state w)) ->
  deleteServer serverUrl w = (Normal (Rejected ServerUnknown), w) /\
  perform (DeleteServer serverUrl) w = (Throw ServerUnknown, w).
Proof.
  intros H. apply find_by_address_None in H.
  unfold perform, deleteServer. run. rewrite H. simpl. done.
Qed.

Lemma deleteServer_unknown_address_witness :
  Forall (fun l => PublicAddress (deref (heap Sample.two_users) l) <> "http://gone.example")
    (servers (state Sample.two_users)) /\
  perform (DeleteServer "http://gone.example") Sample.two_users =
    (Throw ServerUnknown, Sample.two_users).
Proof.
  assert (Forall (fun l => PublicAddress (deref (heap Sample.two_users) l) <> "http://gone.example")
            (servers (state Sample.two_users))) as H.
  { vm_compute. repeat constructor. discriminate. }
  split; [exact H|].
  exact (proj2 (deleteServer_unknown_address Sample.two_users "http://gone.example" H)).
Defined.

(** ** The version gate of connectServer *)

Lemma isServerVersionSupported_spec version :
  isServerVersionSupported version = true <->
  exists major, semverMajor version = Some major /\
    (10 < major \/ (major = 10 /\ exists minor, semverMinor version = Some minor /\ 7 <= minor)).
Proof.
  unfold isServerVersionSupported, num_gt, num_eq, num_ge.
  destruct (semverMajor version) as [major|]; simpl.
  2: { split; [discriminate|]. intros (? & ? & _). discriminate. }
  rewrite orb_true_iff, andb_true_iff, Z.ltb_lt, Z.eqb_eq.
  destruct (semverMinor version) as [minor|]; simpl.
  - rewrite Z.leb_le. split.
    + intros [?|[? ?]]; exists major; split; auto. right. split; auto. by exists minor.
    + intros (M & [= <-] & [?|[? (m & [= <-] & ?)]]); auto.
  - split.
    + intros [?|[? ?]]; [|discriminate]. exists major; auto.
    + intros (M & [= <-] & [?|[? (m & ? & ?)]]); [auto|discriminate].
Qed.

(** C4. On a reply to the public-system-info request, [connectServer] ends
    normally only if the version parses to a major above 10, or to major 10
    and a minor of at least 7. Otherwise it notifies and throws
    [VersionUnsupported], and the store and the records are as before; so it
    is for version "10.6.9", where the registry keeps its length. *)
Theorem connectServer_version_gate w serverUrl isDefault data :
  let address := trim (replace_trailing_slash serverUrl) in
  let supported :=
    exists major, semverMajor (info_Version data) = Some major /\
      (10 < major \/
       (major = 10 /\ exists minor, semverMinor (info_Version data) = Some minor /\ 7 <= minor)) in
  let rejected :=
    (Throw VersionUnsupported,
     {| state := state w; heap := heap w;
        log := log w ++ [GetPublicSystemInfo address;
                         Snackbar (Translated "login.serverVersionTooLow") "error"] |}) in
  (forall left w', connectServer serverUrl isDefault (Resolved data) w = (Normal left, w') ->
     supported) /\
  (~ supported -> connectServer serverUrl isDefault (Resolved data) w = rejected) /\
  (info_Version data = JsVal "10.6.9" ->
     connectServer serverUrl isDefault (Resolved data) w = rejected /\
     length (servers (state (snd (connectServer serverUrl isDefault (Resolved data) w)))) =
       length (servers (state w))).
Proof.
  intros address supported rejected.
  assert (isServerVersionSupported (info_Version data) = false ->
          connectServer serverUrl isDefault (Resolved data) w = rejected) as Hrej.
  { intros Hv. unfold connectServer. run. rewrite Hv. simpl. unfold rejected, address.
    by rewrite <- app_assoc. }
  split; [|split].
  - intros left w' Hrun. apply isServerVersionSupported_spec.
    destruct (isServerVersionSupported (info_Version data)) eqn:Hv; [done|].
    rewrite (Hrej eq_refl) in Hrun. discriminate.
  - intros Hn. apply Hrej.
    destruct (isServerVersionSupported (info_Version data)) eqn:Hv; [|done].
    exfalso. apply Hn. by apply isServerVersionSupported_spec.
  - intros Hv. assert (isServerVersionSupported (info_Version data) = false) as Hf
      by (rewrite Hv; reflexivity).
    rewrite (Hrej Hf). done.
Qed.

Lemma connectServer_version_gate_witness :
  info_Version (Sample.system_info "S1" "10.6.9") = JsVal "10.6.9" /\
  fst (connectServer "http://one.example/" false
         (Resolved (Sample.system_info "S1" "10.6.9")) Sample.two_users) =
    Throw VersionUnsupported /\
  length (servers (state (snd (connectServer "http://one.example/" false
         (Resolved (Sample.system_info "S1" "10.6.9")) Sample.two_users)))) = 1%nat.
Proof.
  pose proof (connectServer_version_gate Sample.two_users "http://one.example/" false
                (Sample.system_info "S1" "10.6.9")) as (_ & _ & H).
  specialize (H eq_refl). destruct H as [H1 H2].
  split; [reflexivity|]. split.
  - rewrite H1. reflexivity.
  - rewrite H2. reflexivity.
Defined.

(** ** loginUser *)

Lemma loginUser_no_current_server w username password remember response :
  currentServer w = None ->
  loginUser username password remember response w = (Throw NoCurrentServer, w).
Proof. intros H. unfold loginUser. run. by rewrite H. Qed.

(** C10. With a current server, when the authenticate request resolves with
    a reply that lacks a user identifier or an access token (missing, null
    or empty), [loginUser] still stores its [rememberMe] argument and changes
    nothing else of the store: user registry, token map and both selectors
    are as before. *)
Theorem loginUser_reply_without_identity w l username password remember data :
  currentServer w = Some l ->
  truthy (User_Id data) && truthy (AccessToken data) = false ->
  exists w',
    loginUser username password remember (Resolved data) w = (Normal tt, w') /\
    rememberMe (state w') = remember /\
    users (state w') = users (state w) /\
    accessTokens (state w') = accessTokens (state w) /\
    currentServerIndex (state w') = currentServerIndex (state w) /\
    currentUserIndex (state w') = currentUserIndex (state w) /\
    servers (state w') = servers (state w) /\
    heap w' = heap w.
Proof.
  intros Hs Hlack. unfold loginUser. run. rewrite Hs. simpl.
  unfold User_Id in Hlack.
  destruct (User data) as [| |user]; destruct (AccessToken data) as [| |token] eqn:Ht;
    simpl in *; try (eexists; repeat split; reflexivity).
  rewrite Hlack. eexists; repeat split; reflexivity.
Qed.

Lemma loginUser_reply_without_identity_witness :
  currentServer Sample.two_users = Some 0%nat /\
  exists w',
    loginUser "carol" "pw" false
      (Resolved {| User := JsVal Sample.alice; AccessToken := JsNull |}) Sample.two_users =
      (Normal tt, w') /\
    rememberMe (state w') = false /\
    users (state w') = users (state Sample.two_users).
Proof.
  split; [reflexivity|].
  destruct (loginUser_reply_without_identity Sample.two_users 0%nat "carol" "pw" false
              {| User := JsVal Sample.alice; AccessToken := JsNull |} eq_refl eq_refl)
    as (w' & H1 & H2 & H3 & _).
  exists w'. auto.
Defined.

(** C3, as the code has it. With a current server, when the authenticate
    request fails, [loginUser] ends normally whatever was thrown, and the
    store (user registry, token map, selectors) is as before. When what was
    thrown is an Axios error, exactly one notification is sent, with the
    message chosen by the shape of the error: without a response the
    message of the error, or "login.serverNotFound" when that is empty; with
    status 500 or 401 "incorrectUsernameOrPassword"; with status 400
    "badRequest"; with any other status the text "unexpectedError". When it
    is not an Axios error, nothing is sent. *)
Theorem loginUser_failure_is_swallowed w l username password remember error :
  currentServer w = Some l ->
  let asked := AuthenticateUserByName (PublicAddress (deref (heap w) l)) username password in
  let notified :=
    match error with
    | FromAxios e => [Snackbar (errorMessage e) "error"]
    | NotAxios _ => []
    end in
  loginUser username password remember (Failed error) w =
    (Normal tt, {| state := state w; heap := heap w; log := log w ++ asked :: notified |}) /\
  (forall e, response_status e = None -> error_message e <> "" ->
     errorMessage e = Literal (error_message e)) /\
  (forall e, response_status e = None -> error_message e = "" ->
     errorMessage e = Translated "login.serverNotFound") /\
  (forall e status, response_status e = Some status -> status = 500 \/ status = 401 ->
     errorMessage e = Translated "incorrectUsernameOrPassword") /\
  (forall e, response_status e = Some 400 -> errorMessage e = Translated "badRequest") /\
  (forall e status, response_status e = Some status ->
     status <> 500 -> status <> 401 -> status <> 400 ->
     errorMessage e = Literal "unexpectedError").
Proof.
  intros Hs asked notified. split.
  - unfold loginUser. run. rewrite Hs. simpl.
    destruct error as [e|d]; simpl; [|reflexivity].
    by rewrite <- app_assoc.
  - unfold errorMessage. repeat split.
    + intros e -> Hm. apply String.eqb_neq in Hm. by rewrite Hm.
    + intros e -> ->. reflexivity.
    + intros e status -> [-> | ->]; reflexivity.
    + intros e ->. reflexivity.
    + intros e status -> H500 H401 H400.
      apply Z.eqb_neq in H500, H401, H400. by rewrite H500, H401, H400.
Qed.

Lemma loginUser_failure_is_swallowed_witness :
  currentServer Sample.two_users = Some 0%nat /\
  loginUser "alice" "wrong" true (Failed (FromAxios Sample.unauthorized)) Sample.two_users =
    (Normal tt,
     {| state := state Sample.two_users; heap := heap Sample.two_users;
        log := log Sample.two_users ++
               [AuthenticateUserByName "http://one.example" "alice" "wrong";
                Snackbar (Translated "incorrectUsernameOrPassword") "error"] |}).
Proof.
  split; [reflexivity|].
  exact (proj1 (loginUser_failure_is_swallowed Sample.two_users 0%nat "alice" "wrong" true
                  (FromAxios Sample.unauthorized) eq_refl)).
Defined.

(** C3, as stated, fails when the failure is not an Axios error: the call
    ends normally and the store is kept, but no notification is sent. *)
Lemma loginUser_silent_on_other_errors :
  let w' := snd (loginUser "alice" "pw" true (Failed (NotAxios "socket hang up"))
                   Sample.two_users) in
  log w' = log Sample.two_users ++ [AuthenticateUserByName "http://one.example" "alice" "pw"] /\
  ~ exists m severity, Snackbar m severity ∈ log w'.
Proof.
  split; [reflexivity|].
  intros (m & severity & Hin). vm_compute in Hin.
  repeat (apply elem_of_cons in Hin as [Hin|Hin]; [discriminate|]).
  by apply elem_of_nil in Hin.
Qed.

(** ** logoutUser *)

Lemma bool_decide_Id_false (u user : UserDto) :
  bool_decide (user_Id u = user_Id user) = false <-> user_Id u <> user_Id user.
Proof. by rewrite bool_decide_eq_false. Qed.

(** The users of [forget]: the first record with the identifier is taken
    out, if there is one. *)
Lemma forget_users user s :
  (Forall (fun u => user_Id u <> user_Id user) (users s) /\
   users (forget user s) = users s) \/
  (exists before su after,
     users s = before ++ su :: after /\
     Forall (fun u => user_Id u <> user_Id user) before /\
     user_Id su = user_Id user /\
     users (forget user s) = before ++ after).
Proof.
  unfold forget. simpl.
  destruct (find _ (users s)) as [su|] eqn:Hf.
  - right. apply splice1_found in Hf as (before & after & Hl & Hb & Hsu & Hsp).
    exists before, su, after. repeat split; try done.
    + eapply Forall_impl; [exact Hb|]. intros u. apply bool_decide_Id_false.
    + by apply bool_decide_eq_true in Hsu.
  - left. split; [|done]. apply find_None in Hf.
    eapply Forall_impl; [exact Hf|]. intros u. apply bool_decide_Id_false.
Qed.

(** C2, as the code has it. Whether the end-of-session request is skipped
    or fired (it is never awaited, so how it ends is no input),
    [logoutUser] ends normally; the first record of the user registry whose
    identifier is the user's is taken out, if there is one, and no other;
    the token kept under the user's identifier is deleted, and no other;
    nothing else of the store changes. *)
Theorem logoutUser_removes_first_with_Id w user server skipRequest :
  exists w',
    logoutUser user server skipRequest w = (Normal tt, w') /\
    ((Forall (fun u => user_Id u <> user_Id user) (users (state w)) /\
      users (state w') = users (state w)) \/
     (exists before su after,
        users (state w) = before ++ su :: after /\
        Forall (fun u => user_Id u <> user_Id user) before /\
        user_Id su = user_Id user /\
        users (state w') = before ++ after)) /\
    accessTokens (state w') !! ToString (user_Id user) = None /\
    (forall k, k <> ToString (user_Id user) ->
       accessTokens (state w') !! k = accessTokens (state w) !! k) /\
    servers (state w') = servers (state w) /\
    currentServerIndex (state w') = currentServerIndex (state w) /\
    currentUserIndex (state w') = currentUserIndex (state w) /\
    rememberMe (state w') = rememberMe (state w) /\
    heap w' = heap w /\
    log w' = (if skipRequest then log w
              else log w ++ [SessionLogout (PublicAddress server)
                               (getUserAccessToken (state w) (Some user))]).
Proof.
  eexists. split; [apply logoutUser_eq|]. simpl.
  split; [apply forget_users|].
  split; [apply lookup_delete_eq|].
  split; [|done].
  intros k Hk. by apply lookup_delete_ne.
Qed.

(** C2, as stated, fails when two records carry the identifier: signing
    out the second one takes the first one out, and the record of the user
    that was signed out stays in the registry. *)
Lemma logoutUser_removes_another_record :
  let w := Sample.alice_twice in
  let w' := snd (logoutUser Sample.alice_renamed (deref (heap w) 0%nat) true w) in
  reachable w /\
  users (state w) = [Sample.alice; Sample.alice_renamed] /\
  users (state w') = [Sample.alice_renamed] /\
  Sample.alice_renamed ∈ users (state w') /\
  Sample.alice ∉ users (state w').
Proof.
  split; [apply reachable_after_all, reachable_connected|].
  repeat split; try reflexivity.
  - vm_compute. apply list_elem_of_singleton. reflexivity.
  - vm_compute. intros H. apply list_elem_of_singleton in H. discriminate.
Qed.

(** ** logoutCurrentUser *)

Lemma logoutCurrentUser_eq skipRequest w :
  logoutCurrentUser skipRequest w =
  match currentUser (state w), currentServer w with
  | Some u, Some l =>
      (Normal tt,
       {| state := set_currentUserIndex (-1) (forget u (state w));
          heap := heap w;
          log := if skipRequest then log w
                 else log w ++ [SessionLogout (PublicAddress (deref (heap w) l))
                                  (getUserAccessToken (state w) (Some u))] |})
  | _, _ => (Normal tt, w)
  end.
Proof.
  unfold logoutCurrentUser. run.
  destruct (currentUser (state w)) as [u|]; [|reflexivity].
  destruct (currentServer w) as [l|]; [|reflexivity].
  rewrite logoutUser_eq. reflexivity.
Qed.

(** ** The 401 interceptor *)

(** C6, as the code has it. The interceptor always throws the error it was
    given. When the request went to the sign-out endpoint, nothing else
    happens. When the status is 401, there are a current user and a current
    server, and the request did not go to the sign-out endpoint, the current
    user is signed out locally (no end-of-session request is fired, the
    current-user selector is reset) and "kickedOut" is notified. *)
Theorem logoutInterceptor_signs_out_locally r error w :
  (exists w', logoutInterceptor r error w = (Throw (Rethrown (FromAxios error)), w')) /\
  (targets_logout error = true ->
     logoutInterceptor r error w = (Throw (Rethrown (FromAxios error)), w)) /\
  (forall u l,
     response_status error = Some 401 ->
     currentUser (state w) = Some u ->
     currentServer w = Some l ->
     targets_logout error = false ->
     logoutInterceptor r error w =
       (Throw (Rethrown (FromAxios error)),
        {| state := set_currentUserIndex (-1) (forget u (state w));
           heap := heap w;
           log := log w ++ [Snackbar (Translated "kickedOut") "error"] |})).
Proof.
  split; [|split].
  - unfold logoutInterceptor. run.
    match goal with |- context [if ?b then _ else _] => destruct b end.
    + rewrite logoutCurrentUser_eq.
      destruct (currentUser (state w)), (currentServer w); simpl; eexists; reflexivity.
    + simpl. eexists; reflexivity.
  - intros Ht. unfold logoutInterceptor. run. rewrite Ht.
    rewrite andb_false_r. reflexivity.
  - intros u l Hst Hu Hl Ht. unfold logoutInterceptor. run.
    rewrite Ht, Hst. rewrite bool_decide_eq_true_2 by done.
    assert (truthy_currentUser r (state w) = true) as ->.
    { destruct r; simpl; [done|]. apply bool_decide_eq_true_2. by rewrite Hu. }
    simpl. rewrite logoutCurrentUser_eq, Hu, Hl. reflexivity.
Qed.

Lemma logoutInterceptor_signs_out_locally_witness :
  response_status Sample.unauthorized = Some 401 /\
  currentUser (state Sample.two_users) = Some Sample.bob /\
  currentServer Sample.two_users = Some 0%nat /\
  targets_logout Sample.unauthorized = false /\
  logoutInterceptor AsValue Sample.unauthorized Sample.two_users =
    (Throw (Rethrown (FromAxios Sample.unauthorized)),
     {| state := set_currentUserIndex (-1) (forget Sample.bob (state Sample.two_users));
        heap := heap Sample.two_users;
        log := log Sample.two_users ++ [Snackbar (Translated "kickedOut") "error"] |}).
Proof.
  do 4 (split; [reflexivity|]).
  exact (proj2 (proj2 (logoutInterceptor_signs_out_locally AsValue Sample.unauthorized
                         Sample.two_users)) Sample.bob 0%nat eq_refl eq_refl eq_refl eq_refl).
Defined.

(** C6, as stated, fails when there is a current user and no current
    server: on a 401 from another endpoint the notification is sent, but
    nobody is signed out. It is so for both readings of the test on
    [auth.currentUser]. *)
Lemma logoutInterceptor_without_current_server :
  let w := Sample.current_user_without_server in
  let w' := snd (logoutInterceptor AsValue Sample.unauthorized w) in
  reachable w /\
  response_status Sample.unauthorized = Some 401 /\
  targets_logout Sample.unauthorized = false /\
  currentUser (state w) = Some Sample.carol_on_S2 /\
  currentServer w = None /\
  state w' = state w /\
  currentUser (state w') = Some Sample.carol_on_S2 /\
  accessTokens (state w') !! "u1" = Some "t4" /\
  log w' = log w ++ [Snackbar (Translated "kickedOut") "error"] /\
  snd (logoutInterceptor AsReference Sample.unauthorized w) = w'.
Proof.
  split; [apply reachable_after_all, reachable_connected|].
  repeat split; reflexivity.
Qed.

(** ** deleteServer *)

Lemma logout_each_cons server user rest w :
  logout_each server (user :: rest) w =
  logout_each server rest (snd (logoutUser user server false w)).
Proof. reflexivity. Qed.

Lemma logout_each_heap server us w : heap (logout_each server us w) = heap w.
Proof.
  revert w. induction us as [|u us IH]; intros w; [done|].
  rewrite logout_each_cons, IH, logoutUser_eq. done.
Qed.

Lemma logout_each_state server us w :
  state (logout_each server us w) = foldl (fun s u => forget u s) (state w) us.
Proof.
  revert w. induction us as [|u us IH]; intros w; [done|].
  rewrite logout_each_cons, IH, logoutUser_eq. done.
Qed.

Lemma logout_each_log server us w :
  exists tokens,
    length tokens = length us /\
    log (logout_each server us w) = log w ++ (SessionLogout (PublicAddress server) <$> tokens).
Proof.
  revert w. induction us as [|u us IH]; intros w.
  - exists []. simpl. by rewrite app_nil_r.
  - rewrite logout_each_cons.
    destruct (IH (snd (logoutUser u server false w))) as (tokens & Hlen & Hlog).
    exists (getUserAccessToken (state w) (Some u) :: tokens). split; [simpl; lia|].
    rewrite Hlog, logoutUser_eq. simpl. by rewrite <- app_assoc.
Qed.

Lemma forget_each_frame us s :
  let s' := foldl (fun s u => forget u s) s us in
  servers s' = servers s /\ currentServerIndex s' = currentServerIndex s /\
  currentUserIndex s' = currentUserIndex s /\ rememberMe s' = rememberMe s.
Proof.
  revert s. induction us as [|u us IH]; intros s; [done|].
  simpl. destruct (IH (forget u s)) as (-> & -> & -> & ->). done.
Qed.

Lemma forget_each_token_stays_out us s k :
  accessTokens s !! k = None ->
  accessTokens (foldl (fun s u => forget u s) s us) !! k = None.
Proof.
  revert s. induction us as [|u us IH]; intros s Hk; [done|].
  simpl. apply IH. simpl. rewrite lookup_delete. by case_decide.
Qed.

Lemma forget_each_tokens us s u :
  u ∈ us ->
  accessTokens (foldl (fun s u => forget u s) s us) !! ToString (user_Id u) = None.
Proof.
  revert s. induction us as [|v us IH]; intros s Hin.
  - by apply elem_of_nil in Hin.
  - simpl. destruct (decide (u = v)) as [->|Hne].
    + apply forget_each_token_stays_out. simpl. apply lookup_delete_eq.
    + apply IH. apply elem_of_cons in Hin as [?|?]; done.
Qed.

Lemma forget_each_other_tokens us s k :
  (forall u, u ∈ us -> ToString (user_Id u) <> k) ->
  accessTokens (foldl (fun s u => forget u s) s us) !! k = accessTokens s !! k.
Proof.
  revert s. induction us as [|v us IH]; intros s Hk; [done|].
  simpl. rewrite IH.
  - simpl. apply lookup_delete_ne. apply Hk. by left.
  - intros u Hu. apply Hk. by right.
Qed.

(** Where a list splits at its first element with a property. *)
Lemma first_split_unique {A} (Q : A -> Prop) (a a' b b' : list A) x x' :
  a ++ x :: b = a' ++ x' :: b' ->
  Forall (fun y => ~ Q y) a -> Q x -> Forall (fun y => ~ Q y) a' -> Q x' ->
  a = a' /\ x = x' /\ b = b'.
Proof.
  revert a'. induction a as [|y a IH]; intros [|y' a'] Heq Ha Hx Ha' Hx'; simpl in Heq.
  - by injection Heq as -> ->.
  - injection Heq as -> _. apply Forall_cons in Ha' as [Hn _]. done.
  - injection Heq as -> _. apply Forall_cons in Ha as [Hn _]. done.
  - injection Heq as -> Heq.
    apply Forall_cons in Ha as [_ Ha]. apply Forall_cons in Ha' as [_ Ha'].
    destruct (IH a' Heq Ha Hx Ha' Hx') as (-> & -> & ->). done.
Qed.

(** Signing out, one after the other, the users that have a property takes
    exactly them out, provided no user without the property shares an
    identifier with one that has it. *)
Lemma forget_each_users (P : UserDto -> Prop) `{!forall u, Decision (P u)} pre l s :
  users s = pre ++ l ->
  (forall u v, u ∈ l -> P u -> v ∈ pre ++ l -> user_Id v = user_Id u -> P v) ->
  Forall (fun v => ~ P v) pre ->
  users (foldl (fun s u => forget u s) s (filter P l)) = pre ++ filter (fun u => ~ P u) l.
Proof.
  revert pre s. induction l as [|x l IH]; intros pre s Hs Hclosed Hpre.
  - simpl. done.
  - destruct (decide (P x)) as [Hx|Hx].
    + rewrite filter_cons_True by done.
      rewrite (filter_cons_False (fun u => ~ P u)) by tauto.
      simpl. apply IH.
      * destruct (forget_users x s) as [[Hnone _]|(before & su & after & Hsplit & Hb & Hsu & ->)].
        { exfalso. rewrite Hs in Hnone. apply Forall_app in Hnone as [_ Hnone].
          apply Forall_cons in Hnone as [Hnone _]. done. }
        rewrite Hs in Hsplit.
        assert (Forall (fun v => ~ user_Id v = user_Id x) pre) as Hpre'.
        { apply Forall_forall. intros v Hv Hid.
          rewrite Forall_forall in Hpre. apply (Hpre v Hv).
          apply (Hclosed x v); [by left|done| |done].
          apply elem_of_app. by left. }
        destruct (first_split_unique (fun v => user_Id v = user_Id x)
                    pre before l after x su Hsplit Hpre' eq_refl Hb Hsu) as (-> & _ & ->).
        done.
      * intros u v Hu HPu Hv Hid. apply (Hclosed u v); [by right|done| |done].
        apply elem_of_app in Hv as [Hv|Hv]; apply elem_of_app; [by left|right; by right].
      * done.
    + rewrite filter_cons_False by done.
      rewrite (filter_cons_True (fun u => ~ P u)) by done.
      rewrite (IH (pre ++ [x]) s).
      * by rewrite <- app_assoc.
      * by rewrite <- app_assoc.
      * intros u v Hu HPu Hv Hid. apply (Hclosed u v); [by right|done| |done].
        by rewrite <- app_assoc in Hv.
      * apply Forall_app. split; [done|]. by apply Forall_singleton.
Qed.

Lemma finish_eq l rest w :
  finish l rest w =
  let w1 := logout_each (deref (heap w) l) rest w in
  (Normal tt,
   {| state := set_servers (splice1 (indexOf l (servers (state w1))) (servers (state w1)))
                 (state w1);
      heap := heap w1; log := log w1 |}).
Proof.
  revert w. induction rest as [|u rest IH]; intros w.
  - reflexivity.
  - simpl finish. run. rewrite logoutUser_eq. rewrite IH. reflexivity.
Qed.

Lemma await_resume k w :
  (p ← resume k; await p) w = (let 'DeleteServerLoop l rest := k in finish l rest) w.
Proof.
  destruct k as [l [|u rest]].
  - reflexivity.
  - simpl. run. rewrite logoutUser_eq. reflexivity.
Qed.

Lemma perform_deleteServer_found w serverUrl l :
  find_by_address w serverUrl = Some l ->
  perform (DeleteServer serverUrl) w =
  finish l (getUsersFromServer (state w) (Some (deref (heap w) l))) w.
Proof.
  intros Hf. unfold perform, deleteServer.
  pose proof (await_resume (DeleteServerLoop l
                (getUsersFromServer (state w) (Some (deref (heap w) l)))) w) as H.
  revert H. run. rewrite Hf. simpl. done.
Qed.

(** C1, as the code has it. Let the first record of the server registry
    with the given address be [l], and suppose that no user of another
    server carries the identifier of a user of that server. Then
    [deleteServer], awaited, ends normally after calling [logoutUser] for
    each user of that server, one after the other in registry order, each
    call firing one end-of-session request at the server's address; it takes
    the first occurrence of [l] out of the server registry; no user of that
    server is left in the user registry, the other users are all kept; and
    the token map has no entry under the identifier of any of those users.
    Both selectors and the records are left as they were. *)
Theorem deleteServer_signs_out_and_removes w serverUrl l :
  find_by_address w serverUrl = Some l ->
  let server := deref (heap w) l in
  let owned := getUsersFromServer (state w) (Some server) in
  (forall u v, u ∈ users (state w) -> v ∈ users (state w) ->
     user_ServerId u = Id server -> user_Id v = user_Id u -> user_ServerId v = Id server) ->
  exists w',
    perform (DeleteServer serverUrl) w = (Normal tt, w') /\
    state w' =
      set_servers (splice1 (indexOf l (servers (state w))) (servers (state w)))
        (state (logout_each server owned w)) /\
    (exists tokens, length tokens = length owned /\
       log w' = log w ++ (SessionLogout (PublicAddress server) <$> tokens)) /\
    (exists before after,
       servers (state w) = before ++ l :: after /\ (l ∉ before) /\
       servers (state w') = before ++ after) /\
    users (state w') = filter (fun u => user_ServerId u <> Id server) (users (state w)) /\
    (forall u, u ∈ users (state w') -> user_ServerId u <> Id server) /\
    (forall u, u ∈ owned -> accessTokens (state w') !! ToString (user_Id u) = None) /\
    currentServerIndex (state w') = currentServerIndex (state w) /\
    currentUserIndex (state w') = currentUserIndex (state w) /\
    heap w' = heap w.
Proof.
  intros Hf server owned Hids.
  rewrite (perform_deleteServer_found w serverUrl l Hf), finish_eq.
  fold server. fold owned. cbv zeta.
  pose proof (logout_each_state server owned w) as Hst.
  destruct (forget_each_frame owned (state w)) as (Hsv & Hcs & Hcu & _).
  cbv zeta in Hsv, Hcs, Hcu. rewrite <- Hst in Hsv, Hcs, Hcu.
  assert (users (state (logout_each server owned w)) =
          filter (fun u => user_ServerId u <> Id server) (users (state w))) as Husers.
  { rewrite Hst. unfold owned, getUsersFromServer. simpl Id_of.
    apply (forget_each_users (fun u => user_ServerId u = Id server) [] (users (state w))).
    - done.
    - intros u v Hu HPu Hv Hid. simpl in Hv. by apply (Hids u v).
    - constructor. }
  eexists. split; [reflexivity|]. simpl. rewrite Hsv.
  split; [done|].
  split; [apply logout_each_log|].
  split.
  { unfold find_by_address in Hf.
    apply splice1_found in Hf as (before & after & Hl & Hb & Hp & Hsp).
    exists before, after. repeat split; try done.
    intros Hin. rewrite Forall_forall in Hb. specialize (Hb l Hin). simpl in Hb. congruence. }
  split; [done|].
  split.
  { intros u Hu. rewrite Husers in Hu. by apply list_elem_of_filter in Hu as [? _]. }
  split.
  { intros u Hu. rewrite Hst. by apply forget_each_tokens. }
  split; [done|]. split; [done|]. apply logout_each_heap.
Qed.

Lemma deleteServer_signs_out_and_removes_witness :
  find_by_address Sample.two_users "http://one.example" = Some 0%nat /\
  exists w',
    perform (DeleteServer "http://one.example") Sample.two_users = (Normal tt, w') /\
    servers (state w') = [] /\ users (state w') = [] /\
    accessTokens (state w') !! "u1" = None /\ accessTokens (state w') !! "u2" = None.
Proof.
  split; [reflexivity|].
  destruct (deleteServer_signs_out_and_removes Sample.two_users "http://one.example" 0%nat
              eq_refl)
    as (w' & Hrun & Hst & _ & _ & Hus & _ & Htok & _).
  { intros u v Hu Hv _ _. vm_compute in Hv.
    apply elem_of_cons in Hv as [->|Hv]; [reflexivity|].
    apply list_elem_of_singleton in Hv as ->. reflexivity. }
  exists w'. split; [exact Hrun|].
  split; [rewrite Hst; reflexivity|].
  split; [rewrite Hus; reflexivity|].
  split.
  - apply (Htok Sample.alice). vm_compute. left.
  - apply (Htok Sample.bob). vm_compute. right. left.
Defined.

(** C1, as stated, fails when a user of another server carries the
    identifier of a user of the deleted one: the other server's user is
    taken out, and the user of the deleted server stays in the registry. *)
Lemma deleteServer_leaves_user_of_deleted_server :
  let w := Sample.same_id_on_two_servers in
  let w' := after (DeleteServer "http://two.example") w in
  reachable w /\
  find_by_address w "http://two.example" = Some 1%nat /\
  Id (deref (heap w) 1%nat) = JsVal "S2" /\
  users (state w) = [Sample.alice; Sample.carol_on_S2] /\
  users (state w') = [Sample.carol_on_S2] /\
  (exists u, u ∈ users (state w') /\ user_ServerId u = JsVal "S2").
Proof.
  split; [apply reachable_after_all, reachable_connected|].
  do 4 (split; [reflexivity|]).
  exists Sample.carol_on_S2. split; [|reflexivity].
  vm_compute. left.
Qed.

(** ** Properties kept by every operation *)

Lemma indexOf_found_lower_bound {A} `{EqDecision A} (x : option A) (l : list A) :
  -1 <= indexOf_found x l.
Proof. destruct x; simpl; [apply indexOf_lower_bound|lia]. Qed.

Lemma loginUser_state username password remember response w :
  let w' := snd (loginUser username password remember response w) in
  state w' = state w \/
  state w' = set_rememberMe remember (state w) \/
  exists user token,
    truthy (user_Id user) = true /\
    state w' = signed_in user token (set_rememberMe remember (state w)).
Proof.
  unfold loginUser. run.
  destruct (currentServer w) as [l|]; simpl; [|by left].
  destruct response as [data|error]; simpl.
  - destruct (User data) as [| |user]; simpl; try (right; by left).
    destruct (AccessToken data) as [| |token]; simpl; try (right; by left).
    destruct (truthy (user_Id user)) eqn:Hid; simpl; [|right; by left].
    destruct (negb (String.eqb token "")); simpl; [|right; by left].
    right. right. exists user, token. split; [done|]. reflexivity.
  - destruct error; simpl; by left.
Qed.

Section kept.
Context (I : AuthState -> Prop) `{!StoreInvariant I}.

Lemma preserves_ret {A} (a : A) : preserves I (mret a).
Proof. intros w r w' [= <- <-]. done. Qed.

Lemma preserves_bind {A B} (m : M A) (k : A -> M B) :
  preserves I m -> (forall a, preserves I (k a)) -> preserves I (m ≫= k).
Proof.
  intros Hm Hk w r w' Hrun HI. unfold mbind, ST_bind in Hrun.
  destruct (m w) as [[a|e] w1] eqn:Hmw.
  - eapply Hk; [exact Hrun|]. eapply Hm; [exact Hmw|exact HI].
  - injection Hrun as <- <-. eapply Hm; [exact Hmw|exact HI].
Qed.

Lemma preserves_throw {A} e : preserves I (throw (A:=A) e).
Proof. intros w r w' [= <- <-]. done. Qed.

Lemma preserves_read {A} (f : World -> A) : preserves I (fun w => (Normal (f w), w)).
Proof. intros w r w' [= <- <-]. done. Qed.

Lemma preserves_emit e : preserves I (emit e).
Proof. intros w r w' [= <- <-]. done. Qed.

Lemma preserves_modify_heap f : preserves I (modify_heap f).
Proof. intros w r w' [= <- <-]. done. Qed.

Lemma preserves_modify f : (forall s, I s -> I (f s)) -> preserves I (modify f).
Proof. intros Hf w r w' [= <- <-]. simpl. auto. Qed.

Lemma preserves_logoutUser user server skipRequest :
  preserves I (logoutUser user server skipRequest).
Proof.
  intros w r w' Hrun HI. rewrite logoutUser_eq in Hrun. injection Hrun as <- <-.
  simpl. by apply inv_forget.
Qed.

Lemma preserves_logoutCurrentUser skipRequest : preserves I (logoutCurrentUser skipRequest).
Proof.
  intros w r w' Hrun HI. rewrite logoutCurrentUser_eq in Hrun.
  destruct (currentUser (state w)), (currentServer w); injection Hrun as <- <-; try done.
  simpl. by apply inv_currentUserIndex, inv_forget.
Qed.

Lemma preserves_loginUser username password remember response :
  preserves I (loginUser username password remember response).
Proof.
  intros w r w' Hrun HI.
  pose proof (loginUser_state username password remember response w) as Hst.
  rewrite Hrun in Hst. simpl in Hst.
  destruct Hst as [->|[->|(user & token & Hid & ->)]]; [done|by apply inv_rememberMe|].
  by apply inv_signed_in, inv_rememberMe.
Qed.

Lemma preserves_splice_servers (l : loc) :
  preserves I (modify (fun s => set_servers (splice1 (indexOf l (servers s)) (servers s)) s)).
Proof. apply preserves_modify. intros s. apply inv_servers. Qed.

Lemma preserves_resume k : preserves I (resume k).
Proof.
  destruct k as [l [|u rest]]; simpl.
  - apply preserves_bind; [apply preserves_splice_servers|]. intros _. apply preserves_ret.
  - apply preserves_bind; [apply (preserves_read heap)|]. intros h.
    apply preserves_bind; [apply preserves_logoutUser|]. intros _. apply preserves_ret.
Qed.

Lemma preserves_finish l rest : preserves I (finish l rest).
Proof.
  induction rest as [|u rest IH]; simpl.
  - apply preserves_splice_servers.
  - apply preserves_bind; [apply (preserves_read heap)|]. intros h.
    apply preserves_bind; [apply preserves_logoutUser|]. intros _. exact IH.
Qed.

Lemma preserves_await p : preserves I (await p).
Proof.
  destruct p as [|e|[l rest]]; simpl.
  - apply preserves_ret.
  - apply preserves_throw.
  - apply preserves_finish.
Qed.

Lemma preserves_finish_frame left : preserves I (finish_frame left).
Proof. destruct left as [[l rest]|]; simpl; [apply preserves_finish|apply preserves_ret]. Qed.

Lemma preserves_deleteServer serverUrl : preserves I (deleteServer serverUrl).
Proof.
  unfold deleteServer.
  apply preserves_bind; [apply (preserves_read (fun w => find_by_address w serverUrl))|].
  intros [l|]; [|apply preserves_ret].
  apply preserves_bind; [apply (preserves_read heap)|]. intros h.
  apply preserves_bind; [apply (preserves_read (fun w => _ (state w)))|]. intros us.
  apply preserves_resume.
Qed.

Lemma preserves_connectServer serverUrl isDefault response :
  preserves I (connectServer serverUrl isDefault response).
Proof.
  unfold connectServer.
  apply preserves_bind; [apply preserves_emit|]. intros _.
  apply preserves_bind.
  { destruct response; [apply preserves_ret|].
    apply preserves_bind; [apply preserves_emit|]. intros _. apply preserves_throw. }
  intros serv.
  destruct (isServerVersionSupported _).
  2: { apply preserves_bind; [apply preserves_emit|]. intros _. apply preserves_throw. }
  destruct (negb _).
  { apply preserves_bind; [apply preserves_emit|]. intros _. apply preserves_ret. }
  apply preserves_bind; [apply (preserves_read (fun w => getServerById w (Id serv)))|].
  intros oldServer.
  apply preserves_bind.
  { destruct oldServer as [old|].
    - apply preserves_bind; [apply (preserves_read heap)|]. intros h.
      apply preserves_bind; [apply preserves_deleteServer|]. intros p.
      apply preserves_bind; [apply preserves_modify_heap|]. intros _.
      apply preserves_bind; [|intros _; apply preserves_ret].
      apply preserves_modify. intros s. apply inv_servers.
    - apply preserves_bind; [apply (preserves_read heap)|]. intros h.
      apply preserves_bind; [apply preserves_modify_heap|]. intros _.
      apply preserves_bind; [|intros _; apply preserves_ret].
      apply preserves_modify. intros s. apply inv_servers. }
  intros left.
  apply preserves_bind; [apply (preserves_read (fun w => find_by_address w _))|].
  intros found.
  apply preserves_bind; [|intros _; apply preserves_ret].
  apply preserves_modify. intros s. apply inv_currentServerIndex.
  apply indexOf_found_lower_bound.
Qed.

Lemma preserves_perform op : preserves I (perform op).
Proof.
  destruct op; simpl.
  - apply preserves_bind; [apply preserves_connectServer|]. apply preserves_finish_frame.
  - apply preserves_loginUser.
  - apply preserves_logoutUser.
  - apply preserves_logoutCurrentUser.
  - apply preserves_bind; [apply preserves_deleteServer|]. apply preserves_await.
Qed.

Lemma reachable_keeps w : I defaults -> reachable w -> I (state w).
Proof.
  intros H0 Hr. induction Hr as [|w op Hr IH]; [exact H0|].
  unfold after. destruct (perform op w) as [r w'] eqn:Hrun. simpl.
  eapply preserves_perform; [exact Hrun|exact IH].
Qed.
End kept.

(** ** The token map and the user registry *)

#[global] Instance tokens_have_users_kept : StoreInvariant tokens_have_users.
Proof.
  split; try (intros; assumption).
  - intros u s HI k Hk. simpl in Hk.
    rewrite lookup_delete in Hk. case_decide as Hkey; [by destruct Hk|].
    destruct (HI k Hk) as (v & Hv & Hid). exists v. split; [|done].
    destruct (forget_users u s) as [[_ ->]|(before & su & after & Hsplit & _ & Hsu & ->)];
      [done|].
    rewrite Hsplit in Hv. apply elem_of_app in Hv as [Hv|Hv].
    + apply elem_of_app. by left.
    + apply elem_of_cons in Hv as [->|Hv].
      * exfalso. apply Hkey. rewrite <- Hsu, Hid. reflexivity.
      * apply elem_of_app. by right.
  - intros user token s Hid HI k Hk. simpl in Hk. simpl.
    destruct (user_Id user) as [| |id] eqn:Huid; try discriminate. simpl in Hk.
    rewrite lookup_insert in Hk. case_decide as Hkey.
    + subst k. exists user. split; [|done]. apply elem_of_app. right. by left.
    + destruct (HI k Hk) as (v & Hv & Hvid). exists v. split; [|done].
      apply elem_of_app. by left.
Qed.

Lemma tokens_have_users_defaults : tokens_have_users defaults.
Proof. intros k [t Hk]. simpl in Hk. by rewrite lookup_empty in Hk. Qed.

Lemma loginUser_signs_in w l username password remember user token :
  currentServer w = Some l ->
  truthy (user_Id user) = true -> token <> "" ->
  loginUser username password remember
    (Resolved {| User := JsVal user; AccessToken := JsVal token |}) w =
  (Normal tt,
   {| state := signed_in user token (set_rememberMe remember (state w));
      heap := heap w;
      log := log w ++ [AuthenticateUserByName (PublicAddress (deref (heap w) l))
                         username password] |}).
Proof.
  intros Hs Hid Ht. unfold loginUser. run. rewrite Hs. simpl. rewrite Hid.
  apply String.eqb_neq in Ht. rewrite Ht. reflexivity.
Qed.

(** ** What the operations do to users and tokens together *)

Lemma keeps_world_ret (I : World -> Prop) {A} (a : A) : keeps_world I (mret a).
Proof. intros w r w' [= <- <-]. done. Qed.

Lemma keeps_world_bind (I : World -> Prop) {A B} (m : M A) (k : A -> M B) :
  keeps_world I m -> (forall a, keeps_world I (k a)) -> keeps_world I (m ≫= k).
Proof.
  intros Hm Hk w r w' Hrun HI. unfold mbind, ST_bind in Hrun.
  destruct (m w) as [[a|e] w1] eqn:Hmw.
  - eapply Hk; [exact Hrun|]. eapply Hm; [exact Hmw|exact HI].
  - injection Hrun as <- <-. eapply Hm; [exact Hmw|exact HI].
Qed.

Lemma keeps_world_throw (I : World -> Prop) {A} e : keeps_world I (throw (A:=A) e).
Proof. intros w r w' [= <- <-]. done. Qed.

Lemma keeps_world_read (I : World -> Prop) {A} (f : World -> A) :
  keeps_world I (fun w => (Normal (f w), w)).
Proof. intros w r w' [= <- <-]. done. Qed.

Section taken_away.
Variable I : World -> Prop.
Hypothesis I_frame : forall w w',
  users (state w') = users (state w) ->
  accessTokens (state w') = accessTokens (state w) -> I w -> I w'.
Hypothesis I_forget : forall u w w', state w' = forget u (state w) -> I w -> I w'.

Lemma taken_emit e : keeps_world I (emit e).
Proof. intros w r w' [= <- <-]. by apply I_frame. Qed.

Lemma taken_logoutUser user server skipRequest :
  keeps_world I (logoutUser user server skipRequest).
Proof.
  intros w r w' Hrun. rewrite logoutUser_eq in Hrun. injection Hrun as <- <-.
  by apply (I_forget user).
Qed.

Lemma taken_splice (l : loc) :
  keeps_world I
    (modify (fun s => set_servers (splice1 (indexOf l (servers s)) (servers s)) s)).
Proof. intros w r w' [= <- <-]. by apply I_frame. Qed.

Lemma taken_finish l rest : keeps_world I (finish l rest).
Proof.
  induction rest as [|u rest IH]; simpl.
  - apply taken_splice.
  - apply keeps_world_bind; [apply (keeps_world_read _ heap)|]. intros h.
    apply keeps_world_bind; [apply taken_logoutUser|]. intros _. exact IH.
Qed.

Lemma taken_resume k : keeps_world I (resume k).
Proof.
  destruct k as [l [|u rest]]; simpl.
  - apply keeps_world_bind; [apply taken_splice|]. intros _. apply keeps_world_ret.
  - apply keeps_world_bind; [apply (keeps_world_read _ heap)|]. intros h.
    apply keeps_world_bind; [apply taken_logoutUser|]. intros _. apply keeps_world_ret.
Qed.

Lemma taken_deleteServer serverUrl : keeps_world I (deleteServer serverUrl).
Proof.
  unfold deleteServer.
  apply keeps_world_bind;
    [apply (keeps_world_read _ (fun w => find_by_address w serverUrl))|].
  intros [l|]; [|apply keeps_world_ret].
  apply keeps_world_bind; [apply (keeps_world_read _ heap)|]. intros h.
  apply keeps_world_bind; [apply (keeps_world_read _ (fun w => _ (state w)))|]. intros us.
  apply taken_resume.
Qed.

Lemma taken_connectServer serverUrl isDefault response :
  keeps_world I (connectServer serverUrl isDefault response).
Proof.
  unfold connectServer.
  apply keeps_world_bind; [apply taken_emit|]. intros _.
  apply keeps_world_bind.
  { destruct response; [apply keeps_world_ret|].
    apply keeps_world_bind; [apply taken_emit|]. intros _. apply keeps_world_throw. }
  intros serv.
  destruct (isServerVersionSupported _).
  2: { apply keeps_world_bind; [apply taken_emit|]. intros _. apply keeps_world_throw. }
  destruct (negb _).
  { apply keeps_world_bind; [apply taken_emit|]. intros _. apply keeps_world_ret. }
  apply keeps_world_bind;
    [apply (keeps_world_read _ (fun w => getServerById w (Id serv)))|].
  intros oldServer.
  apply keeps_world_bind.
  { destruct oldServer as [old|].
    - apply keeps_world_bind; [apply (keeps_world_read _ heap)|]. intros h.
      apply keeps_world_bind; [apply taken_deleteServer|]. intros p.
      intros w r w' Hrun. revert Hrun. run. intros [= <- <-]. by apply I_frame.
    - apply keeps_world_bind; [apply (keeps_world_read _ heap)|]. intros h.
      intros w r w' Hrun. revert Hrun. run. intros [= <- <-]. by apply I_frame. }
  intros left.
  apply keeps_world_bind; [apply (keeps_world_read _ (fun w => find_by_address w _))|].
  intros found. intros w r w' [= <- <-]. by apply I_frame.
Qed.

(** Every operation but [loginUser]. *)
Lemma taken_perform op :
  (forall username password remember response,
     op <> LoginUser username password remember response) ->
  keeps_world I (perform op).
Proof.
  intros Hop.
  destruct op as [serverUrl isDefault reply|username password remember reply|
                  user server skipRequest|skipRequest|serverUrl]; simpl.
  - apply keeps_world_bind; [apply taken_connectServer|].
    intros [[l rest]|]; simpl; [apply taken_finish|apply keeps_world_ret].
  - by destruct (Hop username password remember reply).
  - apply taken_logoutUser.
  - intros w r w' Hrun HI. rewrite logoutCurrentUser_eq in Hrun.
    destruct (currentUser (state w)) as [u|], (currentServer w) as [l|];
      injection Hrun as <- <-; try done.
    apply (I_frame {| state := forget u (state w); heap := heap w; log := log w |});
      [done|done|].
    by apply (I_forget u w).
  - apply keeps_world_bind; [apply taken_deleteServer|].
    intros [|e|[l rest]]; simpl;
      [apply keeps_world_ret|apply keeps_world_throw|apply taken_finish].
Qed.
End taken_away.

Lemma only_removes_refl s : only_removes s s.
Proof. split; reflexivity. Qed.

Lemma forget_only_removes u s : only_removes s (forget u s).
Proof.
  split.
  - destruct (forget_users u s) as [[_ ->]|(before & su & behind & -> & _ & _ & ->)];
      [reflexivity|].
    apply sublist_app; [reflexivity|]. by apply sublist_cons.
  - simpl. apply delete_subseteq.
Qed.

Lemma only_removes_trans s1 s2 s3 :
  only_removes s1 s2 -> only_removes s2 s3 -> only_removes s1 s3.
Proof. intros [Hu Ht] [Hu' Ht']. split; etransitivity; eassumption. Qed.

Lemma perform_only_removes op w :
  (forall username password remember response,
     op <> LoginUser username password remember response) ->
  only_removes (state w) (state (after op w)).
Proof.
  intros Hop. unfold after. destruct (perform op w) as [r w'] eqn:Hrun. simpl.
  assert (forall w1 w2 : World,
            users (state w2) = users (state w1) ->
            accessTokens (state w2) = accessTokens (state w1) ->
            only_removes (state w) (state w1) -> only_removes (state w) (state w2))
    as Hframe.
  { intros w1 w2 Hu Ht [Hu' Ht']. split; [by rewrite Hu|by rewrite Ht]. }
  assert (forall u (w1 w2 : World),
            state w2 = forget u (state w1) ->
            only_removes (state w) (state w1) -> only_removes (state w) (state w2))
    as Hforget.
  { intros u w1 w2 Hs Hw1. rewrite Hs.
    exact (only_removes_trans _ _ _ Hw1 (forget_only_removes u (state w1))). }
  exact (taken_perform (fun w1 => only_removes (state w) (state w1)) Hframe Hforget
           op Hop w r w' Hrun (only_removes_refl _)).
Qed.

(** Every operation but a successful [loginUser] only takes users and
    tokens away; a successful [loginUser] brings a user and its token. *)
Lemma perform_removes_or_adds op w :
  only_removes (state w) (state (after op w)) \/
  adds_user_with_token (state w) (state (after op w)).
Proof.
  destruct op as [serverUrl isDefault reply|username password remember reply|
                  user server skipRequest|skipRequest|serverUrl].
  2: { unfold after, perform.
       destruct (loginUser_state username password remember reply w)
         as [->|[->|(user & token & Hid & ->)]].
       - left. apply only_removes_refl.
       - left. split; reflexivity.
       - right. by exists user, token. }
  all: left; by apply perform_only_removes.
Qed.

(** C8, as the code has it. In every state reached from the initial one
    by any sequence of [connectServer], [loginUser], [logoutUser],
    [logoutCurrentUser] and [deleteServer], each run to its end, every key
    of the token map is the identifier of a user of the registry. Entries
    come with their record: an operation either only takes users and
    entries away, or appends one user and stores its token under its
    identifier, as a successful [loginUser] does. Entries go with a record:
    [logoutUser] deletes the entry under the identifier of the user it is
    given and takes out the first user with that identifier, and no other
    user; when the entry was there, that user was there. Users further on
    with the same identifier stay. *)
Theorem token_keys_are_registered_users :
  (forall w, reachable w -> tokens_have_users (state w)) /\
  (forall op w,
     only_removes (state w) (state (after op w)) \/
     adds_user_with_token (state w) (state (after op w))) /\
  (forall w l username password remember user token,
     currentServer w = Some l -> truthy (user_Id user) = true -> token <> "" ->
     let w' := after (LoginUser username password remember
                        (Resolved {| User := JsVal user; AccessToken := JsVal token |})) w in
     users (state w') = users (state w) ++ [user] /\
     accessTokens (state w') = <[ToString (user_Id user) := token]> (accessTokens (state w))) /\
  (forall w user server skipRequest,
     let w' := after (LogoutUser user server skipRequest) w in
     accessTokens (state w') = delete (ToString (user_Id user)) (accessTokens (state w)) /\
     ((Forall (fun u => user_Id u <> user_Id user) (users (state w)) /\
       users (state w') = users (state w)) \/
      (exists before su behind,
         users (state w) = before ++ su :: behind /\
         Forall (fun u => user_Id u <> user_Id user) before /\
         user_Id su = user_Id user /\
         users (state w') = before ++ behind))) /\
  (forall w user server skipRequest k,
     tokens_have_users (state w) ->
     user_Id user = JsVal k -> is_Some (accessTokens (state w) !! k) ->
     let w' := after (LogoutUser user server skipRequest) w in
     accessTokens (state w') !! k = None /\
     exists before su behind,
       users (state w) = before ++ su :: behind /\
       Forall (fun u => user_Id u <> JsVal k) before /\
       user_Id su = JsVal k /\
       users (state w') = before ++ behind).
Proof.
  split; [|split; [|split; [|split]]].
  - intros w Hr. apply (reachable_keeps tokens_have_users); [|done].
    apply tokens_have_users_defaults.
  - apply perform_removes_or_adds.
  - intros w l username password remember user token Hs Hid Ht.
    unfold after, perform. rewrite (loginUser_signs_in w l); done.
  - intros w user server skipRequest. unfold after, perform. rewrite logoutUser_eq.
    cbn [snd state]. split; [done|]. apply forget_users.
  - intros w user server skipRequest k HI Hid Hk. unfold after, perform.
    rewrite logoutUser_eq. cbn [snd state].
    split; [simpl; rewrite Hid; apply lookup_delete_eq|].
    destruct (forget_users user (state w))
      as [[Hnone _]|(before & su & behind & Hsplit & Hbefore & Hsu & Hrest)].
    + exfalso. destruct (HI k Hk) as (v & Hv & Hvid).
      rewrite Forall_forall in Hnone. apply (Hnone v Hv). congruence.
    + exists before, su, behind. rewrite <- Hid. done.
Qed.

Lemma token_keys_are_registered_users_witness :
  reachable Sample.two_users /\ tokens_have_users (state Sample.two_users).
Proof.
  assert (reachable Sample.two_users) as Hr.
  { apply reachable_after_all. apply reachable_step. apply reachable_start. }
  split; [exact Hr|].
  exact (proj1 token_keys_are_registered_users Sample.two_users Hr).
Defined.

(** C8, as stated, fails: entries and users do not go in lockstep. With
    the same account signed in twice the registry holds two users with one
    identifier and the token map one entry for both; [logoutUser] for
    either takes the first of them out and deletes the entry, and the other
    user stays in the registry with no entry. *)
Lemma user_outlives_its_token_entry :
  let w := Sample.alice_twice in
  let w' := after (LogoutUser Sample.alice_renamed (deref (heap w) 0%nat) true) w in
  reachable w' /\
  users (state w) = [Sample.alice; Sample.alice_renamed] /\
  accessTokens (state w) !! "u1" = Some "t3" /\
  users (state w') = [Sample.alice_renamed] /\
  accessTokens (state w') !! "u1" = None /\
  ~ in_lockstep (state w').
Proof.
  intros w w'.
  split; [apply reachable_step, reachable_after_all, reachable_connected|].
  do 4 (split; [by vm_compute|]).
  intros [_ Hentry].
  destruct (Hentry Sample.alice_renamed) as [t Ht].
  - assert (users (state w') = [Sample.alice_renamed]) as -> by by vm_compute.
    apply elem_of_cons. by left.
  - assert (accessTokens (state w') !! ToString (user_Id Sample.alice_renamed) = None) as Hnone
      by by vm_compute.
    congruence.
Qed.

(** ** The selectors *)

#[global] Instance selectors_bounded_kept : StoreInvariant selectors_bounded.
Proof.
  split; try (intros; assumption).
  - intros i s Hi [_ Hu]. split; simpl; done.
  - intros s [Hs _]. split; simpl; [done|lia].
  - intros user token s _ [Hs _]. split; simpl; [done|].
    rewrite length_app. simpl. lia.
Qed.

Lemma at_index_last {A} (l : list A) (x : A) :
  at_index (l ++ [x]) (Z.of_nat (length (l ++ [x])) - 1) = Some x.
Proof.
  unfold at_index. rewrite length_app. simpl.
  assert ((Z.of_nat (length l + 1) - 1 <? 0) = false) as -> by (apply Z.ltb_ge; lia).
  replace (Z.to_nat (Z.of_nat (length l + 1) - 1)) with (length l + 0)%nat by lia.
  by rewrite lookup_app_r, Nat.add_comm, Nat.add_sub by lia.
Qed.

(** [arr.indexOf(arr.find(p))] indexes the first element with [p], when
    there is one. *)
Lemma at_index_of_found {A} `{EqDecision A} (p : A -> bool) (l : list A) x :
  x ∈ l -> p x = true ->
  exists y, find p l = Some y /\ p y = true /\
    at_index l (indexOf_found (find p l) l) = Some y.
Proof.
  intros Hx Hp. destruct (find p l) as [y|] eqn:Hf.
  - exists y. destruct (find_Some_split p l y Hf) as (before & after & Hl & Hb & Hy & _).
    repeat split; [done|]. simpl.
    rewrite (indexOf_first l before y after Hl).
    + unfold at_index.
      assert ((Z.of_nat (length before) <? 0) = false) as -> by (apply Z.ltb_ge; lia).
      rewrite Nat2Z.id, Hl, lookup_app_r by lia. by rewrite Nat.sub_diag.
    + intros Hin. rewrite Forall_forall in Hb. specialize (Hb y Hin). congruence.
  - apply find_None in Hf. rewrite Forall_forall in Hf. specialize (Hf x Hx). congruence.
Qed.

Lemma connectServer_selects w serverUrl isDefault data left w' :
  connectServer serverUrl isDefault (Resolved data) w = (Normal left, w') ->
  truthy_bool (info_StartupWizardCompleted data) = true ->
  exists l, currentServer w' = Some l /\
    PublicAddress (deref (heap w') l) = trim (replace_trailing_slash serverUrl).
Proof.
  intros Hrun Hwiz. unfold connectServer in Hrun. revert Hrun. run.
  destruct (isServerVersionSupported (info_Version data)); simpl; [|discriminate].
  rewrite Hwiz. simpl.
  set (address := trim (replace_trailing_slash serverUrl)).
  set (serv := as_ServerInfo data address isDefault).
  set (w0 := {| state := state w; heap := heap w; log := log w ++ [GetPublicSystemInfo address] |}).
  assert (forall (w2 : World) x,
            x ∈ servers (state w2) -> PublicAddress (deref (heap w2) x) = address ->
            exists l, at_index (servers (state w2))
                        (indexOf_found (find_by_address w2 address) (servers (state w2))) = Some l /\
                      PublicAddress (deref (heap w2) l) = address) as Hsel.
  { intros w2 x Hx Hax.
    destruct (at_index_of_found
                (fun l => String.eqb (PublicAddress (deref (heap w2) l)) address)
                (servers (state w2)) x Hx) as (y & Hf & Hy & Hat).
    - by apply String.eqb_eq.
    - exists y. split; [exact Hat|]. by apply String.eqb_eq. }
  match goal with |- context [getServerById ?a ?b] =>
    destruct (getServerById a b) as [old|] eqn:Hold end; simpl.
  - match goal with |- context [deleteServer ?a ?b] =>
      destruct (deleteServer a b) as [[p|e] w1] eqn:Hdel end; simpl; [|discriminate].
    intros [= <- <-]. unfold currentServer. simpl.
    match goal with |- context [find_by_address ?w2 address] =>
      destruct (Hsel w2 old) as (l & Hl & Hal) end.
    + simpl. apply elem_of_app. right. by left.
    + simpl. unfold deref. by rewrite lookup_insert_eq.
    + exists l. split; [exact Hl|exact Hal].
  - intros [= <- <-]. unfold currentServer. simpl.
    match goal with |- context [find_by_address ?w2 address] =>
      destruct (Hsel w2 (fresh (dom (heap w)))) as (l & Hl & Hal) end.
    + simpl. apply elem_of_app. right. by left.
    + simpl. unfold deref. by rewrite lookup_insert_eq.
    + exists l. split; [exact Hl|exact Hal].
Qed.

Lemma perform_deleteServer_selectors w serverUrl :
  let w' := after (DeleteServer serverUrl) w in
  currentServerIndex (state w') = currentServerIndex (state w) /\
  currentUserIndex (state w') = currentUserIndex (state w).
Proof.
  unfold after. destruct (find_by_address w serverUrl) as [l|] eqn:Hf.
  - rewrite (perform_deleteServer_found w serverUrl l Hf), finish_eq. simpl.
    rewrite logout_each_state.
    destruct (forget_each_frame
                (getUsersFromServer (state w) (Some (deref (heap w) l))) (state w))
      as (_ & Hcs & Hcu & _).
    split; [exact Hcs|exact Hcu].
  - unfold perform, deleteServer. run. rewrite Hf. done.
Qed.

(** [connectServer] for a server whose identifier no record carries
    starts no [deleteServer]: nothing of it is pending when it returns. *)
Lemma connectServer_new_leaves_nothing w serverUrl isDefault data :
  isServerVersionSupported (info_Version data) = true ->
  truthy_bool (info_StartupWizardCompleted data) = true ->
  getServerById w (info_Id data) = None ->
  exists w', connectServer serverUrl isDefault (Resolved data) w = (Normal None, w').
Proof.
  intros Hv Hwiz Hnew. unfold connectServer. run. rewrite Hv. simpl. rewrite Hwiz. simpl.
  change (getServerById _ (info_Id data)) with (getServerById w (info_Id data)).
  rewrite Hnew. simpl. eauto.
Qed.

(** C9, as the code has it. In every state reached by any sequence of the
    operations, neither selector is below the sentinel -1. A selector
    indexes an element right after the operation that sets it: after a
    [connectServer] that accepts a server whose identifier no record
    carries, [currentServerIndex] indexes a record with the requested
    address; after a successful [loginUser], [currentUserIndex] indexes the
    appended user; [logoutCurrentUser] either changes nothing or leaves
    [currentUserIndex] at -1. [logoutUser] and [deleteServer] change neither
    selector, though they shrink the registries. Each operation is taken
    run to its end. *)
Theorem selectors_are_set_not_recomputed :
  (forall w, reachable w -> selectors_bounded (state w)) /\
  (forall w serverUrl isDefault data,
     isServerVersionSupported (info_Version data) = true ->
     truthy_bool (info_StartupWizardCompleted data) = true ->
     getServerById w (info_Id data) = None ->
     let w' := after (ConnectServer serverUrl isDefault (Resolved data)) w in
     exists l, currentServer w' = Some l /\
       PublicAddress (deref (heap w') l) = trim (replace_trailing_slash serverUrl)) /\
  (forall w l username password remember user token,
     currentServer w = Some l -> truthy (user_Id user) = true -> token <> "" ->
     let w' := after (LoginUser username password remember
                        (Resolved {| User := JsVal user; AccessToken := JsVal token |})) w in
     currentUser (state w') = Some user) /\
  (forall w skipRequest,
     let w' := after (LogoutCurrentUser skipRequest) w in
     w' = w \/ currentUserIndex (state w') = -1) /\
  (forall w user server skipRequest,
     let w' := after (LogoutUser user server skipRequest) w in
     currentServerIndex (state w') = currentServerIndex (state w) /\
     currentUserIndex (state w') = currentUserIndex (state w)) /\
  (forall w serverUrl,
     let w' := after (DeleteServer serverUrl) w in
     currentServerIndex (state w') = currentServerIndex (state w) /\
     currentUserIndex (state w') = currentUserIndex (state w)).
Proof.
  split; [|split; [|split; [|split; [|split]]]].
  - intros w Hr. apply (reachable_keeps selectors_bounded); [|done].
    split; simpl; lia.
  - intros w serverUrl isDefault data Hv Hwiz Hnew.
    destruct (connectServer_new_leaves_nothing w serverUrl isDefault data Hv Hwiz Hnew)
      as [w1 Hrun].
    assert (after (ConnectServer serverUrl isDefault (Resolved data)) w = w1) as ->.
    { unfold after, perform, mbind, ST_bind. by rewrite Hrun. }
    by apply (connectServer_selects w serverUrl isDefault data None w1).
  - intros w l username password remember user token Hs Hid Ht.
    unfold after, perform.
    rewrite (loginUser_signs_in w l) by done. simpl. unfold currentUser. simpl.
    apply at_index_last.
  - intros w skipRequest. unfold after, perform. rewrite logoutCurrentUser_eq.
    destruct (currentUser (state w)), (currentServer w); simpl; auto.
  - intros w user server skipRequest. unfold after, perform.
    rewrite logoutUser_eq. simpl. done.
  - apply perform_deleteServer_selectors.
Qed.

Lemma selectors_are_set_not_recomputed_witness :
  reachable Sample.two_users /\ selectors_bounded (state Sample.two_users) /\
  currentUser (state Sample.two_users) = Some Sample.bob.
Proof.
  assert (reachable Sample.two_users) as Hr.
  { apply reachable_after_all. apply reachable_step. apply reachable_start. }
  split; [exact Hr|]. split.
  - exact (proj1 selectors_are_set_not_recomputed Sample.two_users Hr).
  - reflexivity.
Defined.

(** C9, as stated, fails: after [logoutUser] for the current user the user
    selector still holds its old index, past the end of the registry; and
    after [deleteServer] for another server than the current one the server
    selector does. *)
Lemma selectors_dangle_after_removal :
  let w1 := after (LogoutUser Sample.bob (deref (heap Sample.two_users) 0%nat) true)
              Sample.two_users in
  let w2 := Sample.current_user_without_server in
  (reachable w1 /\ users (state w1) = [Sample.alice] /\ currentUserIndex (state w1) = 1 /\
   ~ selector_valid (users (state w1)) (currentUserIndex (state w1))) /\
  (reachable w2 /\ length (servers (state w2)) = 1%nat /\ currentServerIndex (state w2) = 1 /\
   ~ selector_valid (servers (state w2)) (currentServerIndex (state w2))).
Proof.
  pose proof reachable_connected as Hc.
  split.
  - split; [apply reachable_step, reachable_after_all, Hc|].
    do 2 (split; [reflexivity|]).
    intros [H|[x H]]; vm_compute in H; discriminate.
  - split; [apply reachable_after_all, Hc|].
    do 2 (split; [reflexivity|]).
    intros [H|[x H]]; vm_compute in H; discriminate.
Qed.

(** ** connectServer for a server that is already registered *)

Lemma find_singleton {A} (p : A -> bool) (x : A) : p x = true -> find p [x] = Some x.
Proof.
  intros Hp. unfold find. simpl. rewrite decide_True by done. reflexivity.
Qed.

Lemma indexOf_head {A} `{EqDecision A} (x : A) (l : list A) : indexOf x (x :: l) = 0.
Proof. unfold indexOf. simpl. rewrite decide_True by done. reflexivity. Qed.

(** When the registry holds just the record of the server that answers,
    and once the [deleteServer] that [connectServer] started has run to its
    end, the registry again holds just that record, updated in place by
    [merge] and set to the requested address, and it is the current
    server. *)
Lemma connectServer_again_when_settled w l serverUrl isDefault data :
  servers (state w) = [l] ->
  Id (deref (heap w) l) = info_Id data ->
  isServerVersionSupported (info_Version data) = true ->
  truthy_bool (info_StartupWizardCompleted data) = true ->
  let address := trim (replace_trailing_slash serverUrl) in
  let w' := after (ConnectServer serverUrl isDefault (Resolved data)) w in
  servers (state w') = [l] /\
  heap w' !! l = Some (merge (deref (heap w) l) (as_ServerInfo data address isDefault)) /\
  PublicAddress (deref (heap w') l) = address /\
  currentServerIndex (state w') = 0 /\
  currentServer w' = Some l.
Proof.
  intros Hsv Hid Hver Hwiz address w'.
  set (merged := merge (deref (heap w) l) (as_ServerInfo data address isDefault)).
  set (Q := fun wf : World =>
              servers (state wf) = [l] /\ heap wf = <[l := merged]> (heap w) /\
              currentServerIndex (state wf) = 0).
  assert (Q w') as (H1 & H2 & H3).
  { unfold w', after, perform, connectServer. run. rewrite Hver. simpl. rewrite Hwiz. simpl.
    unfold getServerById. simpl. rewrite Hsv.
    rewrite find_singleton by (apply bool_decide_eq_true_2; exact Hid). simpl.
    unfold deleteServer. run. unfold find_by_address at 1. simpl. rewrite Hsv.
    rewrite find_singleton by apply String.eqb_refl. simpl.
    fold address. fold merged.
    destruct (getUsersFromServer _ _) as [|u rest] eqn:Hus; simpl.
    - rewrite Hsv, indexOf_head. simpl.
      unfold find_by_address. simpl.
      rewrite find_singleton.
      2: { unfold deref. rewrite lookup_insert_eq. simpl. apply String.eqb_refl. }
      simpl. rewrite indexOf_head. done.
    - run. rewrite logoutUser_eq. simpl. rewrite Hsv. simpl.
      unfold find_by_address. simpl. unfold find. simpl.
      rewrite decide_True.
      2: { unfold deref. rewrite lookup_insert_eq. simpl. apply String.eqb_refl. }
      simpl. rewrite indexOf_head. rewrite finish_eq. unfold Q. simpl.
      rewrite logout_each_state, logout_each_heap. simpl.
      destruct (forget_each_frame rest
                  (set_currentServerIndex 0
                     (set_servers [l; l] (forget u (state w))))) as (-> & -> & _).
      simpl. rewrite indexOf_head. done. }
  split; [exact H1|]. split; [rewrite H2; apply lookup_insert_eq|].
  split; [unfold deref; rewrite H2, lookup_insert_eq; reflexivity|].
  split; [exact H3|]. unfold currentServer. rewrite H1, H3. reflexivity.
Qed.

(** When the server that answers still has users signed in, [connectServer]
    returns before its [deleteServer] has taken the old listing out: the
    record is in the registry twice, and the rest of [deleteServer] is
    pending. *)
Lemma connectServer_again_returns_early w l serverUrl isDefault data u rest :
  servers (state w) = [l] ->
  Id (deref (heap w) l) = info_Id data ->
  isServerVersionSupported (info_Version data) = true ->
  truthy_bool (info_StartupWizardCompleted data) = true ->
  getUsersFromServer (state w) (Some (deref (heap w) l)) = u :: rest ->
  exists w1,
    connectServer serverUrl isDefault (Resolved data) w =
      (Normal (Some (DeleteServerLoop l rest)), w1) /\
    servers (state w1) = [l; l] /\
    users (state w1) = users (forget u (state w)) /\
    currentServerIndex (state w1) = 0.
Proof.
  intros Hsv Hid Hver Hwiz Hus.
  unfold connectServer. run. rewrite Hver. simpl. rewrite Hwiz. simpl.
  unfold getServerById. simpl. rewrite Hsv.
  rewrite find_singleton by (apply bool_decide_eq_true_2; exact Hid). simpl.
  unfold deleteServer. run. unfold find_by_address at 1. simpl. rewrite Hsv.
  rewrite find_singleton by apply String.eqb_refl. simpl.
  rewrite Hus. simpl. run. rewrite logoutUser_eq. simpl. rewrite Hsv. simpl.
  unfold find_by_address. simpl. unfold find. simpl.
  rewrite decide_True.
  2: { unfold deref. rewrite lookup_insert_eq. simpl. apply String.eqb_refl. }
  simpl. rewrite indexOf_head. eexists. repeat split; reflexivity.
Qed.

(** C5 at a registry that holds one server with two users signed in:
    [connectServer] for the same server identifier calls [deleteServer]
    without awaiting it. [deleteServer] signs the first user out and gives
    up control; [connectServer] then pushes the merged record and returns.
    At that point the record is in the registry twice. A caller awaiting
    [connectServer] resumes after one more stretch of [deleteServer] (the
    second user), and still finds it twice. Only the last stretch takes the
    first occurrence out. *)
Theorem connectServer_again_lists_record_twice :
  let w := Sample.two_users in
  let returned :=
    connectServer "https://one.example/" true (Resolved (Sample.system_info "S1" "10.9.0")) w in
  let w1 := snd returned in
  let w2 := snd (resume (DeleteServerLoop 0%nat [Sample.bob]) w1) in
  let w3 := snd (resume (DeleteServerLoop 0%nat []) w2) in
  (reachable w /\ servers (state w) = [0%nat] /\ Id (deref (heap w) 0%nat) = JsVal "S1" /\
   users (state w) = [Sample.alice; Sample.bob]) /\
  (fst returned = Normal (Some (DeleteServerLoop 0%nat [Sample.bob])) /\
   servers (state w1) = [0%nat; 0%nat] /\ length (servers (state w1)) = 2%nat /\
   users (state w1) = [Sample.bob]) /\
  (fst (resume (DeleteServerLoop 0%nat [Sample.bob]) w1) =
     Normal (Pending (DeleteServerLoop 0%nat [])) /\
   length (servers (state w2)) = 2%nat) /\
  (servers (state w3) = [0%nat] /\ currentServerIndex (state w3) = 0 /\
   PublicAddress (deref (heap w3) 0%nat) = "https://one.example").
Proof.
  split; [split; [apply reachable_after_all, reachable_connected|]|];
    repeat split; reflexivity.
Qed.

(** With another server behind it in the registry, the record that
    [connectServer] just re-connected is not the current server once the
    pending [deleteServer] has run: the selector was computed while the
    record was still listed at its old place. *)
Lemma connectServer_again_selects_another_server :
  let w := Sample.alice_on_first_of_two in
  let w' := after (ConnectServer "http://one.example" false
                     (Resolved (Sample.system_info "S1" "10.8.0"))) w in
  servers (state w) = [0%nat; 1%nat] /\
  servers (state w') = [1%nat; 0%nat] /\
  currentServerIndex (state w') = 0 /\
  currentServer w' = Some 1%nat /\
  PublicAddress (deref (heap w') 1%nat) = "http://two.example" /\
  PublicAddress (deref (heap w') 0%nat) = "http://one.example".
Proof. repeat split; reflexivity. Qed.

(** ** The older store *)

(** [authStore.deleteServer] keeps what it should drop: the filter of the
    users keeps those of the deleted server, and the registry is assigned
    what [splice] returns, the removed record. The tokens are deleted. *)
Lemma Legacy_deleteServer_keeps_server_and_users :
  let w := Sample.legacy_two_users in
  let '(r, w') := Legacy.deleteServer "http://one.example" (fun _ => Resolved tt) w in
  r = Normal tt /\
  Legacy.users (Legacy.state w') = [Sample.alice; Sample.bob] /\
  Legacy.servers (Legacy.state w') = Legacy.servers (Legacy.state w) /\
  length (Legacy.servers (Legacy.state w')) = 1%nat /\
  Legacy.accessTokens (Legacy.state w') = ∅.
Proof. vm_compute. repeat split; reflexivity. Qed.

Lemma Legacy_deleteServer_unknown_address :
  Legacy.deleteServer "http://gone.example" (fun _ => Resolved tt) Sample.legacy_two_users =
  (Throw ServerUnknown, Sample.legacy_two_users).
Proof. reflexivity. Qed.

(** [authStore.logoutUser] with [clearUser] keeps the current user and
    drops the others, whose tokens stay in the map. *)
Lemma Legacy_logoutUser_keeps_current_user :
  let w := Sample.legacy_two_users in
  let '(r, w') := Legacy.logoutUser true false (Resolved tt) w in
  r = Normal tt /\
  Legacy.currentUser (Legacy.state w) = Some Sample.bob /\
  Legacy.users (Legacy.state w') = [Sample.bob] /\
  Legacy.accessTokens (Legacy.state w') !! "u2" = None /\
  Legacy.accessTokens (Legacy.state w') !! "u1" = Some "t1" /\
  Legacy.currentUserIndex (Legacy.state w') = -1.
Proof. vm_compute. repeat split; reflexivity. Qed.

(** [authStore.logoutUser] awaits the end-of-session request: when it
    fails, the clean-up still runs and the failure is thrown on. *)
Lemma Legacy_logoutUser_throws_after_cleanup :
  let w := Sample.legacy_two_users in
  let '(r, w') := Legacy.logoutUser true false (Failed (FromAxios Sample.unauthorized)) w in
  r = Throw (Rethrown (FromAxios Sample.unauthorized)) /\
  Legacy.accessTokens (Legacy.state w') !! "u2" = None /\
  Legacy.currentUserIndex (Legacy.state w') = -1.
Proof. vm_compute. repeat split; reflexivity. Qed.

(** [authStore.loginUser] notifies and throws the failure on. *)
Lemma Legacy_loginUser_rethrows :
  let w := Sample.legacy_two_users in
  let '(r, w') := Legacy.loginUser "alice" "wrong" true (Failed (FromAxios Sample.unauthorized)) w in
  r = Throw (Rethrown (FromAxios Sample.unauthorized)) /\
  Legacy.state w' = Legacy.state w /\
  Legacy.log w' = Legacy.log w ++
    [Legacy.AuthenticateUserByName (JsVal "http://one.example") "alice" "wrong";
     Legacy.SnackbarPush (Translated "incorrectUsernameOrPassword") "error"].
Proof. vm_compute. repeat split; reflexivity. Qed.

(** [authStore.loginUser] on a reply without an access token: [rememberMe]
    is stored and nothing else changes. *)
Lemma Legacy_loginUser_reply_without_token :
  let w := Sample.legacy_two_users in
  let '(r, w') := Legacy.loginUser "carol" "pw" false
                    (Resolved {| User := JsVal Sample.alice; AccessToken := JsNull |}) w in
  r = Normal tt /\
  Legacy.state w' = Legacy.with_rememberMe false (Legacy.state w).
Proof. vm_compute. repeat split; reflexivity. Qed.

(** [authStore.connectServer] has the same version gate. *)
Lemma Legacy_connectServer_version_gate w serverUrl isDefault data :
  isServerVersionSupported (info_Version data) = false ->
  exists w',
    Legacy.connectServer serverUrl isDefault (Resolved data) w = (Throw VersionUnsupported, w') /\
    Legacy.state w' = Legacy.state w.
Proof.
  intros Hv. unfold Legacy.connectServer, Legacy.try_catch, Legacy.request.
  unfold mbind, ST_bind, mret, ST_ret, Legacy.set_baseURL, Legacy.setAxiosHeader,
    Legacy.gets, Legacy.set_headerToken, Legacy.emit, throw. simpl.
  rewrite Hv. eexists. split; reflexivity.
Qed.

(** [authStore.connectServer] for a server that is already registered does
    not touch its record: reached at another address, the record keeps the
    old one, and the selector finds no record at the new address. *)
Lemma Legacy_connectServer_again_keeps_record :
  let w := Sample.legacy_two_users in
  let '(r, w') := Legacy.connectServer "https://one.example" true
                    (Resolved (Sample.system_info "S1" "10.9.0")) w in
  r = Normal tt /\
  Legacy.servers (Legacy.state w') = Legacy.servers (Legacy.state w) /\
  Legacy.PublicAddress <$> Legacy.servers (Legacy.state w') = ["http://one.example"] /\
  Legacy.currentServerIndex (Legacy.state w') = -1.
Proof. vm_compute. repeat split; reflexivity. Qed.

(** * Further facts *)

(** ** References of the registry *)

Lemma splice1_subseteq {A} (i : Z) (l : list A) x : x ∈ splice1 i l -> x ∈ l.
Proof.
  unfold splice1. generalize (Z.to_nat (if i <? 0 then Z.max (Z.of_nat (length l) + i) 0
                                        else Z.min i (Z.of_nat (length l)))).
  intros n. revert n. induction l as [|y l IH]; intros [|n] Hx; simpl in Hx; try done.
  - by right.
  - apply elem_of_cons in Hx as [->|Hx]; [by left|]. right. by apply (IH n).
Qed.

Lemma allocated_emit e : keeps_world registry_allocated (emit e).
Proof. intros w r w' [= <- <-]. done. Qed.

Lemma allocated_logoutUser user server skipRequest :
  keeps_world registry_allocated (logoutUser user server skipRequest).
Proof. intros w r w' Hrun HI. rewrite logoutUser_eq in Hrun. by injection Hrun as <- <-. Qed.

Lemma allocated_splice (l : loc) :
  keeps_world registry_allocated
    (modify (fun s => set_servers (splice1 (indexOf l (servers s)) (servers s)) s)).
Proof.
  intros w r w' [= <- <-] HI x Hx. simpl in *. apply HI. by apply splice1_subseteq in Hx.
Qed.

Lemma allocated_finish l rest : keeps_world registry_allocated (finish l rest).
Proof.
  induction rest as [|u rest IH]; simpl.
  - apply allocated_splice.
  - apply keeps_world_bind; [apply (keeps_world_read _ heap)|]. intros h.
    apply keeps_world_bind; [apply allocated_logoutUser|]. intros _. exact IH.
Qed.

Lemma allocated_resume k : keeps_world registry_allocated (resume k).
Proof.
  destruct k as [l [|u rest]]; simpl.
  - apply keeps_world_bind; [apply allocated_splice|]. intros _. apply keeps_world_ret.
  - apply keeps_world_bind; [apply (keeps_world_read _ heap)|]. intros h.
    apply keeps_world_bind; [apply allocated_logoutUser|]. intros _. apply keeps_world_ret.
Qed.

Lemma allocated_deleteServer serverUrl : keeps_world registry_allocated (deleteServer serverUrl).
Proof.
  unfold deleteServer.
  apply keeps_world_bind; [apply (keeps_world_read _ (fun w => find_by_address w serverUrl))|].
  intros [l|]; [|apply keeps_world_ret].
  apply keeps_world_bind; [apply (keeps_world_read _ heap)|]. intros h.
  apply keeps_world_bind; [apply (keeps_world_read _ (fun w => _ (state w)))|]. intros us.
  apply allocated_resume.
Qed.

Lemma allocated_push l serv :
  keeps_world registry_allocated
    (modify_heap (fun h => <[l := serv h]> h) ≫= fun _ =>
     modify (fun s => set_servers (servers s ++ [l]) s)).
Proof.
  intros w r w' [= <- <-] HI x Hx. simpl in *.
  apply elem_of_dom. apply elem_of_app in Hx as [Hx|Hx].
  - destruct (decide (l = x)) as [->|Hne]; [rewrite lookup_insert_eq; eauto|].
    rewrite lookup_insert_ne by done. apply elem_of_dom. by apply HI.
  - apply list_elem_of_singleton in Hx as ->. rewrite lookup_insert_eq; eauto.
Qed.

Lemma allocated_connectServer serverUrl isDefault response :
  keeps_world registry_allocated (connectServer serverUrl isDefault response).
Proof.
  unfold connectServer.
  apply keeps_world_bind; [apply allocated_emit|]. intros _.
  apply keeps_world_bind.
  { destruct response; [apply keeps_world_ret|].
    apply keeps_world_bind; [apply allocated_emit|]. intros _. apply keeps_world_throw. }
  intros serv.
  destruct (isServerVersionSupported _).
  2: { apply keeps_world_bind; [apply allocated_emit|]. intros _. apply keeps_world_throw. }
  destruct (negb _).
  { apply keeps_world_bind; [apply allocated_emit|]. intros _. apply keeps_world_ret. }
  apply keeps_world_bind; [apply (keeps_world_read _ (fun w => getServerById w (Id serv)))|].
  intros oldServer.
  apply keeps_world_bind.
  { destruct oldServer as [old|].
    - apply keeps_world_bind; [apply (keeps_world_read _ heap)|]. intros h.
      apply keeps_world_bind; [apply allocated_deleteServer|]. intros p.
      intros w r w' Hrun HI.
      pose proof (allocated_push old (fun h => merge (deref h old) serv) w) as Hpush.
      revert Hrun Hpush. run. intros [= <- <-] Hpush. by eapply Hpush.
    - apply keeps_world_bind; [apply (keeps_world_read _ heap)|]. intros h.
      intros w r w' Hrun HI.
      pose proof (allocated_push (fresh (dom h)) (fun _ => serv) w) as Hpush.
      revert Hrun Hpush. run. intros [= <- <-] Hpush. by eapply Hpush. }
  intros left.
  apply keeps_world_bind; [apply (keeps_world_read _ (fun w => find_by_address w _))|].
  intros found. intros w r w' [= <- <-] HI. exact HI.
Qed.

Lemma loginUser_frame username password remember response w :
  let w' := snd (loginUser username password remember response w) in
  heap w' = heap w /\ servers (state w') = servers (state w) /\
  currentServerIndex (state w') = currentServerIndex (state w).
Proof.
  unfold loginUser. run.
  destruct (currentServer w) as [l|]; simpl; [|done].
  destruct response as [data|error]; simpl.
  - destruct (User data) as [| |user]; simpl; try done.
    destruct (AccessToken data) as [| |token]; simpl; try done.
    destruct (truthy (user_Id user)); simpl; [|done].
    destruct (negb (String.eqb token "")); simpl; done.
  - destruct error; simpl; done.
Qed.

Lemma allocated_perform op : keeps_world registry_allocated (perform op).
Proof.
  destruct op as [serverUrl isDefault reply|username password remember reply|
                  user server skipRequest|skipRequest|serverUrl]; simpl.
  - apply keeps_world_bind; [apply allocated_connectServer|].
    intros [[l rest]|]; simpl; [apply allocated_finish|apply keeps_world_ret].
  - intros w r w' Hrun HI x Hx.
    destruct (loginUser_frame username password remember reply w) as (Hh & Hs & _).
    rewrite Hrun in Hh, Hs. simpl in Hh, Hs. rewrite Hh. rewrite Hs in Hx. by apply HI.
  - apply allocated_logoutUser.
  - intros w r w' Hrun HI. rewrite logoutCurrentUser_eq in Hrun.
    destruct (currentUser (state w)), (currentServer w); by injection Hrun as <- <-.
  - apply keeps_world_bind; [apply allocated_deleteServer|].
    intros [|e|[l rest]]; simpl;
      [apply keeps_world_ret|apply keeps_world_throw|apply allocated_finish].
Qed.

Lemma reachable_allocated w : reachable w -> registry_allocated w.
Proof.
  intros Hr. induction Hr as [|w op Hr IH].
  - intros l Hl. by apply elem_of_nil in Hl.
  - unfold after. destruct (perform op w) as [r w'] eqn:Hrun. simpl.
    eapply allocated_perform; [exact Hrun|exact IH].
Qed.

(** ** connectServer: the outcomes that add nothing *)

(** X1. When the public-system-info request fails, whatever the failure,
    [connectServer] notifies "login.serverNotFound" once, throws an error
    made from the failure, and leaves the store and the records as they
    were; nothing of it stays pending, and no second request is made. *)
Theorem connectServer_unreachable w serverUrl isDefault error :
  connectServer serverUrl isDefault (Failed error) w =
    (Throw (ServerUnreachable error),
     {| state := state w; heap := heap w;
        log := log w ++ [GetPublicSystemInfo (trim (replace_trailing_slash serverUrl));
                         Snackbar (Translated "login.serverNotFound") "error"] |}) /\
  after (ConnectServer serverUrl isDefault (Failed error)) w =
    snd (connectServer serverUrl isDefault (Failed error) w).
Proof.
  assert (connectServer serverUrl isDefault (Failed error) w =
    (Throw (ServerUnreachable error),
     {| state := state w; heap := heap w;
        log := log w ++ [GetPublicSystemInfo (trim (replace_trailing_slash serverUrl));
                         Snackbar (Translated "login.serverNotFound") "error"] |})) as H.
  { unfold connectServer. run. by rewrite <- app_assoc. }
  split; [exact H|]. unfold after, perform, mbind, ST_bind. by rewrite H.
Qed.

(** X2. When the server answers with a supported version and its startup
    wizard is not completed (false, null or missing), [connectServer] sends
    the router to "/wizard" and ends normally: the server is not registered,
    no selector moves, nobody is signed out, and nothing stays pending. *)
Theorem connectServer_wizard_pending w serverUrl isDefault data :
  isServerVersionSupported (info_Version data) = true ->
  truthy_bool (info_StartupWizardCompleted data) = false ->
  connectServer serverUrl isDefault (Resolved data) w =
    (Normal None,
     {| state := state w; heap := heap w;
        log := log w ++ [GetPublicSystemInfo (trim (replace_trailing_slash serverUrl));
                         RouterPush "/wizard"] |}).
Proof.
  intros Hv Hw. unfold connectServer. run. rewrite Hv. simpl. rewrite Hw. simpl.
  by rewrite <- app_assoc.
Qed.

Lemma connectServer_wizard_pending_witness :
  let data := {| info_LocalAddress := JsUndefined; info_ServerName := JsVal "fresh";
                 info_Version := JsVal "10.8.0"; info_ProductName := JsUndefined;
                 info_OperatingSystem := JsUndefined; info_Id := JsVal "S9";
                 info_StartupWizardCompleted := JsVal false |} in
  isServerVersionSupported (info_Version data) = true /\
  truthy_bool (info_StartupWizardCompleted data) = false /\
  state (snd (connectServer "http://new.example" false (Resolved data) Sample.two_users)) =
    state Sample.two_users.
Proof.
  intros data. split; [reflexivity|]. split; [reflexivity|].
  rewrite (connectServer_wizard_pending Sample.two_users "http://new.example" false data
             eq_refl eq_refl).
  reflexivity.
Defined.

(** ** connectServer: a server that is not yet registered *)

Lemma find_app_None_l {A} (p : A -> bool) (l : list A) x :
  Forall (fun y => p y = false) l -> p x = true -> find p (l ++ [x]) = Some x.
Proof.
  intros Hl Hx. induction l as [|y l IH]; simpl.
  - by apply find_singleton.
  - apply Forall_cons in Hl as [Hy Hl]. unfold find in *. simpl.
    rewrite decide_False by congruence.
    destruct (list_find _ (l ++ [x])) as [[i z]|] eqn:E; simpl in *; [|by specialize (IH Hl)].
    specialize (IH Hl). by injection IH as ->.
Qed.

Lemma indexOf_last_new {A} `{EqDecision A} (l : list A) x :
  x ∉ l -> indexOf x (l ++ [x]) = Z.of_nat (length l).
Proof. intros Hx. by apply (indexOf_first (l ++ [x]) l x []). Qed.

(** X3. In a world whose registry points at existing records, when the
    server answers with a supported version, a completed wizard and an
    identifier that no registered record carries, [connectServer] appends
    exactly one record: the reply without its local address, at the address
    as normalised, with the default flag as given. The records already
    registered, the users, the tokens and the user selector are untouched,
    and nothing stays pending. The current server becomes a record at that
    address: the new one, at the last position, if none was registered at
    that address before. *)
Theorem connectServer_registers_new_server w serverUrl isDefault data :
  registry_allocated w ->
  isServerVersionSupported (info_Version data) = true ->
  truthy_bool (info_StartupWizardCompleted data) = true ->
  Forall (fun l => Id (deref (heap w) l) <> info_Id data) (servers (state w)) ->
  let address := trim (replace_trailing_slash serverUrl) in
  let l := fresh (dom (heap w)) in
  exists w',
    connectServer serverUrl isDefault (Resolved data) w = (Normal None, w') /\
    servers (state w') = servers (state w) ++ [l] /\
    (l ∉ servers (state w)) /\
    heap w' !! l = Some (as_ServerInfo data address isDefault) /\
    (forall l', l' ∈ servers (state w) -> heap w' !! l' = heap w !! l') /\
    users (state w') = users (state w) /\
    accessTokens (state w') = accessTokens (state w) /\
    currentUserIndex (state w') = currentUserIndex (state w) /\
    log w' = log w ++ [GetPublicSystemInfo address] /\
    (exists c, currentServer w' = Some c /\ PublicAddress (deref (heap w') c) = address) /\
    (Forall (fun l' => PublicAddress (deref (heap w) l') <> address) (servers (state w)) ->
     currentServer w' = Some l /\
     currentServerIndex (state w') = Z.of_nat (length (servers (state w)))).
Proof.
  intros Hwf Hv Hwiz Hnew address l.
  assert (l ∉ servers (state w)) as Hfresh.
  { intros Hin. apply Hwf in Hin. by apply is_fresh in Hin. }
  assert (getServerById w (info_Id data) = None) as Hnone.
  { unfold getServerById. apply find_None. eapply Forall_impl; [exact Hnew|].
    intros x Hx. simpl in Hx. by apply bool_decide_eq_false. }
  destruct (connectServer serverUrl isDefault (Resolved data) w) as [r w'] eqn:Hrun.
  pose proof Hrun as Hrun'.
  unfold connectServer in Hrun. revert Hrun. run. rewrite Hv. simpl. rewrite Hwiz. simpl.
  unfold getServerById in Hnone |- *. simpl. rewrite Hnone. simpl.
  fold address. fold l. intros [= <- <-]. exists
    {| state := set_currentServerIndex
                  (indexOf_found
                     (find_by_address
                        {| state := set_servers (servers (state w) ++ [l]) (state w);
                           heap := <[l := as_ServerInfo data address isDefault]> (heap w);
                           log := log w ++ [GetPublicSystemInfo address] |} address)
                     (servers (state w) ++ [l]))
                  (set_servers (servers (state w) ++ [l]) (state w));
       heap := <[l := as_ServerInfo data address isDefault]> (heap w);
       log := log w ++ [GetPublicSystemInfo address] |}.
  split; [reflexivity|]. simpl.
  split; [done|]. split; [done|]. split; [apply lookup_insert_eq|].
  split.
  { intros l' Hl'. apply lookup_insert_ne. intros ->. done. }
  do 4 (split; [done|]).
  split.
  { apply (connectServer_selects w serverUrl isDefault data None _ Hrun' Hwiz). }
  intros Hnoaddr.
  assert (find_by_address
            {| state := set_servers (servers (state w) ++ [l]) (state w);
               heap := <[l := as_ServerInfo data address isDefault]> (heap w);
               log := log w ++ [GetPublicSystemInfo address] |} address = Some l) as Hfind.
  { unfold find_by_address. simpl. apply find_app_None_l.
    - apply Forall_forall. intros x Hx. rewrite Forall_forall in Hnoaddr.
      specialize (Hnoaddr x Hx). simpl in Hnoaddr.
      unfold deref. rewrite lookup_insert_ne by (intros ->; done).
      by apply String.eqb_neq.
    - unfold deref. rewrite lookup_insert_eq. simpl. apply String.eqb_refl. }
  rewrite Hfind. simpl. rewrite indexOf_last_new by done.
  split; [|done]. unfold currentServer. simpl.
  unfold at_index.
  assert ((Z.of_nat (length (servers (state w))) <? 0) = false) as -> by (apply Z.ltb_ge; lia).
  rewrite Nat2Z.id, lookup_app_r by lia. by rewrite Nat.sub_diag.
Qed.

Lemma connectServer_registers_new_server_witness :
  let w := Sample.two_users in
  let data := Sample.system_info "S2" "10.8.0" in
  registry_allocated w /\
  exists w',
    connectServer "http://two.example/" true (Resolved data) w = (Normal None, w') /\
    servers (state w') = [0%nat; 1%nat] /\
    currentServer w' = Some 1%nat.
Proof.
  intros w data.
  assert (registry_allocated w) as Hwf.
  { apply reachable_allocated, reachable_after_all, reachable_connected. }
  split; [exact Hwf|].
  destruct (connectServer_registers_new_server w "http://two.example/" true data Hwf
              eq_refl eq_refl) as (w' & Hrun & Hs & _ & _ & _ & _ & _ & _ & _ & _ & Hcur).
  { vm_compute. repeat constructor. discriminate. }
  exists w'. split; [exact Hrun|]. split; [rewrite Hs; reflexivity|].
  apply Hcur. vm_compute. repeat constructor. discriminate.
Defined.

(** ** loginUser: the current server *)

Lemma at_index_None {A} (l : list A) (i : Z) :
  at_index l i = None <-> i < 0 \/ Z.of_nat (length l) <= i.
Proof.
  unfold at_index. destruct (i <? 0) eqn:E.
  - apply Z.ltb_lt in E. split; auto.
  - apply Z.ltb_ge in E. rewrite lookup_ge_None. split.
    + intros H. right. lia.
    + intros [H|H]; lia.
Qed.

(** X4. [loginUser] throws [NoCurrentServer] exactly when the server selector
    is out of the registry (negative, or at or past its length, as it is
    left by [deleteServer]); then no request is made and the world is as
    before. Otherwise it asks the current server's address once and ends
    normally, whatever the reply. *)
Theorem loginUser_requires_current_server w username password remember response :
  let out_of_range :=
    currentServerIndex (state w) < 0 \/
    Z.of_nat (length (servers (state w))) <= currentServerIndex (state w) in
  (out_of_range ->
     loginUser username password remember response w = (Throw NoCurrentServer, w)) /\
  (~ out_of_range ->
     exists l rest,
       currentServer w = Some l /\
       fst (loginUser username password remember response w) = Normal tt /\
       log (snd (loginUser username password remember response w)) =
         log w ++ AuthenticateUserByName (PublicAddress (deref (heap w) l)) username password
                  :: rest /\
       forall address u p, AuthenticateUserByName address u p ∉ rest).
Proof.
  intros out_of_range. split.
  - intros H. apply loginUser_no_current_server. by apply at_index_None.
  - intros H. destruct (currentServer w) as [l|] eqn:Hs.
    2: { exfalso. apply H. by apply at_index_None. }
    unfold loginUser. run. rewrite Hs. simpl.
    destruct response as [data|error]; simpl.
    + exists l, []. split; [done|].
      destruct (User data) as [| |user]; simpl; try (repeat split; try done; intros ? ? ? Hin; by apply elem_of_nil in Hin).
      destruct (AccessToken data) as [| |token]; simpl; try (repeat split; try done; intros ? ? ? Hin; by apply elem_of_nil in Hin).
      destruct (truthy (user_Id user)); simpl; try (repeat split; try done; intros ? ? ? Hin; by apply elem_of_nil in Hin).
      destruct (negb (String.eqb token "")); simpl; repeat split; try done; intros ? ? ? Hin; by apply elem_of_nil in Hin.
    + destruct error as [e|d]; simpl.
      * exists l, [Snackbar (errorMessage e) "error"]. split; [done|]. split; [done|].
        split; [by rewrite <- app_assoc|].
        intros ? ? ? Hin. apply list_elem_of_singleton in Hin. discriminate.
      * exists l, []. repeat split; try done. intros ? ? ? Hin. by apply elem_of_nil in Hin.
Qed.

Lemma loginUser_requires_current_server_witness :
  let w := Sample.current_user_without_server in
  (currentServerIndex (state w) < 0 \/
   Z.of_nat (length (servers (state w))) <= currentServerIndex (state w)) /\
  loginUser "carol" "pw" true (Sample.authenticated Sample.carol_on_S2 "t5") w =
    (Throw NoCurrentServer, w).
Proof.
  intros w.
  assert (currentServerIndex (state w) < 0 \/
          Z.of_nat (length (servers (state w))) <= currentServerIndex (state w)) as H.
  { right. vm_compute. discriminate. }
  split; [exact H|].
  exact (proj1 (loginUser_requires_current_server w "carol" "pw" true
                  (Sample.authenticated Sample.carol_on_S2 "t5")) H).
Defined.

(** ** loginUser and logoutCurrentUser together *)

Lemma currentUser_signed_in user token s :
  currentUser (signed_in user token s) = Some user.
Proof. unfold currentUser. simpl. apply at_index_last. Qed.

(** X5. After a successful [loginUser] the token of the current user, as
    [currentUserToken] reads it, is the token of the reply; the token kept
    under any other identifier is as before; the users that were
    registered keep their places; [rememberMe] is the argument. *)
Theorem loginUser_stores_current_token w l username password remember user token :
  currentServer w = Some l ->
  truthy (user_Id user) = true -> token <> "" ->
  let w' := snd (loginUser username password remember
                   (Resolved {| User := JsVal user; AccessToken := JsVal token |}) w) in
  currentUserToken (state w') = Some token /\
  getUserAccessToken (state w') (Some user) = Some token /\
  (forall k, k <> ToString (user_Id user) ->
     accessTokens (state w') !! k = accessTokens (state w) !! k) /\
  (forall i u, users (state w) !! i = Some u -> users (state w') !! i = Some u) /\
  rememberMe (state w') = remember /\
  currentServer w' = Some l.
Proof.
  intros Hs Hid Ht w'. unfold w'. rewrite (loginUser_signs_in w l) by done. simpl.
  unfold currentUserToken. rewrite currentUser_signed_in.
  assert (getUserAccessToken (signed_in user token (set_rememberMe remember (state w)))
            (Some user) = Some token) as Htok.
  { simpl. rewrite Hid. apply lookup_insert_eq. }
  split; [exact Htok|]. split; [exact Htok|].
  split; [intros k Hk; by apply lookup_insert_ne|].
  split; [intros i u Hi; by apply lookup_app_l_Some|].
  split; [done|]. exact Hs.
Qed.

Lemma loginUser_stores_current_token_witness :
  currentServer Sample.connected = Some 0%nat /\
  currentUserToken (state (snd (loginUser "alice" "pw" true
     (Resolved {| User := JsVal Sample.alice; AccessToken := JsVal "t1" |})
     Sample.connected))) = Some "t1".
Proof.
  split; [reflexivity|].
  exact (proj1 (loginUser_stores_current_token Sample.connected 0%nat "alice" "pw" true
                  Sample.alice "t1" eq_refl eq_refl ltac:(discriminate))).
Defined.

Lemma forget_last_new user s token :
  Forall (fun u => user_Id u <> user_Id user) (users s) ->
  users (forget user (signed_in user token s)) = users s.
Proof.
  intros Hnew.
  destruct (forget_users user (signed_in user token s))
    as [[Hnone _]|(before & su & after & Hsplit & Hb & Hsu & ->)].
  - exfalso. simpl in Hnone. apply Forall_app in Hnone as [_ Hnone].
    apply Forall_cons in Hnone as [Hnone _]. exact (Hnone eq_refl).
  - simpl in Hsplit.
    destruct (first_split_unique (fun v => user_Id v = user_Id user)
                (users s) before [] after user su Hsplit Hnew eq_refl Hb Hsu)
      as (<- & _ & <-).
    by rewrite app_nil_r.
Qed.

(** X6. Signing a user in and then signing the current user out undoes the
    sign-in in the registry and the token map, provided no registered user
    carried the identifier and no token was kept under it: users and tokens
    are as before the sign-in. The user selector is not restored: it is left
    at -1. The end-of-session request, unless skipped, carries the token of
    the reply. *)
Theorem loginUser_then_logoutCurrentUser w l username password remember user token skipRequest :
  currentServer w = Some l ->
  truthy (user_Id user) = true -> token <> "" ->
  Forall (fun u => user_Id u <> user_Id user) (users (state w)) ->
  accessTokens (state w) !! ToString (user_Id user) = None ->
  let w1 := snd (loginUser username password remember
                   (Resolved {| User := JsVal user; AccessToken := JsVal token |}) w) in
  let w2 := snd (logoutCurrentUser skipRequest w1) in
  users (state w2) = users (state w) /\
  accessTokens (state w2) = accessTokens (state w) /\
  currentUserIndex (state w2) = -1 /\
  servers (state w2) = servers (state w) /\
  currentServerIndex (state w2) = currentServerIndex (state w) /\
  log w2 = log w1 ++
    (if skipRequest then []
     else [SessionLogout (PublicAddress (deref (heap w) l)) (Some token)]).
Proof.
  intros Hs Hid Ht Hnew Hnotok w1 w2.
  assert (w1 = {| state := signed_in user token (set_rememberMe remember (state w));
                  heap := heap w;
                  log := log w ++ [AuthenticateUserByName (PublicAddress (deref (heap w) l))
                                     username password] |}) as Hw1.
  { unfold w1. by rewrite (loginUser_signs_in w l). }
  assert (currentUser (state w1) = Some user) as Hu
    by (rewrite Hw1; apply currentUser_signed_in).
  assert (currentServer w1 = Some l) as Hl by (rewrite Hw1; exact Hs).
  assert (w2 = {| state := set_currentUserIndex (-1) (forget user (state w1));
                  heap := heap w1;
                  log := if skipRequest then log w1
                         else log w1 ++ [SessionLogout (PublicAddress (deref (heap w1) l))
                                           (getUserAccessToken (state w1) (Some user))] |})
    as ->.
  { unfold w2. by rewrite logoutCurrentUser_eq, Hu, Hl. }
  cbn [state heap log]. rewrite Hw1. cbn [state heap log].
  split.
  { change (users (forget user (signed_in user token (set_rememberMe remember (state w)))) =
            users (set_rememberMe remember (state w))).
    by apply forget_last_new. }
  split; [simpl; apply delete_insert_id; exact Hnotok|].
  split; [reflexivity|]. split; [reflexivity|]. split; [reflexivity|].
  destruct skipRequest; [by rewrite app_nil_r|].
  simpl. rewrite Hid. by rewrite lookup_insert_eq.
Qed.

Lemma loginUser_then_logoutCurrentUser_witness :
  let w := Sample.connected in
  let w1 := snd (loginUser "alice" "pw" true
                   (Resolved {| User := JsVal Sample.alice; AccessToken := JsVal "t1" |}) w) in
  currentServer w = Some 0%nat /\
  users (state (snd (logoutCurrentUser false w1))) = users (state w) /\
  accessTokens (state (snd (logoutCurrentUser false w1))) = accessTokens (state w).
Proof.
  intros w w1. split; [reflexivity|].
  destruct (loginUser_then_logoutCurrentUser w 0%nat "alice" "pw" true Sample.alice "t1" false
              eq_refl eq_refl ltac:(discriminate) ltac:(constructor) eq_refl)
    as (H1 & H2 & _).
  split; [exact H1|exact H2].
Defined.

(** ** logoutCurrentUser *)

(** X7. [logoutCurrentUser] does nothing at all unless there are both a
    current user and a current server. When there are, it fires the
    end-of-session request at the current server's address with the user's
    token (unless skipped), and afterwards there is no current user, no
    current-user token, and no token under that user's identifier; the
    server registry and the server selector are untouched. *)
Theorem logoutCurrentUser_leaves_no_current_user w skipRequest :
  let w' := snd (logoutCurrentUser skipRequest w) in
  fst (logoutCurrentUser skipRequest w) = Normal tt /\
  ((currentUser (state w) = None \/ currentServer w = None) -> w' = w) /\
  (forall u l, currentUser (state w) = Some u -> currentServer w = Some l ->
     currentUser (state w') = None /\
     currentUserToken (state w') = None /\
     accessTokens (state w') !! ToString (user_Id u) = None /\
     currentUserIndex (state w') = -1 /\
     servers (state w') = servers (state w) /\
     currentServerIndex (state w') = currentServerIndex (state w) /\
     heap w' = heap w /\
     log w' = (if skipRequest then log w
               else log w ++ [SessionLogout (PublicAddress (deref (heap w) l))
                                (getUserAccessToken (state w) (Some u))])).
Proof.
  intros w'. unfold w'. rewrite logoutCurrentUser_eq. split; [|split].
  - destruct (currentUser (state w)), (currentServer w); done.
  - intros [-> | ->]; [done|]. by destruct (currentUser (state w)).
  - intros u l -> ->. cbn [snd state heap log].
    unfold currentUserToken, currentUser. simpl. split; [done|]. split; [done|].
    split; [apply lookup_delete_eq|]. done.
Qed.

Lemma logoutCurrentUser_leaves_no_current_user_witness :
  currentUser (state Sample.two_users) = Some Sample.bob /\
  currentServer Sample.two_users = Some 0%nat /\
  currentUser (state (snd (logoutCurrentUser false Sample.two_users))) = None.
Proof.
  split; [reflexivity|]. split; [reflexivity|].
  exact (proj1 (proj2 (proj2 (logoutCurrentUser_leaves_no_current_user Sample.two_users false))
                  Sample.bob 0%nat eq_refl eq_refl)).
Defined.

(** X8. [logoutCurrentUser] is idempotent: called again, with any
    [skipRequest], it changes nothing and asks nothing. *)
Theorem logoutCurrentUser_twice w skipRequest skipAgain :
  logoutCurrentUser skipAgain (snd (logoutCurrentUser skipRequest w)) =
    (Normal tt, snd (logoutCurrentUser skipRequest w)).
Proof.
  rewrite (logoutCurrentUser_eq skipRequest w).
  destruct (currentUser (state w)) as [u|] eqn:Hu.
  - destruct (currentServer w) as [l|] eqn:Hl; simpl.
    + rewrite logoutCurrentUser_eq. reflexivity.
    + rewrite logoutCurrentUser_eq, Hu, Hl. reflexivity.
  - simpl. rewrite logoutCurrentUser_eq, Hu. reflexivity.
Qed.

(** ** logoutUser for a user that is not registered *)

(** X9. In a store where every token key is the identifier of a registered
    user, [logoutUser] for a user whose identifier no registered user
    carries changes nothing of the store; only the end-of-session request
    is fired (with no token), unless skipped. *)
Theorem logoutUser_unknown_user w user server skipRequest k :
  tokens_have_users (state w) ->
  user_Id user = JsVal k ->
  Forall (fun u => user_Id u <> user_Id user) (users (state w)) ->
  logoutUser user server skipRequest w =
    (Normal tt,
     {| state := state w; heap := heap w;
        log := if skipRequest then log w
               else log w ++ [SessionLogout (PublicAddress server) None] |}).
Proof.
  intros HI Hid Hnone. rewrite logoutUser_eq.
  assert (accessTokens (state w) !! k = None) as Hk.
  { destruct (accessTokens (state w) !! k) as [t|] eqn:E; [|done].
    destruct (HI k (mk_is_Some _ _ E)) as (v & Hv & Hvid).
    rewrite Forall_forall in Hnone. exfalso. apply (Hnone v Hv). congruence. }
  assert (forget user (state w) = state w) as ->.
  { unfold forget. rewrite Hid. simpl. rewrite delete_id by done.
    assert (find (fun u => bool_decide (user_Id u = JsVal k)) (users (state w)) = None) as ->.
    { apply find_None. eapply Forall_impl; [exact Hnone|]. intros u Hu. simpl in Hu.
      apply bool_decide_eq_false. congruence. }
    by destruct (state w). }
  assert (getUserAccessToken (state w) (Some user) = None) as ->.
  { simpl. rewrite Hid. simpl. by destruct (negb _). }
  reflexivity.
Qed.

Lemma logoutUser_unknown_user_witness :
  let w := after (LogoutUser Sample.alice blank true) Sample.two_users in
  tokens_have_users (state w) /\
  users (state w) = [Sample.bob] /\
  state (snd (logoutUser Sample.carol_on_S2 blank false w)) = state w.
Proof.
  intros w.
  assert (reachable w) as Hw
    by apply reachable_step, reachable_after_all, reachable_connected.
  assert (tokens_have_users (state w)) as HI
    by (apply (reachable_keeps tokens_have_users); [apply tokens_have_users_defaults|exact Hw]).
  split; [exact HI|]. split; [reflexivity|].
  rewrite (logoutUser_unknown_user w Sample.carol_on_S2 blank false "u1" HI eq_refl).
  - reflexivity.
  - vm_compute. repeat constructor. discriminate.
Defined.

(** ** deleteServer: what it leaves alone *)

Lemma first_split_suffix {A} (Q : A -> Prop) (before after k1 k2 : list A) su v :
  before ++ su :: after = k1 ++ v :: k2 ->
  Forall (fun y => ~ Q y) before -> Q v ->
  exists m, after = m ++ k2.
Proof.
  revert k1. induction before as [|b before IH]; intros [|y k1] Heq Hb Hv; simpl in Heq.
  - injection Heq as _ ->. by exists [].
  - injection Heq as _ ->. by exists (k1 ++ [v]); rewrite <- app_assoc.
  - injection Heq as -> _. apply Forall_cons in Hb as [Hn _]. done.
  - injection Heq as _ Heq. apply Forall_cons in Hb as [_ Hb]. by apply (IH k1).
Qed.

(** Signing out a sublist of the registry takes out as many records as the
    sublist has, whatever identifiers are shared. *)
Lemma forget_each_length vs s :
  vs `sublist_of` users s ->
  (length (users (foldl (fun s u => forget u s) s vs)) + length vs = length (users s))%nat.
Proof.
  revert s. induction vs as [|v vs IH]; intros s Hsub; [simpl; lia|].
  simpl. apply sublist_cons_l in Hsub as (k1 & k2 & Hus & Hvs).
  destruct (forget_users v s) as [[Hnone _]|(before & su & after & Hsplit & Hb & Hsu & Hrest)].
  - exfalso. rewrite Hus in Hnone. apply Forall_app in Hnone as [_ Hnone].
    apply Forall_cons in Hnone as [Hnone _]. done.
  - rewrite Hsplit in Hus.
    destruct (first_split_suffix (fun y => user_Id y = user_Id v) before after k1 k2 su v
                Hus Hb eq_refl) as (m & Hafter).
    assert (vs `sublist_of` users (forget v s)) as Hsub'.
    { rewrite Hrest, Hafter. apply sublist_inserts_l. by apply sublist_inserts_l. }
    pose proof (IH (forget v s) Hsub') as Hlen.
    rewrite Hrest in Hlen. rewrite Hsplit. rewrite !length_app in *. simpl. lia.
Qed.

(** X10. [deleteServer] for a registered address, awaited, takes exactly as
    many records out of the user registry as the server had users, also
    when identifiers are shared with users of other servers; it deletes the
    tokens under the identifiers of the server's users and leaves the token
    under every other identifier as it was; [rememberMe] is untouched. *)
Theorem deleteServer_frame w serverUrl l :
  find_by_address w serverUrl = Some l ->
  let owned := getUsersFromServer (state w) (Some (deref (heap w) l)) in
  let w' := after (DeleteServer serverUrl) w in
  (length (users (state w')) + length owned = length (users (state w)))%nat /\
  (forall k, (forall u, u ∈ owned -> ToString (user_Id u) <> k) ->
     accessTokens (state w') !! k = accessTokens (state w) !! k) /\
  (forall u, u ∈ owned -> accessTokens (state w') !! ToString (user_Id u) = None) /\
  rememberMe (state w') = rememberMe (state w).
Proof.
  intros Hf owned w'. unfold w', after.
  rewrite (perform_deleteServer_found w serverUrl l Hf), finish_eq.
  fold owned. cbn [snd state]. rewrite logout_each_state. simpl.
  split; [|split; [|split]].
  - apply forget_each_length. unfold owned, getUsersFromServer. apply sublist_filter.
  - intros k Hk. by apply forget_each_other_tokens.
  - intros u Hu. by apply forget_each_tokens.
  - by destruct (forget_each_frame owned (state w)) as (_ & _ & _ & ->).
Qed.

Lemma deleteServer_frame_witness :
  let w := Sample.same_id_on_two_servers in
  let w' := after (DeleteServer "http://two.example") w in
  find_by_address w "http://two.example" = Some 1%nat /\
  length (users (state w)) = 2%nat /\
  length (users (state w')) = 1%nat.
Proof.
  intros w w'. split; [reflexivity|]. split; [reflexivity|].
  pose proof (proj1 (deleteServer_frame w "http://two.example" 1%nat eq_refl)) as H.
  change (length (users (state w')) + 1 = 2)%nat in H. lia.
Defined.

Lemma perform_deleteServer_servers w serverUrl l :
  find_by_address w serverUrl = Some l ->
  let w' := after (DeleteServer serverUrl) w in
  servers (state w') = splice1 (indexOf l (servers (state w))) (servers (state w)) /\
  heap w' = heap w.
Proof.
  intros Hf w'. unfold w', after.
  rewrite (perform_deleteServer_found w serverUrl l Hf), finish_eq.
  cbn [snd state heap]. rewrite logout_each_state, logout_each_heap. simpl.
  by destruct (forget_each_frame (getUsersFromServer (state w) (Some (deref (heap w) l)))
                 (state w)) as (-> & _).
Qed.

(** X11. When exactly one registry entry is at the address, a second
    [deleteServer] for that address throws [ServerUnknown] and changes
    nothing. *)
Theorem deleteServer_twice w serverUrl before l behind :
  servers (state w) = before ++ l :: behind ->
  PublicAddress (deref (heap w) l) = serverUrl ->
  Forall (fun x => PublicAddress (deref (heap w) x) <> serverUrl) before ->
  Forall (fun x => PublicAddress (deref (heap w) x) <> serverUrl) behind ->
  let w' := after (DeleteServer serverUrl) w in
  servers (state w') = before ++ behind /\
  perform (DeleteServer serverUrl) w' = (Throw ServerUnknown, w').
Proof.
  intros Hs Hl Hb Ha w'.
  assert (find_by_address w serverUrl = Some l) as Hf.
  { unfold find_by_address. rewrite Hs. unfold find.
    assert (list_find (fun x => String.eqb (PublicAddress (deref (heap w) x)) serverUrl = true)
              (before ++ l :: behind) = Some (length before, l)) as ->; [|done].
    apply list_find_Some. split; [|split].
    - rewrite lookup_app_r by lia. by rewrite Nat.sub_diag.
    - by apply String.eqb_eq.
    - intros j y Hj Hlt. rewrite lookup_app_l in Hj by done.
      rewrite Forall_forall in Hb. intros Hy. apply String.eqb_eq in Hy.
      apply (Hb y); [|done]. eapply list_elem_of_lookup_2. done. }
  destruct (perform_deleteServer_servers w serverUrl l Hf) as (Hsv & Hh).
  fold w' in Hsv, Hh.
  assert (servers (state w') = before ++ behind) as Hs'.
  { rewrite Hsv, Hs. rewrite (indexOf_first (before ++ l :: behind) before l behind eq_refl).
    - by apply (splice1_at (before ++ l :: behind) before l behind).
    - intros Hin. rewrite Forall_forall in Hb. by apply (Hb l). }
  split; [exact Hs'|].
  apply deleteServer_unknown_address. rewrite Hs', Hh.
  apply Forall_app. done.
Qed.

Lemma deleteServer_twice_witness :
  let w := Sample.same_id_on_two_servers in
  let w' := after (DeleteServer "http://one.example") w in
  servers (state w) = [] ++ 0%nat :: [1%nat] /\
  servers (state w') = [1%nat] /\
  perform (DeleteServer "http://one.example") w' = (Throw ServerUnknown, w').
Proof.
  intros w w'. split; [reflexivity|].
  apply (deleteServer_twice w "http://one.example" [] 0%nat [1%nat]).
  - reflexivity.
  - reflexivity.
  - constructor.
  - vm_compute. repeat constructor. discriminate.
Defined.

(** ** connectServer for a registered server: its users *)

Lemma forget_each_set_servers vs l s :
  foldl (fun s u => forget u s) (set_servers l s) vs =
  set_servers l (foldl (fun s u => forget u s) s vs).
Proof. revert s. induction vs as [|v vs IH]; intros s; [done|]. simpl. by rewrite <- IH. Qed.

Lemma forget_each_set_currentServerIndex vs i s :
  foldl (fun s u => forget u s) (set_currentServerIndex i s) vs =
  set_currentServerIndex i (foldl (fun s u => forget u s) s vs).
Proof. revert s. induction vs as [|v vs IH]; intros s; [done|]. simpl. by rewrite <- IH. Qed.

Lemma find_by_address_log s h l l' serverUrl :
  find_by_address {| state := s; heap := h; log := l |} serverUrl =
  find_by_address {| state := s; heap := h; log := l' |} serverUrl.
Proof. reflexivity. Qed.

(** The users and tokens after [connectServer] for a registered server,
    its [deleteServer] run to the end. *)
Lemma connectServer_again_users w serverUrl isDefault data old l0 :
  isServerVersionSupported (info_Version data) = true ->
  truthy_bool (info_StartupWizardCompleted data) = true ->
  getServerById w (info_Id data) = Some old ->
  find_by_address w (PublicAddress (deref (heap w) old)) = Some l0 ->
  let owned := getUsersFromServer (state w) (Some (deref (heap w) l0)) in
  let w' := after (ConnectServer serverUrl isDefault (Resolved data)) w in
  users (state w') = users (foldl (fun s u => forget u s) (state w) owned) /\
  accessTokens (state w') = accessTokens (foldl (fun s u => forget u s) (state w) owned) /\
  currentUserIndex (state w') = currentUserIndex (state w).
Proof.
  intros Hv Hwiz Hold Hf owned w'.
  set (Q := fun wf : World =>
              users (state wf) = users (foldl (fun s u => forget u s) (state w) owned) /\
              accessTokens (state wf) =
                accessTokens (foldl (fun s u => forget u s) (state w) owned) /\
              currentUserIndex (state wf) = currentUserIndex (state w)).
  change (Q w'). unfold w', after, perform, connectServer. run. rewrite Hv. simpl.
  rewrite Hwiz. simpl.
  unfold getServerById in Hold |- *. simpl. rewrite Hold. simpl.
  unfold deleteServer. run. unfold find_by_address in Hf |- * at 1. simpl. rewrite Hf. simpl.
  fold owned. destruct owned as [|u rest] eqn:Hown; simpl.
  - unfold Q. simpl. done.
  - run. rewrite logoutUser_eq. simpl. rewrite finish_eq. unfold Q. simpl.
    rewrite logout_each_state. simpl.
    rewrite forget_each_set_currentServerIndex, forget_each_set_servers. simpl.
    destruct (forget_each_frame rest (forget u (state w))) as (_ & _ & -> & _). done.
Qed.

(** X12. [connectServer] for a server that is already registered signs its
    users out: it calls [deleteServer] for the address the record had, so,
    once that has run to its end, every user of the first record at that
    address has lost the token under its identifier, as many user records
    as it had users are gone, and, when no other server's user shares an
    identifier with them, exactly they are gone. The user selector is left
    where it was. *)
Theorem connectServer_again_signs_users_out w serverUrl isDefault data old l0 :
  isServerVersionSupported (info_Version data) = true ->
  truthy_bool (info_StartupWizardCompleted data) = true ->
  getServerById w (info_Id data) = Some old ->
  find_by_address w (PublicAddress (deref (heap w) old)) = Some l0 ->
  let server := deref (heap w) l0 in
  let owned := getUsersFromServer (state w) (Some server) in
  let w' := after (ConnectServer serverUrl isDefault (Resolved data)) w in
  (forall u, u ∈ owned -> accessTokens (state w') !! ToString (user_Id u) = None) /\
  (length (users (state w')) + length owned = length (users (state w)))%nat /\
  currentUserIndex (state w') = currentUserIndex (state w) /\
  ((forall u v, u ∈ users (state w) -> v ∈ users (state w) ->
      user_ServerId u = Id server -> user_Id v = user_Id u -> user_ServerId v = Id server) ->
   users (state w') = filter (fun u => user_ServerId u <> Id server) (users (state w))).
Proof.
  intros Hv Hwiz Hold Hf server owned w'.
  destruct (connectServer_again_users w serverUrl isDefault data old l0 Hv Hwiz Hold Hf)
    as (Hu & Ht & Hc).
  fold server in Hu, Ht. fold owned in Hu, Ht. fold w' in Hu, Ht, Hc.
  split; [|split; [|split]].
  - intros u Hin. rewrite Ht. by apply forget_each_tokens.
  - rewrite Hu. apply forget_each_length. unfold owned, getUsersFromServer. apply sublist_filter.
  - exact Hc.
  - intros Hids. rewrite Hu. unfold owned, getUsersFromServer. simpl Id_of.
    apply (forget_each_users (fun u => user_ServerId u = Id server) [] (users (state w))).
    + done.
    + intros u v Hu' HPu Hv' Hid. simpl in Hv'. by apply (Hids u v).
    + constructor.
Qed.

Lemma connectServer_again_signs_users_out_witness :
  let w := Sample.two_users in
  let w' := after (ConnectServer "https://one.example" false
                     (Resolved (Sample.system_info "S1" "10.9.0"))) w in
  getServerById w (JsVal "S1") = Some 0%nat /\
  find_by_address w (PublicAddress (deref (heap w) 0%nat)) = Some 0%nat /\
  length (users (state w)) = 2%nat /\
  length (users (state w')) = 0%nat /\
  accessTokens (state w') !! "u1" = None.
Proof.
  intros w w'. do 3 (split; [reflexivity|]).
  destruct (connectServer_again_signs_users_out w "https://one.example" false
              (Sample.system_info "S1" "10.9.0") 0%nat 0%nat eq_refl eq_refl eq_refl eq_refl)
    as (Htok & Hlen & _).
  fold w' in Htok, Hlen. split.
  - change (length (users (state w')) + 2 = 2)%nat in Hlen. lia.
  - apply (Htok Sample.alice). vm_compute. left.
Defined.

(** ** The hook on unreachable servers *)

(** X13. [serverUnreachableInterceptor] always throws the error it was
    given. Unless the error's code is "ERR_NETWORK" it does nothing else.
    When it is, it does to the store what [logoutCurrentUser] with the
    request skipped does (the current user is signed out if there are a
    current user and a current server), and it notifies "serverNotFound",
    also when nobody was signed out. It never fires a request, and it has
    no exemption for the sign-out endpoint. *)
Theorem serverUnreachableInterceptor_signs_out_locally error w :
  let w' := snd (serverUnreachableInterceptor error w) in
  fst (serverUnreachableInterceptor error w) = Throw (Rethrown (FromAxios error)) /\
  (code error <> Some "ERR_NETWORK" -> w' = w) /\
  (code error = Some "ERR_NETWORK" ->
     state w' = state (snd (logoutCurrentUser true w)) /\
     heap w' = heap w /\
     log w' = log w ++ [Snackbar (Translated "serverNotFound") "error"]) /\
  (forall u l, code error = Some "ERR_NETWORK" ->
     currentUser (state w) = Some u -> currentServer w = Some l ->
     currentUser (state w') = None /\
     accessTokens (state w') !! ToString (user_Id u) = None).
Proof.
  intros w'. unfold w', serverUnreachableInterceptor. run.
  destruct (decide (code error = Some "ERR_NETWORK")) as [Hc|Hc].
  - rewrite bool_decide_eq_true_2 by done.
    rewrite logoutCurrentUser_eq.
    destruct (currentUser (state w)) as [u|] eqn:Hu;
      [destruct (currentServer w) as [l|] eqn:Hl|]; simpl.
    + split; [done|]. split; [done|]. split; [done|].
      intros u' l' _ [= <-] _. split; [done|]. apply lookup_delete_eq.
    + split; [done|]. split; [done|]. split; [done|]. intros u' l' _ _ [=].
    + split; [done|]. split; [done|]. split; [done|]. intros u' l' _ [=].
  - rewrite bool_decide_eq_false_2 by done. simpl.
    split; [done|]. split; [done|]. split; [done|]. done.
Qed.

Lemma serverUnreachableInterceptor_signs_out_locally_witness :
  let error := {| response_status := None; config_url := Some "/Sessions/Logout";
                  code := Some "ERR_NETWORK"; error_message := "Network Error" |} in
  code error = Some "ERR_NETWORK" /\
  currentUser (state Sample.two_users) = Some Sample.bob /\
  currentUser (state (snd (serverUnreachableInterceptor error Sample.two_users))) = None.
Proof.
  intros error. split; [reflexivity|]. split; [reflexivity|].
  exact (proj1 (proj2 (proj2 (proj2
           (serverUnreachableInterceptor_signs_out_locally error Sample.two_users)))
           Sample.bob 0%nat eq_refl eq_refl eq_refl)).
Defined.

(** ** The interceptors on the shared client *)

Lemma logoutInterceptor_rethrows r error w :
  fst (logoutInterceptor r error w) = Throw (Rethrown (FromAxios error)).
Proof.
  unfold logoutInterceptor. run.
  match goal with |- context [if ?b then _ else _] => destruct b end; [|done].
  rewrite logoutCurrentUser_eq.
  by destruct (currentUser (state w)), (currentServer w).
Qed.

Lemma serverUnreachableInterceptor_rethrows error w :
  fst (serverUnreachableInterceptor error w) = Throw (Rethrown (FromAxios error)).
Proof.
  unfold serverUnreachableInterceptor. run.
  match goal with |- context [if ?b then _ else _] => destruct b end; [|done].
  rewrite logoutCurrentUser_eq.
  by destruct (currentUser (state w)), (currentServer w).
Qed.

Lemma installed_app {H} (m1 m2 : list (option H)) :
  installed (m1 ++ m2) = installed m1 ++ installed m2.
Proof. unfold installed. apply omap_app. Qed.

Lemma eject_last {H} (m : list (option H)) (h : H) :
  eject (Z.of_nat (length m)) (m ++ [Some h]) = m ++ [None].
Proof.
  unfold eject. assert ((Z.of_nat (length m) <? 0) = false) as -> by (apply Z.ltb_ge; lia).
  rewrite Nat2Z.id. induction m as [|x m IH]; simpl; [done|]. by rewrite IH.
Qed.

Lemma eject_sentinel {H} (m : list (option H)) : eject (-1) m = m.
Proof. reflexivity. Qed.

Lemma request_handlers_run excluded url m sh :
  foldr (run_request_handler excluded url) sh m =
  {| session := session sh;
     loading := loading sh ++
       (if counts_for_loading excluded url
        then replicate (length (installed m)) LoadingStart else []) |}.
Proof.
  induction m as [|h m IH]; simpl.
  - destruct (counts_for_loading excluded url); simpl; rewrite app_nil_r; by destruct sh.
  - rewrite IH. destruct h as [[]|]; simpl; [|done].
    unfold startLoadInterceptor. destruct (counts_for_loading excluded url); simpl; [|done].
    rewrite <- app_assoc. f_equal. f_equal.
    change (replicate (length (installed m)) LoadingStart ++ [LoadingStart] =
            replicate (S (length (installed m))) LoadingStart).
    by rewrite replicate_S_end.
Qed.

(** The stop handlers installed. *)
Lemma response_handlers_answer excluded r url m sh :
  foldl (fun now h => run_response_handler excluded r h now) (Answered url, sh) m =
  (Answered url,
   {| session := session sh;
      loading := loading sh ++
        (if counts_for_loading excluded url
         then replicate (length (filter (fun h => h = StopLoad) (installed m))) LoadingFinish
         else []) |}).
Proof.
  revert sh. induction m as [|h m IH]; intros sh; simpl.
  - destruct (counts_for_loading excluded url); simpl; rewrite app_nil_r; by destruct sh.
  - destruct h as [[| |]|]; simpl; rewrite IH; simpl; try done.
    unfold stopLoadInterceptor.
    destruct (counts_for_loading excluded url); simpl; [|done].
    by rewrite <- app_assoc.
Qed.

(** What the failure handlers installed do to the session, in order. *)
Lemma response_handlers_failure excluded r error m sh :
  foldl (fun now h => run_response_handler excluded r h now) (Faulted error, sh) m =
  (Faulted error,
   {| session :=
        foldl (fun w h =>
                 match h with
                 | StopLoad => w
                 | LogoutOn401 => snd (logoutInterceptor r error w)
                 | LogoutOnUnreachable => snd (serverUnreachableInterceptor error w)
                 end) (session sh) (installed m);
      loading := loading sh |}).
Proof.
  revert sh. induction m as [|h m IH]; intros sh; simpl.
  - by destruct sh.
  - destruct h as [[| |]|]; simpl.
    + apply IH.
    + pose proof (logoutInterceptor_rethrows r error (session sh)) as Hre.
      destruct (logoutInterceptor r error (session sh)) as [c w1]. simpl in Hre. subst c.
      simpl. rewrite IH. done.
    + pose proof (serverUnreachableInterceptor_rethrows error (session sh)) as Hre.
      destruct (serverUnreachableInterceptor error (session sh)) as [c w1]. simpl in Hre.
      subst c. simpl. rewrite IH. done.
    + apply IH.
Qed.

(** X14. A request on the shared client that the server answers: the
    loading indicator is started once per start hook installed and then
    finished once per stop hook installed, both under the same test of the
    request's URL (it is there, and contains none of the excluded
    endpoints), and not touched at all otherwise; the session is not
    touched. On the client as constructed a counted request gives exactly
    one start followed by one finish. *)
Theorem send_answered_balances excluded r c url sh :
  let starts := length (installed (request c)) in
  let stops := length (filter (fun h => h = StopLoad) (installed (response c))) in
  send excluded r c url None sh =
    (Answered url,
     {| session := session sh;
        loading := loading sh ++
          (if counts_for_loading excluded url
           then replicate starts LoadingStart ++ replicate stops LoadingFinish
           else []) |}) /\
  (counts_for_loading excluded url = true ->
   loading (snd (send excluded r RemotePluginAxiosInstance url None sh)) =
     loading sh ++ [LoadingStart; LoadingFinish]) /\
  (counts_for_loading excluded url = false ->
   snd (send excluded r c url None sh) = sh).
Proof.
  intros starts stops.
  assert (send excluded r c url None sh =
    (Answered url,
     {| session := session sh;
        loading := loading sh ++
          (if counts_for_loading excluded url
           then replicate starts LoadingStart ++ replicate stops LoadingFinish
           else []) |})) as Hsend.
  { unfold send. rewrite request_handlers_run, response_handlers_answer. simpl.
    destruct (counts_for_loading excluded url); simpl.
    - by rewrite <- app_assoc.
    - by rewrite !app_nil_r. }
  split; [exact Hsend|]. split.
  - intros Hc. unfold send. rewrite request_handlers_run, response_handlers_answer.
    simpl. rewrite Hc. simpl. by rewrite <- app_assoc.
  - intros Hc. rewrite Hsend. simpl. rewrite Hc, app_nil_r. by destruct sh.
Qed.

Lemma send_answered_balances_witness :
  let sh := {| session := Sample.two_users; loading := [] |} in
  counts_for_loading ["/Sessions/Playing"] (Some "/Users/u1/Items") = true /\
  loading (snd (send ["/Sessions/Playing"] AsValue RemotePluginAxiosInstance
                  (Some "/Users/u1/Items") None sh)) = [LoadingStart; LoadingFinish].
Proof.
  intros sh. split; [reflexivity|].
  exact (proj1 (proj2 (send_answered_balances ["/Sessions/Playing"] AsValue
                         RemotePluginAxiosInstance (Some "/Users/u1/Items") sh)) eq_refl).
Defined.

(** X15. A request on the shared client that fails: whatever hooks are
    installed, the failure reaches the caller as the same error; the
    loading indicator is started as for any request but never finished,
    since the stop hook is installed for responses only. On the client as
    constructed the session is what the 401 hook and then the unreachable
    hook leave of it. *)
Theorem send_failed_never_finishes excluded r c url error sh :
  let sent := send excluded r c url (Some error) sh in
  fst sent = Faulted error /\
  loading (snd sent) =
    loading sh ++ (if counts_for_loading excluded url
                   then replicate (length (installed (request c))) LoadingStart else []) /\
  (LoadingFinish ∉ drop (length (loading sh)) (loading (snd sent))) /\
  session (snd (send excluded r RemotePluginAxiosInstance url (Some error) sh)) =
    snd (serverUnreachableInterceptor error (snd (logoutInterceptor r error (session sh)))).
Proof.
  intros sent. unfold sent, send.
  rewrite !request_handlers_run, !response_handlers_failure. simpl.
  split; [done|]. split; [done|]. split; [|done].
  rewrite drop_app_length.
  destruct (counts_for_loading excluded url); [|apply not_elem_of_nil].
  intros Hin. apply elem_of_replicate in Hin as [? _]. discriminate.
Qed.

(** ** Installing and removing the interceptors *)

Lemma run_request_handlers_installed excluded url m sh :
  foldr (run_request_handler excluded url) sh m =
  foldr (fun h => run_request_handler excluded url (Some h)) sh (installed m).
Proof.
  induction m as [|[h|] m IH]; simpl; [done| |done]. by rewrite IH.
Qed.

Lemma run_response_handlers_installed excluded r m now :
  foldl (fun now h => run_response_handler excluded r h now) now m =
  foldl (fun now h => run_response_handler excluded r (Some h) now) now (installed m).
Proof.
  revert now. induction m as [|[h|] m IH]; intros now; simpl; [done|apply IH|].
  rewrite <- IH. by destruct now as [[]].
Qed.

Lemma send_installed excluded r c c' url failure sh :
  installed (request c) = installed (request c') ->
  installed (response c) = installed (response c') ->
  send excluded r c url failure sh = send excluded r c' url failure sh.
Proof.
  intros Hreq Hres. unfold send.
  rewrite !run_response_handlers_installed, !run_request_handlers_installed.
  by rewrite Hreq, Hres.
Qed.

Lemma installed_use_eject {H} (m : list (option H)) (h : H) :
  installed (eject (Z.of_nat (length m)) (m ++ [Some h])) = installed m.
Proof. rewrite eject_last, installed_app. simpl. apply app_nil_r. Qed.

(** X16. Installing a hook and removing it again cannot be observed on
    any request: whatever was installed on the client before, load hooks,
    the 401 hook or the unreachable hook that are set and then removed leave
    every request, answered or failed, with the same outcome, the same
    session and the same loading signals as before. *)
Theorem set_then_remove_is_unobservable excluded r c url failure sh :
  send excluded r (removeLoadInterceptor (setLoadInterceptor c)) url failure sh =
    send excluded r c url failure sh /\
  send excluded r (removeLogoutInterceptor (setLogoutInterceptor c)) url failure sh =
    send excluded r c url failure sh /\
  send excluded r (removeServerUnreachableInterceptor (setServerUnreachableInterceptor c))
       url failure sh =
    send excluded r c url failure sh.
Proof.
  repeat split; apply send_installed; simpl;
    try apply installed_use_eject; reflexivity.
Qed.

(** X17. [setLoadInterceptor] overwrites the handles it holds: after two
    calls in a row, [removeLoadInterceptor] removes the hooks of the second
    call only, the client then behaves on every request as after the first
    call, and no further [removeLoadInterceptor] changes anything, so the
    hooks of the first call stay installed for good. On the exported
    client, which the constructor has already set, one more
    [setLoadInterceptor] and its [removeLoadInterceptor] still leave every
    counted request starting and finishing the indicator. *)
Theorem setLoadInterceptor_again_leaks excluded r c url failure sh :
  let c2 := removeLoadInterceptor (setLoadInterceptor (setLoadInterceptor c)) in
  send excluded r c2 url failure sh =
    send excluded r (setLoadInterceptor c) url failure sh /\
  installed (request c2) = installed (request c) ++ [StartLoad] /\
  installed (response c2) = installed (response c) ++ [StopLoad] /\
  removeLoadInterceptor c2 = c2 /\
  send excluded r (removeLoadInterceptor (setLoadInterceptor RemotePluginAxiosInstance))
       url failure sh =
    send excluded r RemotePluginAxiosInstance url failure sh.
Proof.
  intros c2.
  assert (installed (request c2) = installed (request (setLoadInterceptor c))) as Hreq.
  { simpl. apply (installed_use_eject (request c ++ [Some StartLoad])). }
  assert (installed (response c2) = installed (response (setLoadInterceptor c))) as Hres.
  { simpl. apply (installed_use_eject (response c ++ [Some StopLoad])). }
  split; [by apply send_installed|].
  split; [rewrite Hreq; simpl; by rewrite installed_app|].
  split; [rewrite Hres; simpl; by rewrite installed_app|].
  split; [reflexivity|].
  apply send_installed; reflexivity.
Qed.

Lemma handle_of_sentinel {H} (m : list (option H)) h : handle_of m (-1) h.
Proof. by left. Qed.

Lemma handle_of_use {H} (m : list (option H)) id h h' :
  handle_of m id h -> handle_of (m ++ [Some h']) id h.
Proof.
  intros [->|[Hid [Hin|Hin]]]; [by left| |]; right; (split; [done|]).
  - left. by apply lookup_app_l_Some.
  - right. by apply lookup_app_l_Some.
Qed.

Lemma handle_of_new {H} (m : list (option H)) h :
  handle_of (m ++ [Some h]) (Z.of_nat (length m)) h.
Proof.
  right. split; [lia|]. left. rewrite Nat2Z.id.
  rewrite lookup_app_r by lia. by rewrite Nat.sub_diag.
Qed.

Lemma handle_of_eject {H} (m : list (option H)) j id h :
  handle_of m id h -> handle_of (eject j m) id h.
Proof.
  intros Hh. unfold eject. destruct (j <? 0); [done|].
  destruct Hh as [->|[Hid Hin]]; [by left|]. right. split; [done|].
  destruct (decide (Z.to_nat j = Z.to_nat id)) as [Heq|Hne].
  - right. rewrite Heq. apply list_lookup_insert_eq.
    destruct Hin as [Hin|Hin]; by apply lookup_lt_Some in Hin.
  - by rewrite list_lookup_insert_ne.
Qed.

Lemma handles_own_call m c : handles_own c -> handles_own (call m c).
Proof.
  intros (Hstart & Hstop & Hlogout & Hunreachable & Hreactive).
  destruct m; unfold handles_own; simpl;
    repeat split;
    auto using @handle_of_sentinel, @handle_of_use, @handle_of_new, @handle_of_eject.
Qed.

Lemma handles_own_from c ms :
  handles_own c -> handles_own (foldl (fun c m => call m c) c ms).
Proof.
  revert c. induction ms as [|m ms IH]; intros c Hc; simpl; [done|].
  by apply IH, handles_own_call.
Qed.

Lemma handles_own_calls ms : handles_own (calls ms).
Proof.
  apply handles_own_from. unfold handles_own. simpl.
  repeat split; right; (split; [lia|]); by left.
Qed.

Lemma installed_insert_None {H} (m : list (option H)) i h :
  m !! i = Some (Some h) ->
  exists before behind,
    installed m = before ++ h :: behind /\ installed (<[i := None]> m) = before ++ behind.
Proof.
  revert i. induction m as [|x m IH]; intros i Hin; [done|].
  destruct i as [|i]; simpl in Hin.
  - injection Hin as ->. by exists [], (installed m).
  - destruct (IH i Hin) as (before & behind & Hm & Hm').
    destruct x as [y|]; simpl.
    + exists (y :: before), behind.
      change (installed (Some y :: m)) with (y :: installed m).
      change (installed (Some y :: <[i:=None]> m)) with (y :: installed (<[i:=None]> m)).
      by rewrite Hm, Hm'.
    + by exists before, behind.
Qed.

Lemma eject_own {H} (m : list (option H)) id h :
  handle_of m id h -> without_one h (installed m) (installed (eject id m)).
Proof.
  intros [->|[Hid [Hin|Hin]]].
  - by left.
  - right. unfold eject.
    assert ((id <? 0) = false) as -> by (apply Z.ltb_ge; lia).
    by apply installed_insert_None.
  - left. unfold eject.
    assert ((id <? 0) = false) as -> by (apply Z.ltb_ge; lia).
    by rewrite list_insert_id.
Qed.

(** X18. Whatever sequence of its methods the exported client has gone
    through, each remove method takes away at most one hook, and only a
    hook of its own kind: [removeLogoutInterceptor] at most one 401 hook,
    [removeServerUnreachableInterceptor] at most one unreachable hook,
    [removeLoadInterceptor] at most one start and one stop hook, although
    the first two leave their handle as it was. [removeReactiveItemsInterceptor]
    changes nothing at all, since nothing ever sets its handle. *)
Theorem remove_takes_own_hook_only (ms : list client_call) :
  let c := calls ms in
  without_one LogoutOn401 (installed (response c))
    (installed (response (removeLogoutInterceptor c))) /\
  without_one LogoutOnUnreachable (installed (response c))
    (installed (response (removeServerUnreachableInterceptor c))) /\
  without_one StartLoad (installed (request c))
    (installed (request (removeLoadInterceptor c))) /\
  without_one StopLoad (installed (response c))
    (installed (response (removeLoadInterceptor c))) /\
  removeReactiveItemsInterceptor c = c.
Proof.
  intros c. destruct (handles_own_calls ms) as (Hstart & Hstop & Hlogout & Hunreachable & Hreactive).
  fold c in Hstart, Hstop, Hlogout, Hunreachable, Hreactive.
  repeat split; try (simpl; by apply eject_own).
  clearbody c. destruct c. simpl in Hreactive. subst. reflexivity.
Qed.

(** ** The store of the older code: [store/auth.ts] *)

Ltac legacy_run :=
  unfold Legacy.try_catch, Legacy.request, Legacy.gets, Legacy.modify, Legacy.set_baseURL,
    Legacy.set_headerToken, Legacy.emit, Legacy.setAxiosHeader, throw, try_finally,
    mbind, ST_bind, mret, ST_ret;
  simpl.

(** X19. [connectServer] of the older store points the shared client at
    the address asked for (without its trailing slash) before it asks the
    server anything, and never points it back: however the call ends, the
    client is left at that address, with the header of the user who was
    current at the call; and when the call throws (server unreachable,
    version too low), the store is as it was, so that the client is then
    aimed at a server the store does not hold as current. *)
Theorem Legacy_connectServer_moves_client serverUrl isDefault response w :
  let done := Legacy.connectServer serverUrl isDefault response w in
  Legacy.baseURL (snd done) = JsVal (replace_trailing_slash serverUrl) /\
  Legacy.headerToken (snd done) = Legacy.currentUserToken (Legacy.state w) /\
  (forall e, fst done = Throw e -> Legacy.state (snd done) = Legacy.state w).
Proof.
  unfold Legacy.connectServer. destruct response as [data|error]; legacy_run.
  - destruct (isServerVersionSupported (info_Version data)); simpl; [|done].
    destruct (truthy_bool (info_StartupWizardCompleted data)); simpl; [|done].
    destruct (Legacy.getServerById (Legacy.state w) (info_Id data)); simpl; done.
  - done.
Qed.

Lemma Legacy_connectServer_moves_client_witness :
  let w := Sample.legacy_two_users in
  let done := Legacy.connectServer "http://gone.example/" false
                (Failed (NotAxios "timeout")) w in
  fst done = Throw (ErrorOf (NotAxios "timeout")) /\
  Legacy.baseURL w = JsVal "http://one.example" /\
  Legacy.baseURL (snd done) = JsVal "http://gone.example" /\
  Legacy.state (snd done) = Legacy.state w.
Proof.
  intros w done.
  assert (fst done = Throw (ErrorOf (NotAxios "timeout"))) as Hthrown by by vm_compute.
  pose proof (Legacy_connectServer_moves_client "http://gone.example/" false
                (Failed (NotAxios "timeout")) w) as (Hbase & _ & Hstate).
  split; [exact Hthrown|]. split; [by vm_compute|].
  split; [exact Hbase|exact (Hstate _ Hthrown)].
Defined.

Lemma at_index_indexOf_found {A} `{EqDecision A} (p : A -> bool) (l : list A) :
  at_index l (indexOf_found (find p l) l) = find p l.
Proof.
  destruct (find p l) as [y|] eqn:Hf; [|done].
  destruct (find_Some_split p l y Hf) as (before & behind & Hl & _ & Hy & _).
  destruct (at_index_of_found p l y) as (z & Hz & _ & Hat); [|done|].
  - rewrite Hl. apply elem_of_app. right. apply elem_of_cons. by left.
  - rewrite Hf in Hat. rewrite Hf in Hz. injection Hz as <-. exact Hat.
Qed.

(** X20. A successful [connectServer] of the older store (version
    supported, wizard completed) adds the record only if no record has the
    server's Id, and then makes current the first record that holds the
    address asked for. So the server selected is the one asked for only
    when the records agree with the addresses: connecting to a known
    server under an address no record holds adds nothing and leaves no
    current server. *)
Theorem Legacy_connectServer_selects_by_address serverUrl isDefault data w
  (Hversion : isServerVersionSupported (info_Version data) = true)
  (Hwizard : truthy_bool (info_StartupWizardCompleted data) = true) :
  let address := replace_trailing_slash serverUrl in
  let record := {| Legacy.info := data; Legacy.PublicAddress := address;
                   Legacy.isDefault := isDefault |} in
  let held := fun serv => String.eqb (Legacy.PublicAddress serv) address in
  let done := Legacy.connectServer serverUrl isDefault (Resolved data) w in
  fst done = Normal tt /\
  Legacy.servers (Legacy.state (snd done)) =
    match Legacy.getServerById (Legacy.state w) (info_Id data) with
    | Some _ => Legacy.servers (Legacy.state w)
    | None => Legacy.servers (Legacy.state w) ++ [record]
    end /\
  Legacy.currentServer (Legacy.state (snd done)) =
    find held (Legacy.servers (Legacy.state (snd done))) /\
  (is_Some (Legacy.getServerById (Legacy.state w) (info_Id data)) ->
   find held (Legacy.servers (Legacy.state w)) = None ->
   Legacy.currentServerIndex (Legacy.state (snd done)) = -1 /\
   Legacy.currentServer (Legacy.state (snd done)) = None).
Proof.
  intros address record held. unfold Legacy.connectServer. legacy_run.
  rewrite Hversion, Hwizard. simpl. fold address.
  destruct (Legacy.getServerById (Legacy.state w) (info_Id data)) as [known|] eqn:Hknown;
    simpl.
  - split; [done|]. split; [done|].
    split; [apply at_index_indexOf_found|].
    intros _ Hnone. unfold Legacy.currentServer. simpl.
    fold held. by rewrite Hnone.
  - split; [done|]. split; [done|].
    split; [apply at_index_indexOf_found|].
    by intros [? [=]].
Qed.

Lemma Legacy_connectServer_selects_by_address_witness :
  let w := Sample.legacy_two_users in
  let done := Legacy.connectServer "https://one.example" true
                (Resolved (Sample.system_info "S1" "10.8.0")) w in
  fst done = Normal tt /\
  Legacy.servers (Legacy.state (snd done)) = Legacy.servers (Legacy.state w) /\
  Legacy.currentServer (Legacy.state w) <> None /\
  Legacy.currentServer (Legacy.state (snd done)) = None.
Proof.
  intros w done.
  pose proof (Legacy_connectServer_selects_by_address "https://one.example" true
                (Sample.system_info "S1" "10.8.0") w eq_refl eq_refl) as (Hr & Hs & _ & Hnone).
  split; [exact Hr|]. split; [exact Hs|]. split; [by vm_compute|].
  apply Hnone; [by eexists|by vm_compute].
Defined.

(** X21. [loginUser] of the older store, when a server is current and the
    reply carries a user with an Id and a token: the user is added at the
    end of the list and becomes the current user, the token is filed under
    the user's Id, the header of the shared client carries that token, and
    the choice to be remembered is stored. *)
Theorem Legacy_loginUser_signs_in username password remember user token w
  (Hserver : is_Some (Legacy.currentServer (Legacy.state w)))
  (Hid : truthy (user_Id user) = true)
  (Htoken : truthy (JsVal token) = true) :
  let done := Legacy.loginUser username password remember
                (Resolved {| User := JsVal user; AccessToken := JsVal token |}) w in
  fst done = Normal tt /\
  Legacy.users (Legacy.state (snd done)) = Legacy.users (Legacy.state w) ++ [user] /\
  Legacy.currentUser (Legacy.state (snd done)) = Some user /\
  Legacy.accessTokens (Legacy.state (snd done)) =
    <[ToString (user_Id user) := token]> (Legacy.accessTokens (Legacy.state w)) /\
  Legacy.headerToken (snd done) = token /\
  Legacy.rememberMe (Legacy.state (snd done)) = remember /\
  Legacy.servers (Legacy.state (snd done)) = Legacy.servers (Legacy.state w) /\
  Legacy.currentServerIndex (Legacy.state (snd done)) =
    Legacy.currentServerIndex (Legacy.state w).
Proof.
  destruct Hserver as [server Hserver]. unfold Legacy.loginUser. legacy_run.
  rewrite Hserver. simpl. rewrite Hid. simpl in Htoken. rewrite Htoken. simpl.
  assert (Legacy.currentUser
            (Legacy.with_currentUserIndex
               (Z.of_nat (length (Legacy.users (Legacy.state w) ++ [user])) - 1)
               (Legacy.with_users (Legacy.users (Legacy.state w) ++ [user])
                  (Legacy.with_accessTokens
                     (<[ToString (user_Id user) := token]>
                        (Legacy.accessTokens (Legacy.state w)))
                     (Legacy.with_rememberMe remember (Legacy.state w))))) = Some user)
    as Hcurrent by apply at_index_last.
  repeat split; try done.
  unfold Legacy.currentUserToken. rewrite Hcurrent. simpl. rewrite Hid. simpl.
  by rewrite lookup_insert_eq.
Qed.

Lemma Legacy_loginUser_signs_in_witness :
  let w := Sample.legacy_two_users in
  let done := Legacy.loginUser "carol" "pw" false
                (Resolved {| User := JsVal (Sample.user "u3" "S1" "carol");
                             AccessToken := JsVal "t3" |}) w in
  is_Some (Legacy.currentServer (Legacy.state w)) /\
  Legacy.currentUser (Legacy.state (snd done)) = Some (Sample.user "u3" "S1" "carol") /\
  Legacy.headerToken (snd done) = "t3".
Proof.
  intros w done.
  assert (is_Some (Legacy.currentServer (Legacy.state w))) as Hserver by (vm_compute; eauto).
  split; [exact Hserver|].
  pose proof (Legacy_loginUser_signs_in "carol" "pw" false (Sample.user "u3" "S1" "carol")
                "t3" w Hserver eq_refl eq_refl) as (_ & _ & Hcurrent & _ & Hheader & _).
  split; [exact Hcurrent|exact Hheader].
Defined.

(** X22. [loginUser] of the older store when the request fails: whatever
    was thrown is thrown again to the caller, after exactly one
    notification whose text is read off it; the store, the address and the
    header of the shared client are as before. Without a current server
    the call throws before any request, and nothing at all changes. *)
Theorem Legacy_loginUser_failure_is_passed_up username password remember error w :
  let done := Legacy.loginUser username password remember (Failed error) w in
  match Legacy.currentServer (Legacy.state w) with
  | None => done = (Throw NoCurrentServer, w)
  | Some _ =>
      fst done = Throw (Rethrown error) /\
      Legacy.state (snd done) = Legacy.state w /\
      Legacy.baseURL (snd done) = Legacy.baseURL w /\
      Legacy.headerToken (snd done) = Legacy.headerToken w /\
      Legacy.log (snd done) = Legacy.log w ++
        [Legacy.AuthenticateUserByName (Legacy.baseURL w) username password;
         Legacy.SnackbarPush (Legacy.errorMessage_of error) "error"]
  end.
Proof.
  unfold Legacy.loginUser. legacy_run.
  destruct (Legacy.currentServer (Legacy.state w)); simpl; [|done].
  repeat split. by rewrite <- app_assoc.
Qed.

(** X23. [logoutUser(true, ...)] of the older store with a current user:
    the list of users is left holding the current user alone, every other
    user is dropped from it while their tokens stay filed; the token of the
    current user is deleted and no user is current any more. This is done
    also when the end-of-session request fails, and the failure is then
    thrown to the caller. *)
Theorem Legacy_logoutUser_keeps_current_user_only skipRequest response w u
  (Hcurrent : Legacy.currentUser (Legacy.state w) = Some u) :
  let done := Legacy.logoutUser true skipRequest response w in
  Legacy.users (Legacy.state (snd done)) = [u] /\
  Legacy.currentUserIndex (Legacy.state (snd done)) = -1 /\
  Legacy.currentUser (Legacy.state (snd done)) = None /\
  Legacy.accessTokens (Legacy.state (snd done)) =
    delete (ToString (user_Id u)) (Legacy.accessTokens (Legacy.state w)) /\
  Legacy.servers (Legacy.state (snd done)) = Legacy.servers (Legacy.state w) /\
  fst done =
    (if skipRequest then Normal tt
     else match response with
          | Resolved _ => Normal tt
          | Failed error => Throw (Rethrown error)
          end).
Proof.
  unfold Legacy.logoutUser. destruct skipRequest; [|destruct response as [[]|error]];
    legacy_run; rewrite Hcurrent; simpl; done.
Qed.

Lemma Legacy_logoutUser_keeps_current_user_only_witness :
  let w := Sample.legacy_two_users in
  let done := Legacy.logoutUser true false (Failed (FromAxios Sample.unauthorized)) w in
  Legacy.currentUser (Legacy.state w) = Some Sample.bob /\
  Legacy.users (Legacy.state w) = [Sample.alice; Sample.bob] /\
  Legacy.users (Legacy.state (snd done)) = [Sample.bob] /\
  Legacy.accessTokens (Legacy.state (snd done)) !! "u1" = Some "t1" /\
  fst done = Throw (Rethrown (FromAxios Sample.unauthorized)).
Proof.
  intros w done.
  assert (Legacy.currentUser (Legacy.state w) = Some Sample.bob) as Hcurrent by by vm_compute.
  split; [exact Hcurrent|]. split; [by vm_compute|].
  pose proof (Legacy_logoutUser_keeps_current_user_only false
                (Failed (FromAxios Sample.unauthorized)) w Sample.bob Hcurrent)
    as (Husers & _ & _ & Htokens & _ & Hthrown).
  split; [exact Husers|]. split; [|exact Hthrown].
  unfold done. rewrite Htokens. by vm_compute.
Defined.

Lemma filter_elem_of_filter {A} `{EqDecision A} (P : A -> Prop) `{!forall x, Decision (P x)}
    (l : list A) :
  filter (fun x => x ∈ filter P l) l = filter P l.
Proof.
  assert (forall k : list A, (forall x, x ∈ k -> x ∈ l) ->
            filter (fun x => x ∈ filter P l) k = filter P k) as Hgen.
  { induction k as [|a k IH]; intros Hsub; [done|].
    assert (a ∈ l) as Ha by (apply Hsub, elem_of_cons; by left).
    assert (forall x, x ∈ k -> x ∈ l) as Hk by (intros x Hx; apply Hsub, elem_of_cons; by right).
    destruct (decide (P a)) as [HP|HP].
    - rewrite !filter_cons_True; [by rewrite IH|done|].
      apply list_elem_of_filter. by split.
    - rewrite !filter_cons_False; [by apply IH|done|].
      intros Hin. apply list_elem_of_filter in Hin as [? _]. done. }
  by apply Hgen.
Qed.

Lemma splice1_removed_found {A} `{EqDecision A} (l : list A) x :
  x ∈ l -> splice1_removed (indexOf x l) l = [x].
Proof.
  intros Hx. unfold indexOf.
  destruct (list_find_elem_of (fun y => y = x) l x Hx eq_refl) as [[i y] Hfind].
  rewrite Hfind. apply list_find_Some in Hfind as (Hi & -> & _).
  unfold splice1_removed. pose proof (lookup_lt_Some _ _ _ Hi) as Hlt.
  assert ((Z.of_nat i <? 0) = false) as -> by (apply Z.ltb_ge; lia).
  rewrite Z.min_l by lia. by rewrite Nat2Z.id, Hi.
Qed.

Lemma find_elem_of {A} (p : A -> bool) (l : list A) x : find p l = Some x -> x ∈ l.
Proof.
  intros Hf. destruct (find_Some_split p l x Hf) as (before & behind & -> & _).
  apply elem_of_app. right. apply elem_of_cons. by left.
Qed.

Lemma Legacy_setAxiosHeader_eq accessToken w :
  exists token,
    Legacy.setAxiosHeader accessToken w =
      (Normal tt, {| Legacy.state := Legacy.state w; Legacy.baseURL := Legacy.baseURL w;
                     Legacy.headerToken := token; Legacy.log := Legacy.log w |}) /\
    token = match accessToken with
            | Some given => if negb (String.eqb given "") then given
                            else Legacy.currentUserToken (Legacy.state w)
            | None => Legacy.currentUserToken (Legacy.state w)
            end.
Proof.
  unfold Legacy.setAxiosHeader, Legacy.gets, Legacy.set_headerToken, mbind, ST_bind. simpl.
  destruct accessToken as [given|]; [destruct (negb (String.eqb given ""))|]; eauto.
Qed.

(** The end-of-session requests of [deleteServer] when each is answered:
    the tokens of the users go, nothing else of the store changes, and the
    address of the client stays. *)
Lemma Legacy_logout_each_resolved users sessionEnded w :
  (forall u, u ∈ users -> sessionEnded u = Resolved tt) ->
  let done := Legacy.logout_each users sessionEnded w in
  fst done = Normal tt /\
  Legacy.state (snd done) =
    Legacy.with_accessTokens
      (foldl (fun tokens u => delete (ToString (user_Id u)) tokens)
             (Legacy.accessTokens (Legacy.state w)) users)
      (Legacy.state w) /\
  Legacy.baseURL (snd done) = Legacy.baseURL w.
Proof.
  revert w. induction users as [|u users IH]; intros w Hall.
  - simpl. repeat split. by destruct w as [[]].
  - assert (sessionEnded u = Resolved tt) as Hu by (apply Hall, elem_of_cons; by left).
    assert (forall v, v ∈ users -> sessionEnded v = Resolved tt) as Hrest
      by (intros v Hv; apply Hall, elem_of_cons; by right).
    destruct (Legacy_setAxiosHeader_eq
                (Legacy.getUserAccessToken (Legacy.state w) (Some u)) w)
      as (token & Hset & _).
    assert (Legacy.logout_each (u :: users) sessionEnded w =
            Legacy.logout_each users sessionEnded
              {| Legacy.state :=
                   Legacy.with_accessTokens
                     (delete (ToString (user_Id u)) (Legacy.accessTokens (Legacy.state w)))
                     (Legacy.state w);
                 Legacy.baseURL := Legacy.baseURL w;
                 Legacy.headerToken := token;
                 Legacy.log := Legacy.log w ++
                   [Legacy.ReportSessionEnded (Legacy.baseURL w) token] |}) as ->.
    { cbn [Legacy.logout_each]. unfold Legacy.logoutUser. rewrite Hu.
      unfold mbind, ST_bind. unfold Legacy.gets at 1. rewrite Hset.
      unfold Legacy.request, Legacy.modify, try_finally, mret, ST_ret. by cbn. }
    match goal with |- context [Legacy.logout_each users sessionEnded ?w1] =>
      destruct (IH w1 Hrest) as (Hr & Hs & Hb)
    end.
    split; [exact Hr|]. split; [etransitivity; [exact Hs|]|etransitivity; [exact Hb|]]; done.
Qed.

Lemma Legacy_setAxiosBaseUrl_eq w :
  exists url,
    Legacy.setAxiosBaseUrl None w =
      (Normal tt, {| Legacy.state := Legacy.state w; Legacy.baseURL := url;
                     Legacy.headerToken := Legacy.headerToken w;
                     Legacy.log := Legacy.log w |}).
Proof.
  unfold Legacy.setAxiosBaseUrl, Legacy.gets, Legacy.set_baseURL, mbind, ST_bind. simpl.
  destruct (Legacy.currentServer (Legacy.state w)) as [srv|];
    [destruct (negb (String.eqb (Legacy.PublicAddress srv) ""))|]; eauto.
Qed.

(** X24. [deleteServer] of the older store for an address that a record
    holds, when every end-of-session request is answered: the store is left
    with exactly the record that was to be deleted as its only server, and
    with exactly the users of that server as its users, every user of
    another server being dropped; the tokens of the users of that server
    are deleted, and the two selectors are not touched. *)
Theorem Legacy_deleteServer_keeps_what_it_names serverUrl sessionEnded w server
  (Hfind : find (fun server => String.eqb (Legacy.PublicAddress server) serverUrl)
             (Legacy.servers (Legacy.state w)) = Some server)
  (Hended : forall u, u ∈ Legacy.getUsersFromServer (Legacy.state w) server ->
                      sessionEnded u = Resolved tt) :
  let done := Legacy.deleteServer serverUrl sessionEnded w in
  fst done = Normal tt /\
  Legacy.servers (Legacy.state (snd done)) = [server] /\
  Legacy.users (Legacy.state (snd done)) =
    Legacy.getUsersFromServer (Legacy.state w) server /\
  Legacy.accessTokens (Legacy.state (snd done)) =
    foldl (fun tokens u => delete (ToString (user_Id u)) tokens)
          (Legacy.accessTokens (Legacy.state w))
          (Legacy.getUsersFromServer (Legacy.state w) server) /\
  Legacy.currentServerIndex (Legacy.state (snd done)) =
    Legacy.currentServerIndex (Legacy.state w) /\
  Legacy.currentUserIndex (Legacy.state (snd done)) =
    Legacy.currentUserIndex (Legacy.state w).
Proof.
  cbv zeta. pattern (Legacy.deleteServer serverUrl sessionEnded w).
  match goal with |- ?Q _ => set (P := Q) end.
  unfold Legacy.deleteServer. unfold mbind, ST_bind.
  unfold Legacy.gets at 1. rewrite Hfind. unfold Legacy.gets at 1.
  unfold Legacy.set_baseURL at 1.
  set (w1 := {| Legacy.state := Legacy.state w;
                Legacy.baseURL := JsVal (Legacy.PublicAddress server);
                Legacy.headerToken := Legacy.headerToken w;
                Legacy.log := Legacy.log w |}).
  destruct (Legacy_logout_each_resolved
              (Legacy.getUsersFromServer (Legacy.state w) server) sessionEnded w1 Hended)
    as (Hr & Hs & _).
  destruct (Legacy.logout_each (Legacy.getUsersFromServer (Legacy.state w) server)
              sessionEnded w1) as [r w2].
  simpl in Hr, Hs. subst r.
  destruct (Legacy_setAxiosBaseUrl_eq w2) as (url & ->).
  match goal with |- context [Legacy.setAxiosHeader None ?w3] =>
    destruct (Legacy_setAxiosHeader_eq None w3) as (token & -> & _)
  end.
  unfold Legacy.modify. subst P. simpl. rewrite Hs. simpl.
  split; [done|]. split.
  { apply splice1_removed_found. by apply find_elem_of in Hfind. }
  split; [|done].
  unfold Legacy.getUsersFromServer. apply filter_elem_of_filter.
Qed.

Lemma Legacy_deleteServer_keeps_what_it_names_witness :
  let w := Sample.legacy_two_users in
  let done := Legacy.deleteServer "http://one.example" (fun _ => Resolved tt) w in
  fst done = Normal tt /\
  Legacy.servers (Legacy.state (snd done)) = Legacy.servers (Legacy.state w) /\
  Legacy.users (Legacy.state (snd done)) = [Sample.alice; Sample.bob].
Proof.
  intros w done.
  assert (exists server,
            find (fun server => String.eqb (Legacy.PublicAddress server) "http://one.example")
              (Legacy.servers (Legacy.state w)) = Some server /\
            Legacy.servers (Legacy.state w) = [server] /\
            Legacy.getUsersFromServer (Legacy.state w) server = [Sample.alice; Sample.bob])
    as (server & Hfind & Hservers & Husers) by (vm_compute; eauto).
  pose proof (Legacy_deleteServer_keeps_what_it_names "http://one.example"
                (fun _ => Resolved tt) w server Hfind (fun _ _ => eq_refl))
    as (Hr & Hs & Hu & _).
  split; [exact Hr|]. split; [by rewrite Hservers|]. by rewrite <- Husers.
Defined.

(** X25. [deleteServer] of the older store when the end-of-session request
    for the first user of the server fails: the failure is thrown to the
    caller and the store keeps every server, user and token; but the shared
    client stays pointed at the address of that server, since the address
    of the current server is put back only after the loop. *)
Theorem Legacy_deleteServer_aborted_by_failure serverUrl sessionEnded w server u rest error
  (Hfind : find (fun server => String.eqb (Legacy.PublicAddress server) serverUrl)
             (Legacy.servers (Legacy.state w)) = Some server)
  (Husers : Legacy.getUsersFromServer (Legacy.state w) server = u :: rest)
  (Hfails : sessionEnded u = Failed error) :
  let done := Legacy.deleteServer serverUrl sessionEnded w in
  fst done = Throw (Rethrown error) /\
  Legacy.state (snd done) = Legacy.state w /\
  Legacy.baseURL (snd done) = JsVal (Legacy.PublicAddress server) /\
  exists token,
    Legacy.headerToken (snd done) = token /\
    Legacy.log (snd done) =
      Legacy.log w ++
      [Legacy.ReportSessionEnded (JsVal (Legacy.PublicAddress server)) token].
Proof.
  cbv zeta. pattern (Legacy.deleteServer serverUrl sessionEnded w).
  match goal with |- ?Q _ => set (P := Q) end.
  unfold Legacy.deleteServer. unfold mbind, ST_bind.
  unfold Legacy.gets at 1. rewrite Hfind. unfold Legacy.gets at 1. rewrite Husers.
  unfold Legacy.set_baseURL at 1.
  cbn [Legacy.logout_each]. unfold Legacy.logoutUser. rewrite Hfails.
  unfold mbind, ST_bind. unfold Legacy.gets at 1.
  match goal with |- context [Legacy.setAxiosHeader ?t ?w1] =>
    destruct (Legacy_setAxiosHeader_eq t w1) as (token & -> & _)
  end.
  unfold Legacy.request, try_finally, mret, ST_ret. subst P. simpl.
  repeat split. by exists token.
Qed.

Lemma Legacy_deleteServer_aborted_by_failure_witness :
  let w := Sample.legacy_two_users in
  let done := Legacy.deleteServer "http://one.example"
                (fun _ => Failed (FromAxios Sample.unauthorized)) w in
  fst done = Throw (Rethrown (FromAxios Sample.unauthorized)) /\
  Legacy.state (snd done) = Legacy.state w /\
  Legacy.users (Legacy.state w) = [Sample.alice; Sample.bob].
Proof.
  intros w done.
  assert (exists server,
            find (fun server => String.eqb (Legacy.PublicAddress server) "http://one.example")
              (Legacy.servers (Legacy.state w)) = Some server /\
            Legacy.getUsersFromServer (Legacy.state w) server = [Sample.alice; Sample.bob])
    as (server & Hfind & Husers) by (vm_compute; eauto).
  pose proof (Legacy_deleteServer_aborted_by_failure "http://one.example"
                (fun _ => Failed (FromAxios Sample.unauthorized)) w server
                Sample.alice [Sample.bob] (FromAxios Sample.unauthorized)
                Hfind Husers eq_refl)
    as (Hr & Hs & _).
  split; [exact Hr|]. split; [exact Hs|]. by vm_compute.
Defined.
